(** * RiftViewer: playback control logic of [source/viewer/RiftViewer.cpp]

    A shallow embedding of the viewer's tick loop ([MainLoop]), of the key
    poller ([getAndUpdateActiveKeys]) and of the audio/video drift
    decision, followed by the properties of the specification that were
    checked against it.

    Conventions of the embedding
    - [char] values are integers ([Z]); [std::set<char>] is a [gset Z], and
      the iteration order of a [std::set] (ascending) is written out.
    - [Time] (a [high_resolution_clock] time point) is an integer count of
      clock ticks; [ticksPerMs] of them make a millisecond.
    - C++ [float] arithmetic is an interface ([FloatArith]); [binary32] is
      its IEEE 754 single precision instance, built on [SpecFloat].
    - Statics and globals are a record ([Statics]) threaded through
      [MainLoop]; objects local to one invocation are a second record
      ([Session]).
    - Calls into collaborators (video file, soundtrack, menu, scene,
      compositor) are recorded as a chronological list of [Event]s; what
      they return is an input of the tick ([TickInput]). *)

From Stdlib Require Import ZArith QArith Qcanon SpecFloat Ascii Sorted.
From stdpp Require Import base numbers list sets gmap.

Open Scope Z_scope.

(** ** Floating point *)

(** The operations the viewer performs on [float] values, and what a
    well-formed value of the format is. *)
Class FloatArith := {
  float : Type;
  fvalid : float → bool;               (* a well-formed value of the format *)
  fadd : float → float → float;
  fsub : float → float → float;
  fmul : float → float → float;
  fdiv : float → float → float;
  fgt : float → float → bool;          (* a > b *)
  fneq : float → float → bool;         (* a != b *)
  of_int : Z → float;                  (* integer to float conversion *)
  to_int : float → Z;                  (* (int)x, truncation toward zero *)
  of_decimal : Z → nat → float         (* the literal m * 10^-k *)
}.

(** Laws used by the drift decision: the operations yield well-formed
    values, [>] is a strict order, and a value above [r + lag] is above [r]
    (for a well-formed [r] and a lag that is not negative).  Both instances
    below satisfy them ([binary32_order], [exact_order]): in IEEE arithmetic
    a NaN is above nothing and nothing is above it, and rounding [r + lag]
    never goes below [r]. *)
Class FloatOrder (F : FloatArith) : Prop := {
  fvalid_of_int : ∀ n : Z, fvalid (of_int n) = true;
  fvalid_fmul : ∀ a b : float,
    fvalid a = true → fvalid b = true → fvalid (fmul a b) = true;
  fvalid_fdiv : ∀ a b : float,
    fvalid a = true → fvalid b = true → fvalid (fdiv a b) = true;
  fgt_irrefl : ∀ a : float, fgt a a = false;
  fgt_trans : ∀ a b c : float, fgt a b = true → fgt b c = true → fgt a c = true;
  fgt_add_lag : ∀ (v r : float) (lag : Z),
    fvalid r = true → 0 ≤ lag →
    fgt v (fadd r (of_int lag)) = true → fgt v r = true
}.

(** *** IEEE 754 binary32 *)

Module Binary32.

Definition prec : Z := 24.
Definition emax : Z := 128.

Definition of_Z (n : Z) : spec_float := binary_normalize prec emax n 0 false.

(** [(int)x]: the integer part.  The conversion is undefined in C++ for
    NaN, infinities and values outside [int]; the model yields the
    mathematical truncation, and 0 for NaN and infinities. *)
Definition trunc (x : spec_float) : Z :=
  match x with
  | S754_finite s m e =>
      let a := if 0 <=? e then Z.pos m * 2 ^ e else Z.pos m / 2 ^ (- e) in
      if s then - a else a
  | _ => 0
  end.

(** A decimal literal [m * 10^-k] whose numerator and denominator are
    exact in binary32: their correctly rounded quotient is the literal. *)
Definition decimal (m : Z) (k : nat) : spec_float :=
  SFdiv prec emax (of_Z m) (of_Z (10 ^ Z.of_nat k)).

Definition is_finite (x : spec_float) : bool :=
  match x with
  | S754_zero _ | S754_finite _ _ _ => true
  | _ => false
  end.

Definition sign_bit (x : spec_float) : bool :=
  match x with
  | S754_zero s | S754_infinity s | S754_finite s _ _ => s
  | S754_nan => false
  end.

End Binary32.

#[export] Instance binary32 : FloatArith := {|
  float := spec_float;
  fvalid := valid_binary Binary32.prec Binary32.emax;
  fadd := SFadd Binary32.prec Binary32.emax;
  fsub := SFsub Binary32.prec Binary32.emax;
  fmul := SFmul Binary32.prec Binary32.emax;
  fdiv := SFdiv Binary32.prec Binary32.emax;
  fgt := λ a b, SFltb b a;
  fneq := λ a b, negb (SFeqb a b);
  of_int := Binary32.of_Z;
  to_int := Binary32.trunc;
  of_decimal := Binary32.decimal
|}.

(** *** Rounding in binary32

    What [binary_round_aux] computes, written with integer division: the
    mantissa and the exponent after a right shift by [n] places (no shift
    when [n] is not positive), and the value assembled from a rounded
    mantissa and its exponent. *)

Definition digits (m : positive) : Z := Z.pos (digits2_pos m).

Definition shifted_m (m n : Z) : Z := if 0 <? n then m / 2 ^ n else m.

Definition shifted_e (e n : Z) : Z := if 0 <? n then e + n else e.

Definition rounded (sx : bool) (m e : Z) : spec_float :=
  match m with
  | 0 => S754_zero sx
  | Z.pos p => if e <=? 104 then S754_finite sx p e else S754_infinity sx
  | Z.neg _ => S754_nan
  end.

(** *** Exact rational arithmetic

    An instance without rounding; it satisfies the order laws. *)

Module Exact.

Definition trunc (x : Qc) : Z := Z.quot (Qnum (this x)) (Z.pos (Qden (this x))).

Definition of_Z (n : Z) : Qc := Q2Qc (inject_Z n).

Definition decimal (m : Z) (k : nat) : Qc := (of_Z m / of_Z (10 ^ Z.of_nat k))%Qc.

Definition gt (a b : Qc) : bool :=
  match (b ?= a)%Qc with Lt => true | _ => false end.

End Exact.

Definition exact : FloatArith := {|
  float := Qc;
  fvalid := λ _, true;
  fadd := Qcplus;
  fsub := Qcminus;
  fmul := Qcmult;
  fdiv := Qcdiv;
  fgt := λ a b, Exact.gt a b;
  fneq := λ a b, negb (Qc_eq_bool a b);
  of_int := Exact.of_Z;
  to_int := Exact.trunc;
  of_decimal := Exact.decimal
|}.

(** ** Keys *)

Definition chr (a : ascii) : Z := Z.of_nat (nat_of_ascii a).

(** Virtual key codes of the arrow keys (WinUser.h). *)
Definition VK_LEFT : Z := 37.
Definition VK_UP : Z := 38.
Definition VK_RIGHT : Z := 39.
Definition VK_DOWN : Z := 40.

(** The initializer of [keysOfInterest], in source order. *)
Definition keysOfInterest_init : list Z :=
  [VK_LEFT; VK_RIGHT; chr "W"; VK_UP; chr "S"; VK_DOWN; chr "D"; chr "A";
   chr "C"; chr "H"; chr "M"; chr "B"; chr " "].

(** [keysOfInterest] as the range-for visits it: a [std::set<char>] iterates
    in ascending order, without duplicates. *)
Definition keysOfInterest : list Z :=
  [chr " "; VK_LEFT; VK_UP; VK_RIGHT; VK_DOWN; chr "A"; chr "B"; chr "C";
   chr "D"; chr "H"; chr "M"; chr "S"; chr "W"].

Definition keysActiveOnlyOnKeyPress : gset Z :=
  list_to_set [chr "C"; chr "H"; chr "M"; chr "B"; chr " "].

(** One iteration of the loop of [getAndUpdateActiveKeys]: [Key] is
    [Platform.Key], the pair is ([depressedKeys], [activeKeys]). *)
Definition keyStep (Key : Z → bool) (acc : gset Z * list Z) (c : Z) : gset Z * list Z :=
  let '(depressed, activeKeys) := acc in
  if Key c then
    if bool_decide (c ∉ depressed) || bool_decide (c ∉ keysActiveOnlyOnKeyPress)
    then ({[c]} ∪ depressed, activeKeys ++ [c])
    else (depressed, activeKeys)
  else (depressed ∖ {[c]}, activeKeys).

(** Returns the updated [depressedKeys] and the active keys. *)
Definition getAndUpdateActiveKeys (Key : Z → bool) (depressedKeys : gset Z) : gset Z * list Z :=
  foldl (keyStep Key) (depressedKeys, []) keysOfInterest.

(** Whether the key [c] is reported active by a call that finds
    [depressedKeys] as [d]. *)
Definition fires (Key : Z → bool) (d : gset Z) (c : Z) : bool :=
  Key c && (bool_decide (c ∉ d) || bool_decide (c ∉ keysActiveOnlyOnKeyPress)).

(** Successive calls of [getAndUpdateActiveKeys], one per raw key state;
    the result lists the active keys of each call. *)
Fixpoint pollKeys (raw : list (Z → bool)) (depressedKeys : gset Z) : list (list Z) :=
  match raw with
  | [] => []
  | Key :: rest =>
      let '(depressed', activeKeys) := getAndUpdateActiveKeys Key depressedKeys in
      activeKeys :: pollKeys rest depressed'
  end.

Fixpoint pollKeysState (raw : list (Z → bool)) (depressedKeys : gset Z) : gset Z :=
  match raw with
  | [] => depressedKeys
  | Key :: rest => pollKeysState rest (getAndUpdateActiveKeys Key depressedKeys).1
  end.

(** The active keys of call number [t], from an empty [depressedKeys]. *)
Definition activeAt (raw : list (Z → bool)) (t : nat) : list Z :=
  default [] (pollKeys raw ∅ !! t).

(** What the specification asks of a key [c] at the call number [t] of a
    history [raw]: an edge-triggered key fires on a rising edge (down now,
    up at the previous call, or first call), a level-triggered key fires
    whenever it is down. *)
Definition heldAt (raw : list (Z → bool)) (t : nat) (c : Z) : bool :=
  match raw !! t with Some Key => Key c | None => false end.

Definition risingAt (raw : list (Z → bool)) (t : nat) (c : Z) : bool :=
  heldAt raw t c && match t with O => true | S t' => negb (heldAt raw t' c) end.

Definition edgeTriggeredKeys : list Z := [chr " "; chr "C"; chr "H"; chr "B"; chr "M"].
Definition levelTriggeredKeys : list Z :=
  [VK_LEFT; VK_RIGHT; VK_UP; VK_DOWN; chr "W"; chr "A"; chr "S"; chr "D"].

(** ** Collaborators *)

(** Which [VideoFile] object a load belongs to: the one of the optional
    background, or the one of the video proper. *)
Inductive Source := Background | Video.

(** Modelled from the spec: [MenuScreen] (source/viewer/MenuScreen.h is not
    part of the sources at hand).  The menu "exposes update(), draw(view,
    proj), startFadeOut(), isHidden, and an exit callback invoked once when
    the menu finishes closing": it is shown until [startFadeOut], then fades,
    and the update at which the fade completes hides it and invokes the
    callback.  How many updates a fade lasts is an input of the tick. *)
Inductive MenuScreen := MenuShown | MenuFading | MenuHidden.

Definition isHidden (m : MenuScreen) : bool :=
  match m with MenuHidden => true | _ => false end.

Definition startFadeOut (m : MenuScreen) : MenuScreen :=
  match m with MenuShown => MenuFading | _ => m end.

(** The Boolean says whether the exit callback is invoked. *)
Definition menuUpdate (fadeDone : bool) (m : MenuScreen) : MenuScreen * bool :=
  match m with
  | MenuFading => if fadeDone then (MenuHidden, true) else (MenuFading, false)
  | _ => (m, false)
  end.

(** [ovrResult] codes (OVR_ErrorCode.h). *)
Definition ovrError_DisplayLost : Z := -6000.
Definition OVR_SUCCESS (result : Z) : bool := 0 <=? result.

(** What is fixed when the tick loop starts: the flags, the number of frames
    of the video and the period of the clock. *)
Record Config := {
  FLAGS_fps : Z;
  FLAGS_audio : bool;                  (* --audio is not empty *)
  FLAGS_background : option Z;         (* frames of the background video, if any *)
  numFrames : Z;                       (* videoFile.frames.size() *)
  ticksPerMs : Z;                      (* clock ticks per millisecond *)
  renderBackground0 : bool             (* scene.renderBackground after construction *)
}.

(** ** Render targets

    [OculusTextureBuffer], and what [MainLoop] creates before the scene
    and releases at [Done].  Handles and GL names are integers, 0 being the
    null handle; what the SDK and GL hand out is an input. *)

Inductive TextureFormat := OVR_FORMAT_R8G8B8A8_UNORM_SRGB | OVR_FORMAT_D32_FLOAT.

Inductive TexParameter :=
| MinFilterLinear          (* GL_TEXTURE_MIN_FILTER, GL_LINEAR *)
| MagFilterLinear          (* GL_TEXTURE_MAG_FILTER, GL_LINEAR *)
| WrapSClampToEdge         (* GL_TEXTURE_WRAP_S, GL_CLAMP_TO_EDGE *)
| WrapTClampToEdge.        (* GL_TEXTURE_WRAP_T, GL_CLAMP_TO_EDGE *)

(** Calls into the SDK, GL and the platform, outside the scene block. *)
Inductive Call :=
| ovr_Create (result : Z)
| ovr_GetHmdDesc
| Platform_InitDevice (w h : Z)
| ovr_GetFovTextureSize (eye : Z)
| ovr_CreateTextureSwapChainGL (format : TextureFormat) (w h : Z) (chain : Z)
| ovr_GetTextureSwapChainLength (chain : Z)
| ovr_GetTextureSwapChainBufferGL (chain : Z) (index : Z)
| glBindTexture (tex : Z)
| glTexParameteri (p : TexParameter)
| glGenFramebuffers (id : Z)
| ovr_CreateMirrorTextureGL (w h : Z) (texture : Z)
| ovr_GetMirrorTextureBufferGL (texture : Z)
| glBindFramebuffer (id : Z)
| glFramebufferTexture2D (tex : Z)
| glFramebufferRenderbuffer
| wglSwapIntervalEXT (interval : Z)
| ovr_SetTrackingOriginType
| SceneBlock                (* the block that holds the scene and the main loop *)
| glDeleteFramebuffers (id : Z)
| ovr_DestroyMirrorTexture (texture : Z)
| ovr_DestroyTextureSwapChain (chain : Z)
| Platform_ReleaseDevice
| ovr_Destroy.

(** What [ovr_CreateTextureSwapChainGL] and the queries on the chain yield:
    the result code, the chain left in the out-parameter, its length and its
    textures. *)
Record SwapChainResult := {
  chainResult : Z;
  chainHandle : Z;
  chainLength : Z;
  chainTexture : Z → Z
}.

Record BufferResults := {
  colorChain : SwapChainResult;
  depthChain : SwapChainResult;
  framebuffer : Z                      (* glGenFramebuffers *)
}.

Record OculusTextureBuffer := {
  ColorTextureChain : Z;
  DepthTextureChain : Z;
  fboId : Z;
  texSize : Z * Z
}.

(** One of the two blocks of the constructor: the chain is created, its
    length is asked for, and if the creation succeeded each of its textures
    is bound and given the four parameters. *)
Definition createChain (format : TextureFormat) (size : Z * Z) (r : SwapChainResult)
    : list Call :=
  [ovr_CreateTextureSwapChainGL format (fst size) (snd size) (chainHandle r);
   ovr_GetTextureSwapChainLength (chainHandle r)] ++
  (if OVR_SUCCESS (chainResult r) then
     flat_map
       (λ i, [ovr_GetTextureSwapChainBufferGL (chainHandle r) i;
              glBindTexture (chainTexture r i);
              glTexParameteri MinFilterLinear; glTexParameteri MagFilterLinear;
              glTexParameteri WrapSClampToEdge; glTexParameteri WrapTClampToEdge])
       (seqZ 0 (chainLength r))
   else []).

(** The constructor; [None] when one of its assertions fails. *)
Definition newOculusTextureBuffer (session : Z) (size : Z * Z) (sampleCount : Z)
    (r : BufferResults) : option (OculusTextureBuffer * list Call) :=
  if (1 <? sampleCount) || (session =? 0) then None
  else
    Some ({| ColorTextureChain := chainHandle (colorChain r);
             DepthTextureChain := chainHandle (depthChain r);
             fboId := framebuffer r;
             texSize := size |},
          createChain OVR_FORMAT_R8G8B8A8_UNORM_SRGB size (colorChain r) ++
          createChain OVR_FORMAT_D32_FLOAT size (depthChain r) ++
          [glGenFramebuffers (framebuffer r)]).

(** The destructor. *)
Definition deleteOculusTextureBuffer (b : OculusTextureBuffer) : list Call :=
  (if ColorTextureChain b =? 0 then []
   else [ovr_DestroyTextureSwapChain (ColorTextureChain b)]) ++
  (if DepthTextureChain b =? 0 then []
   else [ovr_DestroyTextureSwapChain (DepthTextureChain b)]) ++
  (if fboId b =? 0 then [] else [glDeleteFramebuffers (fboId b)]).

(** [delete p] for a pointer that may be null. *)
Definition deleteBuffer (p : option OculusTextureBuffer) : list Call :=
  match p with Some b => deleteOculusTextureBuffer b | None => [] end.

Definition GetSize (b : OculusTextureBuffer) : Z * Z := texSize b.

(** What [MainLoop] gets from the SDK, GL and the platform outside the
    scene block. *)
Record DeviceResults := {
  sessionHandle : Z;                   (* the session [ovr_Create] yields *)
  sessionResult : Z;                   (* its result *)
  Resolution : Z * Z;                  (* hmdDesc.Resolution *)
  deviceOk : bool;                     (* Platform.InitDevice *)
  idealTextureSize : Z → Z * Z;        (* ovr_GetFovTextureSize, per eye *)
  eyeBuffer : Z → BufferResults;
  mirrorTextureResult : Z;             (* ovr_CreateMirrorTextureGL *)
  mirrorTexture : Z;                   (* the texture it leaves in the out-parameter *)
  mirrorTexId : Z;                     (* ovr_GetMirrorTextureBufferGL *)
  mirrorFBO : Z                        (* glGenFramebuffers *)
}.

Inductive DeviceOutcome :=
| DeviceReturned                       (* [MainLoop] returned *)
| DeviceAborted.                       (* an assertion, VALIDATE or CHECK failed *)

(** [Done:] with the values [mirrorFBO], [mirrorTexture] and
    [eyeRenderTexture] have when control gets there. *)
Definition doneCalls (fbo texture : Z) (eye0 eye1 : option OculusTextureBuffer)
    : list Call :=
  (if fbo =? 0 then [] else [glDeleteFramebuffers fbo]) ++
  (if texture =? 0 then [] else [ovr_DestroyMirrorTexture texture]) ++
  deleteBuffer eye0 ++ deleteBuffer eye1 ++
  [Platform_ReleaseDevice; ovr_Destroy].

(** [MainLoop] outside the scene block; [sceneAborts] says whether a check
    inside the block fails. *)
Definition MainLoopDevice (retryCreate : bool) (r : DeviceResults) (sceneAborts : bool)
    : DeviceOutcome * list Call :=
  if negb (OVR_SUCCESS (sessionResult r)) then
    (DeviceReturned, [ovr_Create (sessionResult r)])
  else
    let w := Z.quot (fst (Resolution r)) 2 in
    let h := Z.quot (snd (Resolution r)) 2 in
    let start := [ovr_Create (sessionResult r); ovr_GetHmdDesc; Platform_InitDevice w h] in
    if negb (deviceOk r) then (DeviceReturned, start ++ doneCalls 0 0 None None)
    else
      match newOculusTextureBuffer (sessionHandle r) (idealTextureSize r 0) 1
              (eyeBuffer r 0) with
      | None => (DeviceAborted, start ++ [ovr_GetFovTextureSize 0])
      | Some (eye0, calls0) =>
        let upTo0 := start ++ [ovr_GetFovTextureSize 0] ++ calls0 in
        if (ColorTextureChain eye0 =? 0) || (DepthTextureChain eye0 =? 0) then
          if retryCreate then (DeviceReturned, upTo0 ++ doneCalls 0 0 (Some eye0) None)
          else (DeviceAborted, upTo0)
        else
          match newOculusTextureBuffer (sessionHandle r) (idealTextureSize r 1) 1
                  (eyeBuffer r 1) with
          | None => (DeviceAborted, upTo0 ++ [ovr_GetFovTextureSize 1])
          | Some (eye1, calls1) =>
            let upTo1 := upTo0 ++ [ovr_GetFovTextureSize 1] ++ calls1 in
            if (ColorTextureChain eye1 =? 0) || (DepthTextureChain eye1 =? 0) then
              if retryCreate
              then (DeviceReturned, upTo1 ++ doneCalls 0 0 (Some eye0) (Some eye1))
              else (DeviceAborted, upTo1)
            else
              let upToMirror := upTo1 ++ [ovr_CreateMirrorTextureGL w h (mirrorTexture r)] in
              if negb (OVR_SUCCESS (mirrorTextureResult r)) then
                if retryCreate
                then (DeviceReturned,
                      upToMirror ++ doneCalls 0 (mirrorTexture r) (Some eye0) (Some eye1))
                else (DeviceAborted, upToMirror)
              else
                let upToScene :=
                  upToMirror ++
                  [ovr_GetMirrorTextureBufferGL (mirrorTexture r);
                   glGenFramebuffers (mirrorFBO r);
                   glBindFramebuffer (mirrorFBO r);
                   glFramebufferTexture2D (mirrorTexId r);
                   glFramebufferRenderbuffer;
                   glBindFramebuffer 0;
                   wglSwapIntervalEXT 0;
                   ovr_SetTrackingOriginType;
                   SceneBlock] in
                if sceneAborts then (DeviceAborted, upToScene)
                else (DeviceReturned,
                      upToScene ++
                      doneCalls (mirrorFBO r) (mirrorTexture r) (Some eye0) (Some eye1))
          end
      end.

(** *** What is held

    What a call acquires and what it releases. *)
Inductive Resource :=
| TheSession
| TheDevice
| SwapChain (chain : Z)
| Framebuffer (id : Z)
| MirrorTexture (texture : Z).

Definition acquired (c : Call) : list Resource :=
  match c with
  | ovr_Create result => if OVR_SUCCESS result then [TheSession] else []
  | Platform_InitDevice _ _ => [TheDevice]
  | ovr_CreateTextureSwapChainGL _ _ _ chain => if chain =? 0 then [] else [SwapChain chain]
  | glGenFramebuffers id => if id =? 0 then [] else [Framebuffer id]
  | ovr_CreateMirrorTextureGL _ _ texture =>
      if texture =? 0 then [] else [MirrorTexture texture]
  | _ => []
  end.

Definition released (c : Call) : list Resource :=
  match c with
  | ovr_Destroy => [TheSession]
  | Platform_ReleaseDevice => [TheDevice]
  | ovr_DestroyTextureSwapChain chain => [SwapChain chain]
  | glDeleteFramebuffers id => [Framebuffer id]
  | ovr_DestroyMirrorTexture texture => [MirrorTexture texture]
  | _ => []
  end.

Definition acquisitions (calls : list Call) : list Resource := flat_map acquired calls.
Definition releases (calls : list Call) : list Resource := flat_map released calls.

(** ** Data *)

Section Types.

Context {F : FloatArith}.

Record Vector3f := Vec3 { vx : float; vy : float; vz : float }.

Definition vadd (a b : Vector3f) : Vector3f :=
  Vec3 (fadd (vx a) (vx b)) (fadd (vy a) (vy b)) (fadd (vz a) (vz b)).

(** Calls into the collaborators, in the order they are made. *)
Inductive Event :=
| ReadBegin (src : Source) (again : bool)   (* videoFile.readBegin(scene[, true]) *)
| ReadEnd (src : Source)                    (* videoFile.readEnd(scene) *)
| DestroyFrame                              (* scene.destroyFrame(scene.subframes) *)
| SoundtrackLoad
| SoundtrackPlay
| SoundtrackPause
| SoundtrackRestart
| SoundtrackUpdatePositionalTracking
| MenuStartFadeOut
| MenuUpdate
| MenuDraw (eye : Z)
| RecenterTrackingOrigin
| SceneRender (eye : Z) (displacement : float)
| SubmitFrame (frameIndex : Z).

(** *** State *)

(** [startTime] and [depressedKeys] are file-level statics; [pause],
    [started], [fade], [Yaw] and [Pos2] are statics local to [MainLoop].
    A static local is initialised when control first passes its
    declaration; the initialisers are constants and nothing reads the
    variable before that, so the record holds the initial value from the
    start. *)
Record Statics := {
  startTime : Z;
  depressedKeys : gset Z;
  pause : bool;
  started : bool;
  fade : Z;
  Yaw : float;
  Pos2 : Vector3f
}.

Definition kHeadboxFade : Z := 2.

Definition initialStatics : Statics := {|
  startTime := 0;
  depressedKeys := ∅;
  pause := true;
  started := false;
  fade := kHeadboxFade;
  Yaw := of_decimal 3141592 6;
  Pos2 := Vec3 (of_int 0) (of_int 0) (of_int 0)
|}.

(** Objects and automatic variables of one invocation of [MainLoop]. *)
Record Session := {
  menu : MenuScreen;
  renderBackground : bool;
  frameIndex : Z;
  result : Z;
  retryCreate : bool
}.

Record World := { statics : Statics; session : Session }.

Definition with_statics (f : Statics → Statics) (w : World) : World :=
  {| statics := f (statics w); session := session w |}.
Definition with_session (f : Session → Session) (w : World) : World :=
  {| statics := statics w; session := f (session w) |}.

Definition set_startTime (t : Z) (s : Statics) : Statics :=
  {| startTime := t; depressedKeys := depressedKeys s; pause := pause s;
     started := started s; fade := fade s; Yaw := Yaw s; Pos2 := Pos2 s |}.
Definition set_depressedKeys (d : gset Z) (s : Statics) : Statics :=
  {| startTime := startTime s; depressedKeys := d; pause := pause s;
     started := started s; fade := fade s; Yaw := Yaw s; Pos2 := Pos2 s |}.
Definition set_pause (b : bool) (s : Statics) : Statics :=
  {| startTime := startTime s; depressedKeys := depressedKeys s; pause := b;
     started := started s; fade := fade s; Yaw := Yaw s; Pos2 := Pos2 s |}.
Definition set_started (b : bool) (s : Statics) : Statics :=
  {| startTime := startTime s; depressedKeys := depressedKeys s; pause := pause s;
     started := b; fade := fade s; Yaw := Yaw s; Pos2 := Pos2 s |}.
Definition set_fade (n : Z) (s : Statics) : Statics :=
  {| startTime := startTime s; depressedKeys := depressedKeys s; pause := pause s;
     started := started s; fade := n; Yaw := Yaw s; Pos2 := Pos2 s |}.
Definition set_Yaw (y : float) (s : Statics) : Statics :=
  {| startTime := startTime s; depressedKeys := depressedKeys s; pause := pause s;
     started := started s; fade := fade s; Yaw := y; Pos2 := Pos2 s |}.
Definition set_Pos2 (p : Vector3f) (s : Statics) : Statics :=
  {| startTime := startTime s; depressedKeys := depressedKeys s; pause := pause s;
     started := started s; fade := fade s; Yaw := Yaw s; Pos2 := p |}.

Definition set_menu (m : MenuScreen) (s : Session) : Session :=
  {| menu := m; renderBackground := renderBackground s; frameIndex := frameIndex s;
     result := result s; retryCreate := retryCreate s |}.
Definition set_renderBackground (b : bool) (s : Session) : Session :=
  {| menu := menu s; renderBackground := b; frameIndex := frameIndex s;
     result := result s; retryCreate := retryCreate s |}.
Definition set_frameIndex (n : Z) (s : Session) : Session :=
  {| menu := menu s; renderBackground := renderBackground s; frameIndex := n;
     result := result s; retryCreate := retryCreate s |}.
Definition set_result (r : Z) (s : Session) : Session :=
  {| menu := menu s; renderBackground := renderBackground s; frameIndex := frameIndex s;
     result := r; retryCreate := retryCreate s |}.
Definition set_retryCreate (b : bool) (s : Session) : Session :=
  {| menu := menu s; renderBackground := renderBackground s; frameIndex := frameIndex s;
     result := result s; retryCreate := b |}.

(** *** Inputs of one iteration of the main loop *)

Record TickInput := {
  HandleMessages : bool;               (* Platform.HandleMessages() *)
  ShouldQuit : bool;                   (* sessionStatus *)
  IsVisible : bool;
  HmdMounted : bool;
  Key : Z → bool;                      (* Platform.Key *)
  nowResume : Z;                       (* getCurrentTime() when resuming *)
  nowSync : Z;                         (* getCurrentTime() when syncing *)
  getFront : Z;                        (* videoFile.getFront() *)
  audioElapsedMs : float;              (* soundtrack.getElapsedMs() *)
  audioIsPlaying : bool;               (* soundtrack.isPlaying() *)
  menuFadeDone : bool;                 (* the fade-out completes at this update *)
  eyePosition : Z → Vector3f;          (* EyeRenderPose[eye].Position *)
  submitResult : Z                     (* result of ovr_SubmitFrame *)
}.

(** *** Setup results and the outcome of [MainLoop] *)

Record SetupInput := {
  createResult : Z;                    (* ovr_Create *)
  initDeviceOk : bool;                 (* Platform.InitDevice *)
  eyeChainsOk : Z → bool;              (* both swap chains of an eye exist *)
  mirrorResult : Z                     (* ovr_CreateMirrorTextureGL *)
}.

Inductive Outcome :=
| Returned (retry : bool)              (* MainLoop returned *)
| Aborted                              (* VALIDATE or CHECK failed *)
| Running.                             (* still in the loop *)

(** A fresh session: what [MainLoop] declares before the main loop. *)
Definition newSession (cfg : Config) (retry : bool) (createRes : Z) : Session :=
  {| menu := MenuShown; renderBackground := renderBackground0 cfg;
     frameIndex := 0; result := createRes; retryCreate := retry |}.

(** *** Playback state of the specification *)

Inductive PlaybackState := MenuVisible | Paused | Playing.


End Types.

(** ** Sample configurations, states and inputs

    Concrete values on which the model is run further down. *)

(** A ten-frame video at 30 frames per second with a soundtrack, on a clock
    that counts nanoseconds. *)
Definition sampleConfig : Config := {|
  FLAGS_fps := 30; FLAGS_audio := true; FLAGS_background := None;
  numFrames := 10; ticksPerMs := 1000000; renderBackground0 := false
|}.

(** The same at 20 frames per second: a frame lasts 50 ms. *)
Definition sampleConfig20 : Config := {|
  FLAGS_fps := 20; FLAGS_audio := true; FLAGS_background := None;
  numFrames := 10; ticksPerMs := 1000000; renderBackground0 := false
|}.

(** A single-frame video with a background. *)
Definition singleFrameConfig : Config := {|
  FLAGS_fps := 30; FLAGS_audio := false; FLAGS_background := Some 1;
  numFrames := 1; ticksPerMs := 1000000; renderBackground0 := false
|}.

(** Every step of the setup succeeds. *)
Definition sampleSetup : SetupInput := {|
  createResult := 0; initDeviceOk := true; eyeChainsOk := λ _, true; mirrorResult := 0
|}.

Definition keysDown (keys : list Z) : Z → bool := λ c, bool_decide (c ∈ keys).

Definition origin {F : FloatArith} : Vector3f := Vec3 (of_int 0) (of_int 0) (of_int 0).

(** Stands for the SDK's rotation in the sample runs, none of which moves
    the viewer. *)
Definition noRotation {F : FloatArith} : float → Vector3f → Vector3f := λ _ v, v.

(** [Vector3f::Length] in binary32: the square root of the sum of the
    squares. *)
Definition Length32 (v : @Vector3f binary32) : spec_float :=
  SFsqrt Binary32.prec Binary32.emax
    (fadd (fadd (fmul (vx v) (vx v)) (fmul (vy v) (vy v))) (fmul (vz v) (vz v))).

(** Stands for [Vector3f::Length] in the runs on exact arithmetic, which
    render nothing. *)
Definition firstCoordinate (v : @Vector3f exact) : Qc := vx v.

(** An iteration of a visible session, headset mounted, submission
    succeeding, menu fade not completing: the keys in [keys] are down, the
    clock reads [now], the video is at frame [front], the soundtrack is
    playing or not and reports [audioMs]. *)
Definition sampleTick {F : FloatArith} (keys : list Z) (now front : Z)
    (audio : bool) (audioMs : float) (position : Vector3f) : TickInput := {|
  HandleMessages := true; ShouldQuit := false; IsVisible := true; HmdMounted := true;
  Key := keysDown keys; nowResume := now; nowSync := now; getFront := front;
  audioElapsedMs := audioMs; audioIsPlaying := audio; menuFadeDone := false;
  eyePosition := λ _, position; submitResult := 0
|}.

(** Nothing happens: no key, clock and video at 0, no sound. *)
Definition idleTick {F : FloatArith} : TickInput :=
  sampleTick [] 0 0 false (of_int 0) origin.

(** The same with the headset taken off. *)
Definition unmountedTick {F : FloatArith} (keys : list Z) : TickInput := {|
  HandleMessages := true; ShouldQuit := false; IsVisible := true; HmdMounted := false;
  Key := keysDown keys; nowResume := 0; nowSync := 0; getFront := 0;
  audioElapsedMs := of_int 0; audioIsPlaying := false; menuFadeDone := false;
  eyePosition := λ _, origin; submitResult := 0
|}.

(** The same with the menu fade completing. *)
Definition fadeDoneTick {F : FloatArith} : TickInput := {|
  HandleMessages := true; ShouldQuit := false; IsVisible := true; HmdMounted := true;
  Key := keysDown []; nowResume := 0; nowSync := 0; getFront := 0;
  audioElapsedMs := of_int 0; audioIsPlaying := false; menuFadeDone := true;
  eyePosition := λ _, origin; submitResult := 0
|}.

(** The session status says [ShouldQuit]. *)
Definition quitTick {F : FloatArith} : TickInput := {|
  HandleMessages := true; ShouldQuit := true; IsVisible := true; HmdMounted := true;
  Key := keysDown []; nowResume := 0; nowSync := 0; getFront := 0;
  audioElapsedMs := of_int 0; audioIsPlaying := false; menuFadeDone := false;
  eyePosition := λ _, origin; submitResult := 0
|}.

(** Frame submission fails with [code]. *)
Definition failingTick {F : FloatArith} (code : Z) : TickInput := {|
  HandleMessages := true; ShouldQuit := false; IsVisible := true; HmdMounted := true;
  Key := keysDown []; nowResume := 0; nowSync := 0; getFront := 0;
  audioElapsedMs := of_int 0; audioIsPlaying := false; menuFadeDone := false;
  eyePosition := λ _, origin; submitResult := code
|}.

(** Statics of a viewer that plays, or is paused after having played, from a
    clock origin at 0. *)
Definition playingStatics {F : FloatArith} : Statics := {|
  startTime := 0; depressedKeys := ∅; pause := false; started := true;
  fade := kHeadboxFade; Yaw := of_decimal 3141592 6; Pos2 := origin
|}.

Definition pausedStatics {F : FloatArith} : Statics := {|
  startTime := 0; depressedKeys := ∅; pause := true; started := true;
  fade := kHeadboxFade; Yaw := of_decimal 3141592 6; Pos2 := origin
|}.

(** A session whose menu is gone. *)
Definition sceneSession : Session := {|
  menu := MenuHidden; renderBackground := false; frameIndex := 0; result := 0;
  retryCreate := true
|}.

Definition playingWorld {F : FloatArith} : World :=
  {| statics := playingStatics; session := sceneSession |}.

Definition pausedWorld {F : FloatArith} : World :=
  {| statics := pausedStatics; session := sceneSession |}.

(** The first invocation of [MainLoop], past the setup. *)
Definition freshWorld {F : FloatArith} : World :=
  {| statics := initialStatics; session := newSession sampleConfig true 0 |}.

(** A swap chain created with success, of two textures. *)
Definition sampleChain (handle : Z) : SwapChainResult := {|
  chainResult := 0; chainHandle := handle; chainLength := 2;
  chainTexture := λ i, 10 * handle + i
|}.

(** A swap chain that could not be created. *)
Definition noChain : SwapChainResult := {|
  chainResult := -1; chainHandle := 0; chainLength := 0; chainTexture := λ _, 0
|}.

Definition sampleBuffer (eye : Z) : BufferResults := {|
  colorChain := sampleChain (2 * eye + 1); depthChain := sampleChain (2 * eye + 2);
  framebuffer := eye + 1
|}.

(** A headset for which the depth chain of the right eye cannot be created;
    everything else succeeds. *)
Definition noDepthDevice : DeviceResults := {|
  sessionHandle := 1; sessionResult := 0; Resolution := (2160, 1200); deviceOk := true;
  idealTextureSize := λ _, (1344, 1600);
  eyeBuffer := λ eye,
    if eye =? 1
    then {| colorChain := sampleChain 3; depthChain := noChain; framebuffer := 2 |}
    else sampleBuffer eye;
  mirrorTextureResult := 0; mirrorTexture := 7; mirrorTexId := 8; mirrorFBO := 9
|}.

(** The swap chains of the right eye cannot be created. *)
Definition noChainsSetup : SetupInput := {|
  createResult := 0; initDeviceOk := true; eyeChainsOk := λ eye, eye =? 0; mirrorResult := 0
|}.

(** ** The viewer *)

Section Viewer.

Context {F : FloatArith}.

Variable cfg : Config.


(** OVR SDK math (OVR_Math.h): [Matrix4f::RotationY(a).Transform(v)] and
    [Vector3f::Length]. *)
Variable RotationY_Transform : float → Vector3f → Vector3f.
Variable Length : Vector3f → float.

(** *** A state and event-log monad *)

Definition M (A : Type) : Type := World → A * World * list Event.

Definition ret {A} (a : A) : M A := λ w, (a, w, []).
Definition bind {A B} (m : M A) (k : A → M B) : M B :=
  λ w, let '(a, w1, e1) := m w in
       let '(b, w2, e2) := k a w1 in
       (b, w2, e1 ++ e2).
Definition emit (e : Event) : M unit := λ w, (tt, w, [e]).
Definition read {A} (f : Statics → A) : M A := λ w, (f (statics w), w, []).
Definition readSession {A} (f : Session → A) : M A := λ w, (f (session w), w, []).
Definition write (f : Statics → Statics) : M unit := λ w, (tt, with_statics f w, []).
Definition writeSession (f : Session → Session) : M unit := λ w, (tt, with_session f w, []).

Notation "x <- m ;; k" := (bind m (λ x, k))
  (at level 100, m at next level, right associativity).
Notation "m ;;; k" := (bind m (λ _, k))
  (at level 100, right associativity).

(** Runs [body] for each element, in order (a range-for). *)
Fixpoint forEach {A} (body : A → M unit) (l : list A) : M unit :=
  match l with
  | [] => ret tt
  | x :: rest => body x ;;; forEach body rest
  end.

(** *** Playback clock *)

Definition getVideoTimeMs (front : Z) : float :=
  fmul (of_int front) (fdiv (of_int 1000) (of_int (FLAGS_fps cfg))).

(** [duration<float, milli>(now - start).count()] *)
Definition elapsedMs (now start : Z) : float :=
  fdiv (of_int (now - start)) (of_int (ticksPerMs cfg)).

(** [now - std::chrono::milliseconds((int)ms)] *)
Definition resumeOrigin (now : Z) (ms : float) : Z :=
  now - to_int ms * ticksPerMs cfg.

(** *** Key dispatch: the [switch] of the main loop *)

Definition move (dx dz : float) : M unit :=
  yaw <- read Yaw ;;
  pos <- read Pos2 ;;
  write (set_Pos2 (vadd pos (RotationY_Transform yaw (Vec3 dx (of_int 0) dz)))).

Definition togglePause (i : TickInput) : M unit :=
  p <- read pause ;;
  if p then
    s <- read started ;;
    if negb s then
      write (set_started true) ;;;
      emit MenuStartFadeOut ;;;
      writeSession (λ s, set_menu (startFadeOut (menu s)) s)
    else
      write (set_pause false) ;;;
      write (set_startTime (resumeOrigin (nowResume i) (getVideoTimeMs (getFront i)))) ;;;
      emit SoundtrackPlay
  else
    write (set_pause true) ;;;
    emit SoundtrackPause.

Definition handleKey (i : TickInput) (key : Z) : M unit :=
  if key =? VK_LEFT then
    yaw <- read Yaw ;; write (set_Yaw (fadd yaw (of_decimal 2 2)))
  else if key =? VK_RIGHT then
    yaw <- read Yaw ;; write (set_Yaw (fsub yaw (of_decimal 2 2)))
  else if (key =? chr "W") || (key =? VK_UP) then
    move (of_int 0) (of_decimal (-5) 2)
  else if (key =? chr "S") || (key =? VK_DOWN) then
    move (of_int 0) (of_decimal 5 2)
  else if key =? chr "D" then
    move (of_decimal 5 2) (of_int 0)
  else if key =? chr "A" then
    move (of_decimal (-5) 2) (of_int 0)
  else if key =? chr "C" then
    emit RecenterTrackingOrigin
  else if key =? chr " " then
    togglePause i
  else if key =? chr "H" then
    f <- read fade ;; write (set_fade (if f =? 0 then kHeadboxFade else 0))
  else if key =? chr "B" then
    writeSession (λ s, set_renderBackground (negb (renderBackground s)) s)
  else
    ret tt.

Definition processKeys (i : TickInput) : M unit :=
  d <- read depressedKeys ;;
  let '(d', activeKeys) := getAndUpdateActiveKeys (Key i) d in
  write (set_depressedKeys d') ;;;
  forEach (handleKey i) activeKeys.

Definition checkMounted (i : TickInput) : M unit :=
  if negb (HmdMounted i) then
    write (set_pause true) ;;;
    emit SoundtrackPause
  else ret tt.

(** [menu.exitMenuCallback] *)
Definition exitMenuCallback : M unit :=
  emit RecenterTrackingOrigin ;;;
  write (set_pause false).

(** [menu.update()] *)
Definition updateMenu (i : TickInput) : M unit :=
  emit MenuUpdate ;;;
  m <- readSession menu ;;
  let '(m', exits) := menuUpdate (menuFadeDone i) m in
  writeSession (set_menu m') ;;;
  if exits then exitMenuCallback else ret tt.

(** *** Drift decision: "Sync audio and video" *)

Definition kMaxVideoLag : float := of_int 90.
Definition kMaxAudioLag : float := of_int 5.

(** Returns [delayNextFrame]. *)
Definition syncAudioVideo (i : TickInput) : M bool :=
  m <- readSession menu ;;
  p <- read pause ;;
  if isHidden m && negb p then
    if getFront i =? 0 then
      write (set_startTime (nowSync i)) ;;;
      emit SoundtrackRestart ;;;
      ret false
    else
      let audioTimeMs := audioElapsedMs i in
      start <- read startTime ;;
      let elapsedTimeMs := elapsedMs (nowSync i) start in
      let useAudioTimeAsReference := audioIsPlaying i in
      let referenceTimeMs :=
        if useAudioTimeAsReference then audioTimeMs else elapsedTimeMs in
      let videoTimeMs := getVideoTimeMs (getFront i) in
      if fgt videoTimeMs (fadd referenceTimeMs kMaxAudioLag) then
        if negb (audioIsPlaying i) || fneq audioTimeMs (of_int 0)
        then ret true
        else ret false
      else if fgt referenceTimeMs (fadd videoTimeMs kMaxVideoLag) then
        ret false
      else
        ret false
  else ret false.

(** *** Frame advance *)

Definition advanceFrame (delayNextFrame : bool) : M unit :=
  p <- read pause ;;
  if negb delayNextFrame && negb p && (1 <? numFrames cfg) then
    emit DestroyFrame ;;;
    emit (ReadEnd Video) ;;;
    emit (ReadBegin Video true)
  else ret tt.

(** *** Rendering *)

Definition renderEye (i : TickInput) (eye : Z) : M unit :=
  m <- readSession menu ;;
  if isHidden m then
    f <- read fade ;;
    let displacement := fmul (of_int f) (Length (eyePosition i 0)) in
    emit (SceneRender eye displacement)
  else
    emit (MenuDraw eye).

(** *** One iteration with a visible session

    The result says whether frame submission failed ([goto Done]). *)
Definition visibleTick (i : TickInput) : M bool :=
  processKeys i ;;;
  checkMounted i ;;;
  updateMenu i ;;;
  emit SoundtrackUpdatePositionalTracking ;;;
  delayNextFrame <- syncAudioVideo i ;;
  advanceFrame delayNextFrame ;;;
  forEach (renderEye i) [0; 1] ;;;
  n <- readSession frameIndex ;;
  emit (SubmitFrame n) ;;;
  writeSession (set_result (submitResult i)) ;;;
  if negb (OVR_SUCCESS (submitResult i)) then ret true
  else writeSession (set_frameIndex (n + 1)) ;;; ret false.

(** *** The main loop

    [Some tt] when the loop was left (control is at [Done]); [None] when
    the inputs are used up and the loop is still running. *)
Fixpoint mainLoopTicks (ticks : list TickInput) : M (option unit) :=
  match ticks with
  | [] => ret None
  | i :: rest =>
      if negb (HandleMessages i) then ret (Some tt)
      else if ShouldQuit i then
        writeSession (set_retryCreate false) ;;; ret (Some tt)
      else if IsVisible i then
        failed <- visibleTick i ;;
        if failed then ret (Some tt) else mainLoopTicks rest
      else mainLoopTicks rest
  end.

(** *** Setup and [MainLoop] *)

(** The block between [ovr_SetTrackingOriginType] and the main loop. *)
Definition loadBackground : M bool :=
  match FLAGS_background cfg with
  | Some n =>
      if n =? 1 then
        emit (ReadBegin Background false) ;;;
        emit (ReadEnd Background) ;;;
        ret true
      else ret false
  | None => ret true
  end.

Definition beginVideo : M unit :=
  if numFrames cfg =? 1 then
    emit (ReadBegin Video false) ;;;
    emit (ReadEnd Video)
  else
    forEach (λ _ : Z, emit (ReadBegin Video false)) [0; 1; 2].

Definition loadSoundtrack : M unit :=
  if FLAGS_audio cfg then emit SoundtrackLoad else ret tt.

(** [Done:] the value returned. *)
Definition done : M Outcome :=
  r <- readSession retryCreate ;;
  res <- readSession result ;;
  ret (Returned (r || (res =? ovrError_DisplayLost))).

Definition mainLoopBody (setup : SetupInput) (ticks : list TickInput) : M Outcome :=
  r <- readSession retryCreate ;;
  if negb (initDeviceOk setup) then done
  else if negb (eyeChainsOk setup 0) then (if r then done else ret Aborted)
  else if negb (eyeChainsOk setup 1) then (if r then done else ret Aborted)
  else
    writeSession (set_result (mirrorResult setup)) ;;;
    if negb (OVR_SUCCESS (mirrorResult setup)) then (if r then done else ret Aborted)
    else
      ok <- loadBackground ;;
      if negb ok then ret Aborted
      else
        beginVideo ;;;
        loadSoundtrack ;;;
        left <- mainLoopTicks ticks ;;
        match left with
        | Some _ => done
        | None => ret Running
        end.

Definition MainLoop (retry : bool) (setup : SetupInput) (ticks : list TickInput)
    (st : Statics) : Outcome * Statics * list Event :=
  if negb (OVR_SUCCESS (createResult setup)) then (Returned retry, st, [])
  else
    let '(out, w, evs) :=
      mainLoopBody setup ticks
        {| statics := st; session := newSession cfg retry (createResult setup) |} in
    (out, statics w, evs).

(** *** Observations on one iteration *)

Definition worldOf {A} (r : A * World * list Event) : World := snd (fst r).
Definition eventsOf {A} (r : A * World * list Event) : list Event := snd r.
Definition valueOf {A} (r : A * World * list Event) : A := fst (fst r).

(** The state in which "Sync audio and video" starts: after the keys,
    the mounted check and [menu.update()]. *)
Definition stateBeforeSync (i : TickInput) (w : World) : World :=
  worldOf ((processKeys i ;;; checkMounted i ;;; updateMenu i) w).

(** [referenceTimeMs] of the drift decision. *)
Definition referenceTimeMs (i : TickInput) (w : World) : float :=
  if audioIsPlaying i then audioElapsedMs i
  else elapsedMs (nowSync i) (startTime (statics w)).

(** [delayNextFrame] of the iteration. *)
Definition delayNextFrame (i : TickInput) (w : World) : bool :=
  valueOf (syncAudioVideo i (stateBeforeSync i w)).

Definition tickEvents (i : TickInput) (w : World) : list Event :=
  eventsOf (visibleTick i w).

Definition afterTick (i : TickInput) (w : World) : World :=
  worldOf (visibleTick i w).

(** The key [c] is among the active keys of the iteration. *)
Definition keyActive (i : TickInput) (w : World) (c : Z) : bool :=
  fires (Key i) (depressedKeys (statics w)) c.

(** [menu.update()] of the iteration invokes the exit callback. *)
Definition menuExits (i : TickInput) (w : World) : bool :=
  snd (menuUpdate (menuFadeDone i)
         (menu (session (worldOf ((processKeys i ;;; checkMounted i) w))))).

(** Events of the frame pipeline: retiring a frame and the loads. *)
Definition isFrameEvent (e : Event) : bool :=
  match e with
  | DestroyFrame | ReadEnd Video | ReadBegin Video _ => true
  | _ => false
  end.

Definition frameEvents (evs : list Event) : list Event := List.filter isFrameEvent evs.

Definition isSceneRender (e : Event) : bool :=
  match e with SceneRender _ _ => true | _ => false end.

Definition isSubmit (e : Event) : bool :=
  match e with SubmitFrame _ => true | _ => false end.

(** What one advance of the video emits. *)
Definition advanceEvents : list Event :=
  [DestroyFrame; ReadEnd Video; ReadBegin Video true].

(** Load requests of the video begun and not yet ended. *)
Fixpoint inFlight (evs : list Event) : Z :=
  match evs with
  | [] => 0
  | ReadBegin Video _ :: rest => inFlight rest + 1
  | ReadEnd Video :: rest => inFlight rest - 1
  | _ :: rest => inFlight rest
  end.

Definition isVideoLoad (e : Event) : bool :=
  match e with
  | ReadBegin Video _ | ReadEnd Video => true
  | _ => false
  end.

(** At no point of the trace [evs] are more than [depth] loads in flight. *)
Definition windowWithin (depth : Z) (evs : list Event) : Prop :=
  ∀ p, p `prefix_of` evs → inFlight p ≤ depth.

(** A stretch of the trace that never raises the number of loads in flight
    and leaves it as it found it. *)
Definition balanced (evs : list Event) : Prop :=
  windowWithin 0 evs ∧ inFlight evs = 0.

(** The readahead depth the viewer configures. *)
Definition readaheadDepth : Z := if numFrames cfg =? 1 then 1 else 3.

(** The setup reaches the main loop. *)
Definition reachesLoop (setup : SetupInput) : bool :=
  OVR_SUCCESS (createResult setup) && initDeviceOk setup &&
  eyeChainsOk setup 0 && eyeChainsOk setup 1 &&
  OVR_SUCCESS (mirrorResult setup) &&
  match FLAGS_background cfg with Some n => n =? 1 | None => true end.

(** *** Playback state of the specification

    The menu is drawn instead of the scene exactly while it is not
    hidden; with the scene on display, [pause] tells Paused from
    Playing. *)
Definition playbackState (w : World) : PlaybackState :=
  if isHidden (menu (session w)) then
    if pause (statics w) then Paused else Playing
  else MenuVisible.

(** The state in which the main loop is entered, and what the setup has
    asked of the collaborators by then. *)
Definition loopEntry (retry : bool) (setup : SetupInput) (st : Statics) : World :=
  {| statics := st;
     session := set_result (mirrorResult setup) (newSession cfg retry (createResult setup)) |}.

Definition setupEvents : list Event :=
  match FLAGS_background cfg with
  | Some _ => [ReadBegin Background false; ReadEnd Background]
  | None => []
  end ++
  (if numFrames cfg =? 1 then [ReadBegin Video false; ReadEnd Video]
   else [ReadBegin Video false; ReadBegin Video false; ReadBegin Video false]) ++
  (if FLAGS_audio cfg then [SoundtrackLoad] else []).

(** *** Playback flags

    What the pause toggle reads and writes: [pause], [started],
    [startTime] and the menu. *)
Definition playback (w : World) : bool * bool * Z * MenuScreen :=
  (pause (statics w), started (statics w), startTime (statics w), menu (session w)).

(** The [case ' '] of the switch, as a function on these four. *)
Definition togglePlayback (i : TickInput) (x : bool * bool * Z * MenuScreen)
    : bool * bool * Z * MenuScreen :=
  let '(p, s, t, m) := x in
  if p then
    if negb s then (p, true, t, startFadeOut m)
    else (false, s, resumeOrigin (nowResume i) (getVideoTimeMs (getFront i)), m)
  else (true, s, t, m).

Definition toggleEvents (x : bool * bool * Z * MenuScreen) : list Event :=
  let '(p, s, t, m) := x in
  if p then (if negb s then [MenuStartFadeOut] else [SoundtrackPlay])
  else [SoundtrackPause].

Definition isPlaybackEvent (e : Event) : bool :=
  match e with
  | SoundtrackPlay | SoundtrackPause | MenuStartFadeOut => true
  | _ => false
  end.

(** Events a key can cause. *)
Definition isKeyEvent (e : Event) : bool :=
  match e with
  | SoundtrackPlay | SoundtrackPause | MenuStartFadeOut | RecenterTrackingOrigin => true
  | _ => false
  end.

(** *** Re-entry

    [Platform.Run] of the OVR SDK sample framework calls [MainLoop(true)]
    again for as long as it returns true; each invocation has its own
    setup results and inputs. *)
Fixpoint Run (sessions : list (SetupInput * list TickInput)) (st : Statics)
    : Outcome * Statics * list Event :=
  match sessions with
  | [] => (Running, st, [])
  | (setup, ticks) :: rest =>
      let '(out, st', evs) := MainLoop true setup ticks st in
      match out with
      | Returned true =>
          let '(out', st'', evs') := Run rest st' in (out', st'', evs ++ evs')
      | _ => (out, st', evs)
      end
  end.

(** *** Navigation

    [Yaw] and [Pos2], and what one [case] of the switch does to them. *)
Definition pose (w : World) : float * Vector3f := (Yaw (statics w), Pos2 (statics w)).

Definition navigate (key : Z) (x : float * Vector3f) : float * Vector3f :=
  let '(yaw, pos) := x in
  if key =? VK_LEFT then (fadd yaw (of_decimal 2 2), pos)
  else if key =? VK_RIGHT then (fsub yaw (of_decimal 2 2), pos)
  else if (key =? chr "W") || (key =? VK_UP) then
    (yaw, vadd pos (RotationY_Transform yaw (Vec3 (of_int 0) (of_int 0) (of_decimal (-5) 2))))
  else if (key =? chr "S") || (key =? VK_DOWN) then
    (yaw, vadd pos (RotationY_Transform yaw (Vec3 (of_int 0) (of_int 0) (of_decimal 5 2))))
  else if key =? chr "D" then
    (yaw, vadd pos (RotationY_Transform yaw (Vec3 (of_decimal 5 2) (of_int 0) (of_int 0))))
  else if key =? chr "A" then
    (yaw, vadd pos (RotationY_Transform yaw (Vec3 (of_decimal (-5) 2) (of_int 0) (of_int 0))))
  else x.

(** [Pos2] after a move by ([dx], 0, [dz]) along the heading [yaw], if the
    key is down. *)
Definition moved (down : bool) (yaw dx dz : float) (pos : Vector3f) : Vector3f :=
  if down then vadd pos (RotationY_Transform yaw (Vec3 dx (of_int 0) dz)) else pos.

(** [f] applied if [b] holds. *)
Definition applyIf {X} (b : bool) (f : X → X) (x : X) : X := if b then f x else x.

Definition isStartFadeOut (e : Event) : bool :=
  match e with MenuStartFadeOut => true | _ => false end.

(** What holds of the statics from the start of the program on. *)
Definition staticsInvariant (st : Statics) : Prop :=
  (fade st = kHeadboxFade ∨ fade st = 0) ∧
  depressedKeys st ⊆ list_to_set keysOfInterest.

(** At no point of the trace [evs] are fewer than [d] loads in flight,
    counted from the start of the trace. *)
Definition neverBelow (d : Z) (evs : list Event) : Prop :=
  ∀ p, p `prefix_of` evs → d ≤ inFlight p.

(** How far one iteration lets the number of loads in flight dip. *)
Definition loopDip : Z := if 1 <? numFrames cfg then -1 else 0.

(** *** Keys without a handler

    The keys with a [case] in the switch of the main loop: the keys of
    interest but M. *)
Definition handledKeys : list Z :=
  [chr " "; VK_LEFT; VK_UP; VK_RIGHT; VK_DOWN; chr "A"; chr "B"; chr "C";
   chr "D"; chr "H"; chr "S"; chr "W"].

(** The inputs [i] with the raw key states [K]. *)
Definition withKeys (K : Z → bool) (i : TickInput) : TickInput := {|
  HandleMessages := HandleMessages i; ShouldQuit := ShouldQuit i; IsVisible := IsVisible i;
  HmdMounted := HmdMounted i; Key := K; nowResume := nowResume i; nowSync := nowSync i;
  getFront := getFront i; audioElapsedMs := audioElapsedMs i;
  audioIsPlaying := audioIsPlaying i; menuFadeDone := menuFadeDone i;
  eyePosition := eyePosition i; submitResult := submitResult i
|}.

(** Two sets of raw key states that agree on the handled keys. *)
Definition sameHandled (K K' : Z → bool) : Prop := ∀ c, c ∈ handledKeys → K c = K' c.

(** Statics that differ at most in [depressedKeys], and there at most in
    keys without a handler. *)
Definition sameButKeys (st st' : Statics) : Prop :=
  set_depressedKeys ∅ st = set_depressedKeys ∅ st' ∧
  ∀ c, c ∈ handledKeys → c ∈ depressedKeys st ↔ c ∈ depressedKeys st'.

Definition sameWorld (w w' : World) : Prop :=
  session w = session w' ∧ sameButKeys (statics w) (statics w').

(** Two computations that, from worlds that are the same in this sense,
    yield the same value and the same events, and worlds that are again the
    same. *)
Definition agree {A} (m m' : M A) : Prop :=
  ∀ w w', sameWorld w w' →
    valueOf (m w) = valueOf (m' w') ∧
    eventsOf (m w) = eventsOf (m' w') ∧
    sameWorld (worldOf (m w)) (worldOf (m' w')).

(** *** The setup, from what the SDK hands out

    The results of the setup as [MainLoop] reads them off [DeviceResults],
    and whether a check inside the scene block fails. *)
Definition setupOf (r : DeviceResults) : SetupInput := {|
  createResult := sessionResult r;
  initDeviceOk := deviceOk r;
  eyeChainsOk := λ eye,
    negb ((chainHandle (colorChain (eyeBuffer r eye)) =? 0) ||
          (chainHandle (depthChain (eyeBuffer r eye)) =? 0));
  mirrorResult := mirrorTextureResult r
|}.

Definition sceneChecksFail : bool :=
  match FLAGS_background cfg with Some n => negb (n =? 1) | None => false end.

(** Whether the setup aborts the program. *)
Definition aborts (retry : bool) (setup : SetupInput) : bool :=
  OVR_SUCCESS (createResult setup) && initDeviceOk setup &&
  (if negb (eyeChainsOk setup 0) then negb retry
   else if negb (eyeChainsOk setup 1) then negb retry
   else if negb (OVR_SUCCESS (mirrorResult setup)) then negb retry
   else sceneChecksFail).

(** * Properties *)

(** ** The key poller *)

Lemma keysOfInterest_set :
(list_to_set keysOfInterest : gset Z) = list_to_set keysOfInterest_init.
Proof. apply set_eq. intros x. rewrite !elem_of_list_to_set. unfold keysOfInterest, keysOfInterest_init.
 rewrite !elem_of_cons. rewrite !elem_of_nil. tauto. Qed.

Lemma keysOfInterest_NoDup : NoDup keysOfInterest.
Proof. exact (bool_decide_unpack (NoDup keysOfInterest) I). Qed.

Lemma keysOfInterest_sorted : StronglySorted Z.lt keysOfInterest.
Proof. unfold keysOfInterest. repeat constructor. Qed.

Lemma keyStep_fires Key d a c :
keyStep Key (d, a) c =
  if fires Key d c then ({[c]} ∪ d, a ++ [c])
  else if Key c then (d, a) else (d ∖ {[c]}, a).
Proof.
unfold keyStep, fires.
destruct (Key c), (bool_decide (c ∉ d) || bool_decide (c ∉ keysActiveOnlyOnKeyPress)); done.
Qed.

Lemma foldl_keyStep Key l : ∀ d a,
NoDup l →
snd (foldl (keyStep Key) (d, a) l) = a ++ List.filter (fires Key d) l ∧
∀ c, c ∈ fst (foldl (keyStep Key) (d, a) l) ↔
     ((c ∈ l ∧ Key c = true) ∨ (c ∉ l ∧ c ∈ d)).
Proof.
induction l as [|c0 l IH]; intros d a Hnd.
- simpl. split; [by rewrite app_nil_r|]. intros c. set_solver.
- apply NoDup_cons in Hnd as [Hc0 Hnd]. cbn [foldl List.filter].
  assert (Hext : ∀ d1, (∀ c, c ≠ c0 → c ∈ d1 ↔ c ∈ d) →
            List.filter (fires Key d1) l = List.filter (fires Key d) l).
  { intros d1 Hd1. apply List.filter_ext_in. intros c Hc%list_elem_of_In.
    unfold fires. assert (c ≠ c0) as Hne by (intros ->; done).
    specialize (Hd1 c Hne).
    f_equal. f_equal. apply bool_decide_ext. tauto. }
  rewrite keyStep_fires.
  destruct (fires Key d c0) eqn:Hf.
  + destruct (IH ({[c0]} ∪ d) (a ++ [c0]) Hnd) as [-> IH2].
    apply andb_true_iff in Hf as [Hk Hf]. split.
    * rewrite <- app_assoc. simpl. f_equal. f_equal. apply Hext. set_solver.
    * intros c. rewrite IH2. destruct (decide (c = c0)) as [->|]; set_solver.
  + destruct (Key c0) eqn:Hk.
    * destruct (IH d a Hnd) as [-> IH2]. split; [done|].
      intros c. rewrite IH2. unfold fires in Hf. rewrite Hk in Hf. simpl in Hf.
      apply orb_false_iff in Hf as [Hf _]. apply bool_decide_eq_false in Hf.
      apply dec_stable in Hf.
      destruct (decide (c = c0)) as [->|]; set_solver.
    * destruct (IH (d ∖ {[c0]}) a Hnd) as [-> IH2]. split.
      -- f_equal. apply Hext. set_solver.
      -- intros c. rewrite IH2. destruct (decide (c = c0)) as [->|]; [|set_solver].
         split; [intros [[? ?]|[? ?]]; set_solver | intros [[? ?]|[? ?]]; [congruence | set_solver]].
Qed.

Lemma getAndUpdateActiveKeys_spec Key d :
snd (getAndUpdateActiveKeys Key d) = List.filter (fires Key d) keysOfInterest ∧
∀ c, c ∈ fst (getAndUpdateActiveKeys Key d) ↔
     ((c ∈ keysOfInterest ∧ Key c = true) ∨ (c ∉ keysOfInterest ∧ c ∈ d)).
Proof. apply (foldl_keyStep Key keysOfInterest d []), keysOfInterest_NoDup. Qed.

Lemma activeKeys_iff Key d c :
c ∈ snd (getAndUpdateActiveKeys Key d) ↔ (c ∈ keysOfInterest ∧ fires Key d c = true).
Proof.
rewrite (proj1 (getAndUpdateActiveKeys_spec Key d)).
rewrite list_elem_of_In, List.filter_In, <- list_elem_of_In. done.
Qed.

Lemma activeKeys_NoDup Key d : NoDup (snd (getAndUpdateActiveKeys Key d)).
Proof.
rewrite (proj1 (getAndUpdateActiveKeys_spec Key d)).
apply NoDup_ListNoDup, List.NoDup_filter, NoDup_ListNoDup, keysOfInterest_NoDup.
Qed.

Lemma depressed_iff Key d c :
c ∈ keysOfInterest →
c ∈ fst (getAndUpdateActiveKeys Key d) ↔ Key c = true.
Proof.
intros Hc. rewrite (proj2 (getAndUpdateActiveKeys_spec Key d)). tauto.
Qed.

#[local] Arguments getAndUpdateActiveKeys : simpl never.

Lemma pollKeys_lookup raw : ∀ d t,
pollKeys raw d !! t =
  (λ Key, snd (getAndUpdateActiveKeys Key (pollKeysState (take t raw) d))) <$> raw !! t.
Proof.
induction raw as [|Key raw IH]; intros d t; [done|].
cbn [pollKeys]. destruct (getAndUpdateActiveKeys Key d) as [d' act] eqn:E.
destruct t as [|t]; cbn.
- by rewrite E.
- rewrite IH. by rewrite E.
Qed.

Lemma pollKeysState_snoc raw : ∀ d Key,
pollKeysState (raw ++ [Key]) d = fst (getAndUpdateActiveKeys Key (pollKeysState raw d)).
Proof. induction raw as [|K raw IH]; intros d Key; cbn; [done|]. by rewrite IH. Qed.

Lemma depressed_before raw t c d :
c ∈ keysOfInterest →
c ∈ pollKeysState (take t raw) d ↔
  match t with
  | O => c ∈ d
  | S t' => if decide (t' < length raw)%nat then heldAt raw t' c = true
            else c ∈ pollKeysState raw d
  end.
Proof.
intros Hc. destruct t as [|t]; [by rewrite take_0|].
case_decide as Hlt.
- destruct (lookup_lt_is_Some_2 raw t Hlt) as [Key HKey].
  rewrite (take_S_r _ _ _ HKey), pollKeysState_snoc, depressed_iff by done.
  unfold heldAt. by rewrite HKey.
- rewrite take_ge by lia. done.
Qed.

Lemma activeAt_fires raw t c :
c ∈ activeAt raw t ↔
  ∃ Key, raw !! t = Some Key ∧ c ∈ keysOfInterest ∧
         fires Key (pollKeysState (take t raw) ∅) c = true.
Proof.
unfold activeAt. rewrite pollKeys_lookup.
destruct (raw !! t) as [Key|]; cbn.
- rewrite activeKeys_iff. naive_solver.
- rewrite elem_of_nil. naive_solver.
Qed.

Lemma activeAt_edge raw t c :
c ∈ keysOfInterest → c ∈ keysActiveOnlyOnKeyPress →
c ∈ activeAt raw t ↔ risingAt raw t c = true.
Proof.
intros Hc He. rewrite activeAt_fires. unfold risingAt, heldAt at 1, fires.
destruct (raw !! t) as [Key|] eqn:HK; [|naive_solver].
pose proof (depressed_before raw t c ∅ Hc) as Hd.
rewrite (bool_decide_eq_false_2 (c ∉ keysActiveOnlyOnKeyPress)) by tauto.
rewrite orb_false_r.
destruct t as [|t].
- rewrite (bool_decide_eq_true_2 (c ∉ pollKeysState (take 0 raw) ∅)) by set_solver.
  naive_solver.
- apply lookup_lt_Some in HK. rewrite decide_True in Hd by lia.
  destruct (heldAt raw t c) eqn:Hh.
  + rewrite (bool_decide_eq_false_2 (c ∉ _)) by tauto.
    split; [intros (K & [= <-] & _ & H) | intros H];
      destruct (Key c); simpl in *; done.
  + rewrite (bool_decide_eq_true_2 (c ∉ _)) by (rewrite Hd; congruence).
    split; [intros (K & [= <-] & _ & H) | intros H];
      destruct (Key c) eqn:HKc; simpl in *; try done.
    exists Key. by rewrite HKc.
Qed.

Lemma activeAt_level raw t c :
c ∈ keysOfInterest → c ∉ keysActiveOnlyOnKeyPress →
c ∈ activeAt raw t ↔ heldAt raw t c = true.
Proof.
intros Hc He. rewrite activeAt_fires. unfold heldAt, fires.
rewrite (bool_decide_eq_true_2 (c ∉ keysActiveOnlyOnKeyPress)) by done.
destruct (raw !! t) as [Key|]; [|naive_solver].
split.
- intros (K & [= <-] & _ & H). by rewrite orb_true_r, andb_true_r in H.
- intros H. exists Key. by rewrite orb_true_r, andb_true_r.
Qed.

Lemma activeAt_NoDup raw t : NoDup (activeAt raw t).
Proof.
unfold activeAt. rewrite pollKeys_lookup.
destruct (raw !! t) as [Key|]; cbn; [apply activeKeys_NoDup | constructor].
Qed.

(** C6.  Over any history of raw key states, polled from an empty
    [depressedKeys]: at each poll an edge-triggered key (SPACE, C, H, B, M)
    is reported active exactly when it is down and was up at the previous
    poll (or there was none), so once per press and not again before a
    release; a level-triggered key (arrows, W, A, S, D) is reported active
    exactly when it is down; no key is reported twice by one poll. *)
Theorem keys_edge_once_level_every_tick (raw : list (Z → bool)) (t : nat) :
Forall (λ c, c ∈ activeAt raw t ↔ risingAt raw t c = true) edgeTriggeredKeys ∧
Forall (λ c, c ∈ activeAt raw t ↔ heldAt raw t c = true) levelTriggeredKeys ∧
NoDup (activeAt raw t).
Proof.
split; [|split; [|apply activeAt_NoDup]].
- unfold edgeTriggeredKeys.
  repeat (apply Forall_cons; split; [apply activeAt_edge; [set_solver | set_solver] |]).
  constructor.
- unfold levelTriggeredKeys.
  repeat (apply Forall_cons; split;
    [apply activeAt_level; [set_solver | vm_compute; set_solver] |]).
  constructor.
Qed.

(** ** The main loop *)

Lemma worldOf_bind {A B} (m : M A) (k : A → M B) w :
  worldOf (bind m k w) = worldOf (k (valueOf (m w)) (worldOf (m w))).
Proof.
  unfold bind, worldOf, valueOf. destruct (m w) as [[a w1] e1]. cbn.
  by destruct (k a w1) as [[b w2] e2].
Qed.

Lemma eventsOf_bind {A B} (m : M A) (k : A → M B) w :
  eventsOf (bind m k w) =
    eventsOf (m w) ++ eventsOf (k (valueOf (m w)) (worldOf (m w))).
Proof.
  unfold bind, worldOf, valueOf, eventsOf. destruct (m w) as [[a w1] e1]. cbn.
  by destruct (k a w1) as [[b w2] e2].
Qed.

Lemma valueOf_bind {A B} (m : M A) (k : A → M B) w :
  valueOf (bind m k w) = valueOf (k (valueOf (m w)) (worldOf (m w))).
Proof.
  unfold bind, worldOf, valueOf. destruct (m w) as [[a w1] e1]. cbn.
  by destruct (k a w1) as [[b w2] e2].
Qed.

(** *** Keys phase *)

Lemma worldOf_mk {A} (a : A) w e : worldOf (a, w, e) = w.
Proof. reflexivity. Qed.

Lemma eventsOf_mk {A} (a : A) w e : eventsOf (a, w, e) = e.
Proof. reflexivity. Qed.

Lemma valueOf_mk {A} (a : A) w e : valueOf (a, w, e) = a.
Proof. reflexivity. Qed.

Lemma emit_run e w : emit e w = (tt, w, [e]).
Proof. reflexivity. Qed.

Lemma ret_run {A} (a : A) w : ret a w = (a, w, []).
Proof. reflexivity. Qed.

Lemma read_run {A} (f : Statics → A) w : read f w = (f (statics w), w, []).
Proof. reflexivity. Qed.

Lemma readSession_run {A} (f : Session → A) w : readSession f w = (f (session w), w, []).
Proof. reflexivity. Qed.

Lemma write_run f w : write f w = (tt, with_statics f w, []).
Proof. reflexivity. Qed.

Lemma writeSession_run f w : writeSession f w = (tt, with_session f w, []).
Proof. reflexivity. Qed.

Ltac run_simpl :=
  repeat first
    [ rewrite worldOf_bind | rewrite eventsOf_bind | rewrite valueOf_bind
    | rewrite emit_run | rewrite ret_run | rewrite read_run | rewrite readSession_run
    | rewrite write_run | rewrite writeSession_run
    | rewrite worldOf_mk | rewrite eventsOf_mk | rewrite valueOf_mk ].

Lemma worldOf_forEach_nil {A} (body : A → M unit) w : worldOf (forEach body [] w) = w.
Proof. reflexivity. Qed.

Lemma worldOf_forEach_cons {A} (body : A → M unit) x l w :
  worldOf (forEach body (x :: l) w) = worldOf (forEach body l (worldOf (body x w))).
Proof. cbn [forEach]. by rewrite worldOf_bind. Qed.

Lemma eventsOf_forEach_cons {A} (body : A → M unit) x l w :
  eventsOf (forEach body (x :: l) w) =
    eventsOf (body x w) ++ eventsOf (forEach body l (worldOf (body x w))).
Proof. cbn [forEach]. by rewrite eventsOf_bind. Qed.

Lemma forEach_proj {A X} `{EqDecision A} (body : A → M unit) (π : World → X)
    (k : A) (g : X → X) :
  (∀ x w, x ≠ k → π (worldOf (body x w)) = π w) →
  (∀ w, π (worldOf (body k w)) = g (π w)) →
  ∀ l w, NoDup l →
    π (worldOf (forEach body l w)) = if bool_decide (k ∈ l) then g (π w) else π w.
Proof.
  intros Hother Hk. induction l as [|x l IH]; intros w Hnd.
  - rewrite worldOf_forEach_nil. by rewrite bool_decide_eq_false_2 by set_solver.
  - apply NoDup_cons in Hnd as [Hx Hnd]. rewrite worldOf_forEach_cons, IH by done.
    destruct (decide (x = k)) as [->|Hne].
    + rewrite (bool_decide_eq_false_2 (k ∈ l)) by done.
      rewrite (bool_decide_eq_true_2 (k ∈ k :: l)) by set_solver. apply Hk.
    + rewrite Hother by done.
      rewrite (bool_decide_ext (k ∈ x :: l) (k ∈ l)) by set_solver. done.
Qed.

Lemma forEach_events {A X} `{EqDecision A} (body : A → M unit) (π : World → X)
    (p : Event → bool) (k : A) (E : X → list Event) :
  (∀ x w, x ≠ k → π (worldOf (body x w)) = π w) →
  (∀ x w, x ≠ k → List.filter p (eventsOf (body x w)) = []) →
  (∀ w, List.filter p (eventsOf (body k w)) = E (π w)) →
  ∀ l w, NoDup l →
    List.filter p (eventsOf (forEach body l w)) =
      if bool_decide (k ∈ l) then E (π w) else [].
Proof.
  intros Hother Hev Hk. induction l as [|x l IH]; intros w Hnd.
  - by rewrite bool_decide_eq_false_2 by set_solver.
  - apply NoDup_cons in Hnd as [Hx Hnd].
    rewrite eventsOf_forEach_cons, List.filter_app, IH by done.
    destruct (decide (x = k)) as [->|Hne].
    + rewrite (bool_decide_eq_false_2 (k ∈ l)) by done.
      rewrite (bool_decide_eq_true_2 (k ∈ k :: l)) by set_solver.
      by rewrite Hk, app_nil_r.
    + rewrite Hev, Hother by done. cbn [app].
      rewrite (bool_decide_ext (k ∈ x :: l) (k ∈ l)) by set_solver. done.
Qed.

Lemma processKeys_run i w :
  processKeys i w =
    forEach (handleKey i) (snd (getAndUpdateActiveKeys (Key i) (depressedKeys (statics w))))
      (with_statics
         (set_depressedKeys (fst (getAndUpdateActiveKeys (Key i) (depressedKeys (statics w)))))
         w).
Proof.
  unfold processKeys, bind, read, write.
  destruct (getAndUpdateActiveKeys (Key i) (depressedKeys (statics w))) as [d' keys].
  cbn [fst snd]. destruct (forEach _ _ _) as [[[] w'] e']. reflexivity.
Qed.

Ltac handleKey_cases :=
  unfold handleKey;
  repeat match goal with
  | |- context [Z.eqb ?a ?b] => destruct (Z.eqb_spec a b); try congruence
  end; cbn [orb].

Lemma togglePause_playback i w :
  playback (worldOf (togglePause i w)) = togglePlayback i (playback w) ∧
  eventsOf (togglePause i w) = toggleEvents (playback w) ∧
  fade (statics (worldOf (togglePause i w))) = fade (statics w).
Proof.
  unfold togglePause, playback, togglePlayback, toggleEvents, bind, read, write.
  destruct w as [[t d p s f y ps] ses]; cbn.
  destruct p; [destruct s|]; cbn; done.
Qed.

Lemma handleKey_other_playback i key w :
  key ≠ chr " " →
  playback (worldOf (handleKey i key w)) = playback w ∧
  List.filter isPlaybackEvent (eventsOf (handleKey i key w)) = [].
Proof.
  intros Hne. handleKey_cases; done.
Qed.

Lemma handleKey_space i w : handleKey i (chr " ") w = togglePause i w.
Proof. reflexivity. Qed.

Lemma handleKey_fade i key w :
  fade (statics (worldOf (handleKey i key w))) =
    if key =? chr "H"
    then (if fade (statics w) =? 0 then kHeadboxFade else 0)
    else fade (statics w).
Proof.
  destruct (Z.eqb_spec key (chr "H")) as [->|Hne]; [reflexivity|].
  destruct (Z.eqb_spec key (chr " ")) as [->|Hne']; [apply togglePause_playback|].
  handleKey_cases; done.
Qed.

Lemma handleKey_events i key w : Forall (λ e, isKeyEvent e = true) (eventsOf (handleKey i key w)).
Proof.
  destruct (Z.eqb_spec key (chr " ")) as [->|Hne'].
  - rewrite handleKey_space, (proj1 (proj2 (togglePause_playback i w))).
    unfold toggleEvents, playback. repeat case_match; repeat constructor.
  - handleKey_cases; repeat constructor.
Qed.

(** What the keys leave alone. *)
Lemma handleKey_session i key w :
  frameIndex (session (worldOf (handleKey i key w))) = frameIndex (session w) ∧
  result (session (worldOf (handleKey i key w))) = result (session w) ∧
  retryCreate (session (worldOf (handleKey i key w))) = retryCreate (session w) ∧
  depressedKeys (statics (worldOf (handleKey i key w))) = depressedKeys (statics w).
Proof.
  destruct (Z.eqb_spec key (chr " ")) as [->|Hne'].
  - rewrite handleKey_space. unfold togglePause, bind, read, write.
    destruct w as [[t d p s f y ps] ses]; cbn. destruct p; [destruct s|]; cbn; done.
  - handleKey_cases; done.
Qed.
(** *** The keys phase as a whole *)

Lemma active_decide Key d k :
  k ∈ keysOfInterest →
  bool_decide (k ∈ snd (getAndUpdateActiveKeys Key d)) = fires Key d k.
Proof.
  intros Hk. destruct (fires Key d k) eqn:Hf.
  - apply bool_decide_eq_true_2, activeKeys_iff. done.
  - apply bool_decide_eq_false_2. rewrite activeKeys_iff. intros [_ ?]. congruence.
Qed.

Lemma processKeys_proj {X} (π : World → X) (k : Z) (g : X → X) i w :
  k ∈ keysOfInterest →
  (∀ d w, π (with_statics (set_depressedKeys d) w) = π w) →
  (∀ key w, key ≠ k → π (worldOf (handleKey i key w)) = π w) →
  (∀ w, π (worldOf (handleKey i k w)) = g (π w)) →
  π (worldOf (processKeys i w)) = if keyActive i w k then g (π w) else π w.
Proof.
  intros Hk Hd Hother Hkey. rewrite processKeys_run.
  rewrite (forEach_proj (handleKey i) π k g Hother Hkey) by apply activeKeys_NoDup.
  rewrite active_decide, Hd by done. reflexivity.
Qed.

Lemma space_of_interest : chr " " ∈ keysOfInterest.
Proof. set_solver. Qed.

Lemma H_of_interest : chr "H" ∈ keysOfInterest.
Proof. set_solver. Qed.

Lemma processKeys_playback i w :
  playback (worldOf (processKeys i w)) =
    if keyActive i w (chr " ") then togglePlayback i (playback w) else playback w.
Proof.
  apply (processKeys_proj playback (chr " ") (togglePlayback i)).
  - apply space_of_interest.
  - reflexivity.
  - intros key w' Hne. by apply handleKey_other_playback.
  - intros w'. rewrite handleKey_space. apply togglePause_playback.
Qed.

Lemma processKeys_playback_events i w :
  List.filter isPlaybackEvent (eventsOf (processKeys i w)) =
    if keyActive i w (chr " ") then toggleEvents (playback w) else [].
Proof.
  rewrite processKeys_run.
  rewrite (forEach_events (handleKey i) playback isPlaybackEvent (chr " ") toggleEvents).
  - rewrite active_decide by apply space_of_interest. reflexivity.
  - intros key w' Hne. by apply handleKey_other_playback.
  - intros key w' Hne. by apply handleKey_other_playback.
  - intros w'. rewrite handleKey_space.
    rewrite (proj1 (proj2 (togglePause_playback i w'))).
    unfold toggleEvents, playback. repeat case_match; reflexivity.
  - apply activeKeys_NoDup.
Qed.

Lemma processKeys_fade i w :
  fade (statics (worldOf (processKeys i w))) =
    if keyActive i w (chr "H")
    then (if fade (statics w) =? 0 then kHeadboxFade else 0)
    else fade (statics w).
Proof.
  apply (processKeys_proj (λ w, fade (statics w)) (chr "H")
           (λ f, if f =? 0 then kHeadboxFade else 0)).
  - apply H_of_interest.
  - reflexivity.
  - intros key w' Hne. rewrite handleKey_fade.
    by destruct (Z.eqb_spec key (chr "H")).
  - intros w'. by rewrite handleKey_fade.
Qed.

Lemma forEach_Forall {A} (body : A → M unit) (P : Event → Prop) l :
  (∀ x w, Forall P (eventsOf (body x w))) →
  ∀ w, Forall P (eventsOf (forEach body l w)).
Proof.
  intros Hb. induction l as [|x l IH]; intros w; [constructor|].
  rewrite eventsOf_forEach_cons. apply Forall_app. split; [apply Hb | apply IH].
Qed.

Lemma processKeys_events i w :
  Forall (λ e, isKeyEvent e = true) (eventsOf (processKeys i w)).
Proof. rewrite processKeys_run. apply forEach_Forall, handleKey_events. Qed.

Lemma forEach_preserves {A X} (body : A → M unit) (π : World → X) l :
  (∀ x w, π (worldOf (body x w)) = π w) →
  ∀ w, π (worldOf (forEach body l w)) = π w.
Proof.
  intros Hb. induction l as [|x l IH]; intros w; [done|].
  by rewrite worldOf_forEach_cons, IH, Hb.
Qed.

Lemma processKeys_session i w :
  frameIndex (session (worldOf (processKeys i w))) = frameIndex (session w) ∧
  result (session (worldOf (processKeys i w))) = result (session w) ∧
  retryCreate (session (worldOf (processKeys i w))) = retryCreate (session w).
Proof.
  rewrite processKeys_run. repeat split.
  - rewrite (forEach_preserves _ (λ w, frameIndex (session w))); [done|].
    intros. apply handleKey_session.
  - rewrite (forEach_preserves _ (λ w, result (session w))); [done|].
    intros. apply handleKey_session.
  - rewrite (forEach_preserves _ (λ w, retryCreate (session w))); [done|].
    intros. apply handleKey_session.
Qed.

(** *** The other phases *)

Lemma checkMounted_run i w :
  checkMounted i w =
    (tt, (if HmdMounted i then w else with_statics (set_pause true) w),
     (if HmdMounted i then [] else [SoundtrackPause])).
Proof. unfold checkMounted. by destruct (HmdMounted i). Qed.

Lemma updateMenu_run i w :
  updateMenu i w =
    (tt,
     (if snd (menuUpdate (menuFadeDone i) (menu (session w)))
      then with_statics (set_pause false) else id)
       (with_session (set_menu (fst (menuUpdate (menuFadeDone i) (menu (session w))))) w),
     MenuUpdate ::
       (if snd (menuUpdate (menuFadeDone i) (menu (session w)))
        then [RecenterTrackingOrigin] else [])).
Proof.
  unfold updateMenu, bind, emit, readSession, writeSession, exitMenuCallback, write.
  destruct (menuUpdate (menuFadeDone i) (menu (session w))) as [m' []]; reflexivity.
Qed.

Lemma syncAudioVideo_run i w :
  syncAudioVideo i w =
    if isHidden (menu (session w)) && negb (pause (statics w)) then
      if getFront i =? 0 then
        (false, with_statics (set_startTime (nowSync i)) w, [SoundtrackRestart])
      else
        ((if fgt (getVideoTimeMs (getFront i))
                 (fadd (referenceTimeMs i w) kMaxAudioLag)
          then negb (audioIsPlaying i) || fneq (audioElapsedMs i) (of_int 0)
          else false), w, [])
    else (false, w, []).
Proof.
  unfold syncAudioVideo, referenceTimeMs, bind, read, readSession, write, emit, ret.
  destruct (isHidden (menu (session w)) && negb (pause (statics w))); [|reflexivity].
  destruct (getFront i =? 0); [reflexivity|].
  destruct (fgt _ _); [by destruct (negb (audioIsPlaying i) || _)|].
  by destruct (fgt _ _).
Qed.

Lemma advanceFrame_run d w :
  advanceFrame d w =
    (tt, w,
     if negb d && negb (pause (statics w)) && (1 <? numFrames cfg)
     then advanceEvents else []).
Proof.
  unfold advanceFrame, bind, read.
  by destruct (negb d && negb (pause (statics w)) && (1 <? numFrames cfg)).
Qed.

Lemma renderEye_run i eye w :
  renderEye i eye w =
    (tt, w,
     if isHidden (menu (session w)) then
       [SceneRender eye (fmul (of_int (fade (statics w))) (Length (eyePosition i 0)))]
     else [MenuDraw eye]).
Proof.
  unfold renderEye, bind, read, readSession, emit.
  destruct (isHidden (menu (session w))); reflexivity.
Qed.

Lemma render_run i w :
  forEach (renderEye i) [0; 1] w =
    (tt, w,
     if isHidden (menu (session w)) then
       [SceneRender 0 (fmul (of_int (fade (statics w))) (Length (eyePosition i 0)));
        SceneRender 1 (fmul (of_int (fade (statics w))) (Length (eyePosition i 0)))]
     else [MenuDraw 0; MenuDraw 1]).
Proof.
  unfold forEach, bind. rewrite !renderEye_run. unfold ret.
  destruct (isHidden (menu (session w))); reflexivity.
Qed.

(** Sync, advance and render leave the playback flags, the fade mode and
    the session alone (sync may move [startTime]). *)
Lemma syncAudioVideo_frame i w :
  pause (statics (worldOf (syncAudioVideo i w))) = pause (statics w) ∧
  started (statics (worldOf (syncAudioVideo i w))) = started (statics w) ∧
  fade (statics (worldOf (syncAudioVideo i w))) = fade (statics w) ∧
  depressedKeys (statics (worldOf (syncAudioVideo i w))) = depressedKeys (statics w) ∧
  session (worldOf (syncAudioVideo i w)) = session w.
Proof.
  rewrite syncAudioVideo_run.
  destruct (isHidden (menu (session w)) && negb (pause (statics w))); [|done].
  by destruct (getFront i =? 0).
Qed.

(** One iteration, phase by phase. *)
Lemma tick_run i w :
  let w3 := stateBeforeSync i w in
  let w4 := worldOf (syncAudioVideo i w3) in
  tickEvents i w =
    eventsOf (processKeys i w) ++
    (if HmdMounted i then [] else [SoundtrackPause]) ++
    (MenuUpdate :: (if menuExits i w then [RecenterTrackingOrigin] else [])) ++
    [SoundtrackUpdatePositionalTracking] ++
    eventsOf (syncAudioVideo i w3) ++
    (if negb (delayNextFrame i w) && negb (pause (statics w3)) && (1 <? numFrames cfg)
     then advanceEvents else []) ++
    (if isHidden (menu (session w3)) then
       [SceneRender 0 (fmul (of_int (fade (statics w3))) (Length (eyePosition i 0)));
        SceneRender 1 (fmul (of_int (fade (statics w3))) (Length (eyePosition i 0)))]
     else [MenuDraw 0; MenuDraw 1]) ++
    [SubmitFrame (frameIndex (session w3))] ∧
  afterTick i w =
    (if negb (OVR_SUCCESS (submitResult i))
     then with_session (set_result (submitResult i)) w4
     else with_session (set_frameIndex (frameIndex (session w4) + 1))
            (with_session (set_result (submitResult i)) w4)) ∧
  valueOf (visibleTick i w) = negb (OVR_SUCCESS (submitResult i)).
Proof.
intros w3 w4.
pose proof (syncAudioVideo_frame i w3) as (Hp & _ & Hf & _ & Hs). fold w4 in Hp, Hf, Hs.
assert (H3 : w3 = worldOf (updateMenu i (worldOf (checkMounted i (worldOf (processKeys i w)))))).
{ unfold w3, stateBeforeSync. by rewrite !worldOf_bind. }
assert (Hex : menuExits i w
  = snd (menuUpdate (menuFadeDone i) (menu (session (worldOf (checkMounted i (worldOf (processKeys i w)))))))).
{ unfold menuExits. by rewrite !worldOf_bind. }
unfold tickEvents, afterTick, delayNextFrame, visibleTick.
split; [|split].
- run_simpl. rewrite <- !H3. fold w4.
  rewrite !advanceFrame_run, !render_run. run_simpl.
  rewrite Hp, Hf, Hs.
  rewrite (updateMenu_run i). run_simpl. rewrite <- Hex.
  rewrite (checkMounted_run i). run_simpl.
  destruct (OVR_SUCCESS (submitResult i)); cbn [negb]; run_simpl;
    rewrite ?app_nil_r; reflexivity.
- run_simpl. rewrite <- !H3. fold w4.
  rewrite !advanceFrame_run, !render_run. run_simpl.
  destruct (OVR_SUCCESS (submitResult i)); cbn [negb]; run_simpl; reflexivity.
- run_simpl. destruct (OVR_SUCCESS (submitResult i)); reflexivity.
Qed.

(** The state in which the drift decision starts, from the state in which
    the iteration starts. *)
Lemma stateBeforeSync_run i w :
  let x := if keyActive i w (chr " ") then togglePlayback i (playback w) else playback w in
  let exits := snd (menuUpdate (menuFadeDone i) (snd x)) in
  menuExits i w = exits ∧
  playback (stateBeforeSync i w) =
    (if exits then false else if HmdMounted i then fst (fst (fst x)) else true,
     snd (fst (fst x)), snd (fst x), fst (menuUpdate (menuFadeDone i) (snd x))) ∧
  fade (statics (stateBeforeSync i w)) =
    (if keyActive i w (chr "H")
     then (if fade (statics w) =? 0 then kHeadboxFade else 0)
     else fade (statics w)) ∧
  frameIndex (session (stateBeforeSync i w)) = frameIndex (session w) ∧
  result (session (stateBeforeSync i w)) = result (session w) ∧
  retryCreate (session (stateBeforeSync i w)) = retryCreate (session w).
Proof.
  intros x exits.
  pose proof (processKeys_playback i w) as Hk. fold x in Hk.
  pose proof (processKeys_fade i w) as Hf.
  pose proof (processKeys_session i w) as (Hfi & Hre & Hrc).
  unfold menuExits, stateBeforeSync. run_simpl.
  rewrite (updateMenu_run i), (checkMounted_run i). run_simpl.
  set (w1 := worldOf (processKeys i w)) in *.
  assert (Hm : menu (session (if HmdMounted i then w1 else with_statics (set_pause true) w1))
               = snd x).
  { rewrite <- Hk. by destruct (HmdMounted i). }
  rewrite Hm. fold exits.
  rewrite <- Hk, <- Hf, <- Hfi, <- Hre, <- Hrc.
  destruct w1 as [[t d p s f y ps] [m rb fi re rc]].
  unfold playback. cbn.
  destruct exits, (HmdMounted i); cbn; done.
Qed.

(** *** Events of one iteration, by kind *)

Lemma filter_none {A} (p q : A → bool) l :
  Forall (λ e, q e = true) l → (∀ e, q e = true → p e = false) → List.filter p l = [].
Proof.
  intros Hl Hpq. induction Hl as [|e l He _ IH]; [done|].
  cbn. by rewrite (Hpq e He).
Qed.

Lemma syncAudioVideo_events i w :
  eventsOf (syncAudioVideo i w) = [] ∨ eventsOf (syncAudioVideo i w) = [SoundtrackRestart].
Proof.
  rewrite syncAudioVideo_run.
  destruct (isHidden (menu (session w)) && negb (pause (statics w))); [|by left].
  destruct (getFront i =? 0); [by right | by left].
Qed.

(** The frame pipeline is touched by the advance step only. *)
Lemma tick_frameEvents i w :
  frameEvents (tickEvents i w) =
    if negb (delayNextFrame i w) && negb (pause (statics (stateBeforeSync i w))) &&
       (1 <? numFrames cfg)
    then advanceEvents else [].
Proof.
  rewrite (proj1 (tick_run i w)). unfold frameEvents.
  rewrite !List.filter_app.
  rewrite (filter_none isFrameEvent isKeyEvent _ (processKeys_events i w))
    by (by intros []).
  assert (List.filter isFrameEvent (eventsOf (syncAudioVideo i (stateBeforeSync i w))) = [])
    as ->.
  { by destruct (syncAudioVideo_events i (stateBeforeSync i w)) as [-> | ->]. }
  destruct (HmdMounted i), (menuExits i w), (isHidden (menu (session (stateBeforeSync i w))));
    cbn [List.filter isFrameEvent app];
    (destruct (negb (delayNextFrame i w) && negb (pause (statics (stateBeforeSync i w))) &&
               (1 <? numFrames cfg)); reflexivity).
Qed.

(** The scene is rendered by the render step only. *)
Lemma tick_sceneRenders i w :
  List.filter isSceneRender (tickEvents i w) =
    if isHidden (menu (session (stateBeforeSync i w))) then
      [SceneRender 0 (fmul (of_int (fade (statics (stateBeforeSync i w))))
                        (Length (eyePosition i 0)));
       SceneRender 1 (fmul (of_int (fade (statics (stateBeforeSync i w))))
                        (Length (eyePosition i 0)))]
    else [].
Proof.
  rewrite (proj1 (tick_run i w)).
  rewrite !List.filter_app.
  rewrite (filter_none isSceneRender isKeyEvent _ (processKeys_events i w))
    by (by intros []).
  assert (List.filter isSceneRender (eventsOf (syncAudioVideo i (stateBeforeSync i w))) = [])
    as ->.
  { by destruct (syncAudioVideo_events i (stateBeforeSync i w)) as [-> | ->]. }
  destruct (HmdMounted i), (menuExits i w), (isHidden (menu (session (stateBeforeSync i w))));
    cbn [List.filter isSceneRender app];
    (destruct (negb (delayNextFrame i w) && negb (pause (statics (stateBeforeSync i w))) &&
               (1 <? numFrames cfg)); reflexivity).
Qed.

(** ** Drift decision *)

(** C1, as amended.  In an iteration in which the drift decision runs (menu
    hidden, not paused, front frame not 0) and the video time exceeds the
    reference by more than the 5 ms audio-lag tolerance, [delayNextFrame] is
    set, and the frame advance is suppressed, unless the soundtrack is
    playing and its elapsed time is exactly zero.  With the soundtrack not
    playing the delay IS applied (against the wall clock). *)
Theorem ahead_delays_unless_audio_at_zero i w :
  isHidden (menu (session (stateBeforeSync i w))) = true →
  pause (statics (stateBeforeSync i w)) = false →
  getFront i ≠ 0 →
  fgt (getVideoTimeMs (getFront i))
      (fadd (referenceTimeMs i (stateBeforeSync i w)) kMaxAudioLag) = true →
  delayNextFrame i w = negb (audioIsPlaying i) || fneq (audioElapsedMs i) (of_int 0) ∧
  (audioIsPlaying i = false → delayNextFrame i w = true) ∧
  (audioIsPlaying i = true → fneq (audioElapsedMs i) (of_int 0) = false →
   delayNextFrame i w = false) ∧
  frameEvents (tickEvents i w) =
    (if delayNextFrame i w then []
     else if 1 <? numFrames cfg then advanceEvents else []).
Proof.
  intros Hh Hp Hf Hahead.
  assert (Hd : delayNextFrame i w =
               negb (audioIsPlaying i) || fneq (audioElapsedMs i) (of_int 0)).
  { unfold delayNextFrame. rewrite syncAudioVideo_run, Hh, Hp. cbn [andb negb].
    destruct (Z.eqb_spec (getFront i) 0); [done|]. by rewrite Hahead. }
  split; [exact Hd|]. split; [|split].
  - intros Ha. by rewrite Hd, Ha.
  - intros Ha Hz. by rewrite Hd, Ha, Hz.
  - rewrite tick_frameEvents, Hp. by destruct (delayNextFrame i w).
Qed.

Lemma getVideoTimeMs_valid `{!FloatOrder F} front : fvalid (getVideoTimeMs front) = true.
Proof.
  unfold getVideoTimeMs.
  apply fvalid_fmul; [|apply fvalid_fdiv]; apply fvalid_of_int.
Qed.

Lemma referenceTimeMs_valid `{!FloatOrder F} i w :
  fvalid (audioElapsedMs i) = true → fvalid (referenceTimeMs i w) = true.
Proof.
  intros Ha. unfold referenceTimeMs, elapsedMs. destruct (audioIsPlaying i); [done|].
  apply fvalid_fdiv; apply fvalid_of_int.
Qed.

(** C2.  The drift decision, run with the menu hidden and not paused, with
    the reference being the soundtrack's elapsed time when it is playing and
    the wall-clock time since [startTime] otherwise: at front frame 0 it sets
    [startTime] to now and restarts the soundtrack; when the reference
    exceeds the video time by more than the 90 ms video-lag tolerance it
    does nothing and [delayNextFrame] stays false; and within the tolerance
    band it does nothing and [delayNextFrame] stays false.  This holds in
    every float arithmetic that satisfies [FloatOrder], binary32 among them,
    for any well-formed value of the soundtrack's elapsed time (NaN and the
    infinities included). *)
Theorem drift_decision `{!FloatOrder F} i w :
  isHidden (menu (session w)) = true →
  pause (statics w) = false →
  fvalid (audioElapsedMs i) = true →
  referenceTimeMs i w =
    (if audioIsPlaying i then audioElapsedMs i
     else elapsedMs (nowSync i) (startTime (statics w))) ∧
  (getFront i = 0 →
   syncAudioVideo i w =
     (false, with_statics (set_startTime (nowSync i)) w, [SoundtrackRestart])) ∧
  (getFront i ≠ 0 →
   fgt (referenceTimeMs i w) (fadd (getVideoTimeMs (getFront i)) (of_int 90)) = true →
   syncAudioVideo i w = (false, w, [])) ∧
  (getFront i ≠ 0 →
   fgt (getVideoTimeMs (getFront i)) (fadd (referenceTimeMs i w) (of_int 5)) = false →
   fgt (referenceTimeMs i w) (fadd (getVideoTimeMs (getFront i)) (of_int 90)) = false →
   syncAudioVideo i w = (false, w, [])).
Proof.
  intros Hh Hp Ha. split; [reflexivity|].
  rewrite syncAudioVideo_run, Hh, Hp. cbn [andb negb]. unfold kMaxAudioLag.
  split; [|split].
  - intros ->. reflexivity.
  - intros Hf Hbehind. destruct (Z.eqb_spec (getFront i) 0); [done|].
    destruct (fgt (getVideoTimeMs (getFront i)) _) eqn:Hahead; [|done].
    apply fgt_add_lag in Hbehind; [|apply getVideoTimeMs_valid|lia].
    apply fgt_add_lag in Hahead; [|by apply referenceTimeMs_valid|lia].
    pose proof (fgt_trans _ _ _ Hbehind Hahead) as Hcycle.
    by rewrite fgt_irrefl in Hcycle.
  - intros Hf Hahead _. destruct (Z.eqb_spec (getFront i) 0); [done|].
    by rewrite Hahead.
Qed.

(** ** Frame advance *)

(** C9.  The frame advance is gated on [delayNextFrame], on [pause] and on
    the video having more than one frame, not on the menu: with the menu
    still visible the drift decision is skipped ([delayNextFrame] stays
    false and nothing is done), and if [pause] is false the video
    advances. *)
Theorem advance_not_gated_on_menu i w :
  frameEvents (tickEvents i w) =
    (if negb (delayNextFrame i w) && negb (pause (statics (stateBeforeSync i w))) &&
        (1 <? numFrames cfg)
     then advanceEvents else []) ∧
  (isHidden (menu (session (stateBeforeSync i w))) = false →
   syncAudioVideo i (stateBeforeSync i w) = (false, stateBeforeSync i w, []) ∧
   delayNextFrame i w = false ∧
   (pause (statics (stateBeforeSync i w)) = false → 1 < numFrames cfg →
    frameEvents (tickEvents i w) = advanceEvents)).
Proof.
  split; [apply tick_frameEvents|].
  intros Hv.
  assert (Hs : syncAudioVideo i (stateBeforeSync i w) = (false, stateBeforeSync i w, [])).
  { by rewrite syncAudioVideo_run, Hv. }
  assert (Hd : delayNextFrame i w = false) by (unfold delayNextFrame; by rewrite Hs).
  split; [exact Hs|]. split; [exact Hd|].
  intros Hp Hn. rewrite tick_frameEvents, Hd, Hp.
  apply Z.ltb_lt in Hn. by rewrite Hn.
Qed.

(** ** Pause toggle *)


(** ** Playback state *)

Lemma afterTick_playbackState i w :
  playbackState (afterTick i w) = playbackState (stateBeforeSync i w).
Proof.
  rewrite (proj1 (proj2 (tick_run i w))).
  destruct (syncAudioVideo_frame i (stateBeforeSync i w)) as (Hp & _ & _ & _ & Hs).
  assert (Hw : playbackState (worldOf (syncAudioVideo i (stateBeforeSync i w)))
               = playbackState (stateBeforeSync i w)).
  { unfold playbackState. by rewrite Hp, Hs. }
  rewrite <- Hw.
  by destruct (negb (OVR_SUCCESS (submitResult i))),
       (worldOf (syncAudioVideo i (stateBeforeSync i w))) as [st [m rb fi re rc]].
Qed.


(** ** The main loop *)

Lemma mainLoopTicks_cons i rest w :
  mainLoopTicks (i :: rest) w =
    if negb (HandleMessages i) then (Some tt, w, [])
    else if ShouldQuit i then (Some tt, with_session (set_retryCreate false) w, [])
    else if IsVisible i then
      if negb (OVR_SUCCESS (submitResult i)) then (Some tt, afterTick i w, tickEvents i w)
      else (valueOf (mainLoopTicks rest (afterTick i w)),
            worldOf (mainLoopTicks rest (afterTick i w)),
            tickEvents i w ++ eventsOf (mainLoopTicks rest (afterTick i w)))
    else mainLoopTicks rest w.
Proof.
  cbn [mainLoopTicks].
  destruct (negb (HandleMessages i)); [reflexivity|].
  destruct (ShouldQuit i); [reflexivity|].
  destruct (IsVisible i); [|reflexivity].
  pose proof (proj2 (proj2 (tick_run i w))) as Hv.
  unfold afterTick, tickEvents, bind. unfold valueOf in Hv at 1.
  destruct (visibleTick i w) as [[failed w'] e]. cbn [fst snd] in Hv. subst failed.
  rewrite worldOf_mk, eventsOf_mk.
  destruct (negb (OVR_SUCCESS (submitResult i))).
  - by rewrite ret_run, app_nil_r.
  - by destruct (mainLoopTicks rest w') as [[o w''] e''].
Qed.

(** Running the loop on more inputs, once it is known to be still running
    after the first ones. *)
Lemma mainLoopTicks_app before rest w w1 e1 :
  mainLoopTicks before w = (None, w1, e1) →
  mainLoopTicks (before ++ rest) w =
    (valueOf (mainLoopTicks rest w1), worldOf (mainLoopTicks rest w1),
     e1 ++ eventsOf (mainLoopTicks rest w1)).
Proof.
  revert w e1. induction before as [|i before IH]; intros w e1 Hrun.
  - injection Hrun as <- <-. cbn [app].
    by destruct (mainLoopTicks rest w) as [[o w'] e'].
  - cbn [app]. rewrite mainLoopTicks_cons in Hrun |- *.
    destruct (negb (HandleMessages i)); [done|].
    destruct (ShouldQuit i); [done|].
    destruct (IsVisible i); [|by apply IH].
    destruct (negb (OVR_SUCCESS (submitResult i))); [done|].
    destruct (mainLoopTicks before (afterTick i w)) as [[o w'] e'] eqn:Hb.
    unfold valueOf, worldOf, eventsOf in Hrun. cbn [fst snd] in Hrun.
    injection Hrun as -> -> <-.
    rewrite (IH _ _ Hb). run_simpl. by rewrite app_assoc.
Qed.

(** While the loop runs, [retryCreate] keeps its value and [result] holds a
    success code. *)
Lemma afterTick_session i w :
  retryCreate (session (afterTick i w)) = retryCreate (session w) ∧
  result (session (afterTick i w)) = submitResult i.
Proof.
  rewrite (proj1 (proj2 (tick_run i w))).
  destruct (syncAudioVideo_frame i (stateBeforeSync i w)) as (_ & _ & _ & _ & Hs).
  destruct (stateBeforeSync_run i w) as (_ & _ & _ & _ & _ & Hrc).
  rewrite <- Hrc, <- Hs.
  by destruct (negb (OVR_SUCCESS (submitResult i))),
       (worldOf (syncAudioVideo i (stateBeforeSync i w))) as [st [m rb fi re rc]].
Qed.

Lemma mainLoopTicks_running ticks : ∀ w w1 e1,
  mainLoopTicks ticks w = (None, w1, e1) →
  OVR_SUCCESS (result (session w)) = true →
  retryCreate (session w1) = retryCreate (session w) ∧
  OVR_SUCCESS (result (session w1)) = true.
Proof.
  induction ticks as [|i ticks IH]; intros w w1 e1 Hrun Hres.
  - by injection Hrun as <- _.
  - rewrite mainLoopTicks_cons in Hrun.
    destruct (negb (HandleMessages i)); [done|].
    destruct (ShouldQuit i); [done|].
    destruct (IsVisible i); [|by eapply IH].
    destruct (negb (OVR_SUCCESS (submitResult i))) eqn:Hsub; [done|].
    destruct (mainLoopTicks ticks (afterTick i w)) as [[o w'] e'] eqn:Hb.
    unfold valueOf, worldOf, eventsOf in Hrun. cbn [fst snd] in Hrun.
    injection Hrun as -> -> <-.
    destruct (afterTick_session i w) as [Hrc Hre].
    destruct (IH _ _ _ Hb) as [H1 H2].
    + rewrite Hre. by destruct (OVR_SUCCESS (submitResult i)).
    + by rewrite H1, Hrc.
Qed.

(** [MainLoop] once the setup succeeds: the statics it was called with go
    into the loop as they are. *)
Lemma MainLoop_reaches retry setup ticks st :
  reachesLoop setup = true →
  MainLoop retry setup ticks st =
    (match valueOf (mainLoopTicks ticks (loopEntry retry setup st)) with
     | Some _ =>
         Returned
           (retryCreate (session (worldOf (mainLoopTicks ticks (loopEntry retry setup st)))) ||
            (result (session (worldOf (mainLoopTicks ticks (loopEntry retry setup st))))
               =? ovrError_DisplayLost))
     | None => Running
     end,
     statics (worldOf (mainLoopTicks ticks (loopEntry retry setup st))),
     setupEvents ++ eventsOf (mainLoopTicks ticks (loopEntry retry setup st))).
Proof.
  unfold reachesLoop, MainLoop, mainLoopBody, loopEntry, setupEvents.
  intros H. repeat (apply andb_true_iff in H as [H ?]).
  rewrite H. cbn [negb]. unfold bind at 1. rewrite readSession_run.
  destruct (initDeviceOk setup); [|done].
  destruct (eyeChainsOk setup 0); [|done].
  destruct (eyeChainsOk setup 1); [|done]. cbn [negb].
  unfold bind at 1. rewrite writeSession_run.
  destruct (OVR_SUCCESS (mirrorResult setup)); [|done]. cbn [negb].
  unfold with_session. cbn [statics session].
  set (w0 := {| statics := st; session := _ |}).
  unfold loadBackground, beginVideo, loadSoundtrack, done.
  destruct (mainLoopTicks ticks w0) as [[[[]|] w1] e1] eqn:Hloop;
    destruct (FLAGS_background cfg) as [n|]; try rewrite H0;
    destruct (numFrames cfg =? 1), (FLAGS_audio cfg);
    cbn [forEach]; unfold bind, emit, ret, readSession;
    cbv beta iota zeta delta [negb]; rewrite Hloop; cbv beta iota zeta;
    cbn [valueOf worldOf eventsOf fst snd app negb]; rewrite ?app_nil_r; reflexivity.
Qed.

(** [MainLoop] when the setup fails: it is left before anything is loaded,
    and the statics are untouched. *)
Lemma MainLoop_fails retry setup ticks st :
  reachesLoop setup = false →
  ∃ out, MainLoop retry setup ticks st = (out, st, []) ∧ out ≠ Running.
Proof.
  unfold reachesLoop, MainLoop, mainLoopBody.
  intros H.
  destruct (OVR_SUCCESS (createResult setup)); [|by eexists]. cbn [negb andb] in *.
  unfold bind at 1. rewrite readSession_run.
  destruct (initDeviceOk setup); [|by eexists]. cbn [negb andb] in *.
  destruct (eyeChainsOk setup 0); [|destruct retry; by eexists]. cbn [negb andb] in *.
  destruct (eyeChainsOk setup 1); [|destruct retry; by eexists]. cbn [negb andb] in *.
  unfold bind at 1. rewrite writeSession_run.
  destruct (OVR_SUCCESS (mirrorResult setup)); [|destruct retry; by eexists].
  cbn [negb andb] in *.
  unfold loadBackground. destruct (FLAGS_background cfg) as [n|]; [|done].
  rewrite H. by eexists.
Qed.

Lemma loopEntry_result retry setup st :
  reachesLoop setup = true →
  OVR_SUCCESS (result (session (loopEntry retry setup st))) = true.
Proof.
  unfold reachesLoop. intros H. repeat (apply andb_true_iff in H as [H ?]). done.
Qed.

Lemma MainLoop_running retry setup ticks st st1 evs1 :
  MainLoop retry setup ticks st = (Running, st1, evs1) →
  reachesLoop setup = true ∧
  ∃ w1 e1, mainLoopTicks ticks (loopEntry retry setup st) = (None, w1, e1) ∧
           st1 = statics w1 ∧ evs1 = setupEvents ++ e1.
Proof.
  intros Hrun. destruct (reachesLoop setup) eqn:Hr.
  - split; [done|]. rewrite MainLoop_reaches in Hrun by done.
    destruct (mainLoopTicks ticks (loopEntry retry setup st)) as [[[[]|] w1] e1];
      rewrite valueOf_mk, worldOf_mk, eventsOf_mk in Hrun; [done|].
    injection Hrun as <- <-. by exists w1, e1.
  - destruct (MainLoop_fails retry setup ticks st Hr) as (out & Hout & Hne).
    rewrite Hout in Hrun. by injection Hrun as -> _ _.
Qed.

(** ** Leaving the loop *)

(** C8.  With the loop still running after the iterations [before]: an
    iteration that observes [ShouldQuit] ends [MainLoop] with the no-retry
    result, and nothing is loaded, rendered or submitted in it (the events
    are those of [before]); an iteration whose frame submission fails with
    [ovrError_DisplayLost] ends [MainLoop] with the retry result. *)
Theorem quit_and_display_lost retry setup before i rest st st1 evs1 :
  MainLoop retry setup before st = (Running, st1, evs1) →
  HandleMessages i = true →
  (ShouldQuit i = true →
   MainLoop retry setup (before ++ i :: rest) st = (Returned false, st1, evs1)) ∧
  (ShouldQuit i = false → IsVisible i = true → submitResult i = ovrError_DisplayLost →
   ∃ st2 evs2,
     MainLoop retry setup (before ++ i :: rest) st = (Returned true, st2, evs1 ++ evs2)) ∧
  (ShouldQuit i = false → IsVisible i = true → OVR_SUCCESS (submitResult i) = false →
   submitResult i ≠ ovrError_DisplayLost →
   ∃ st2 evs2,
     MainLoop retry setup (before ++ i :: rest) st = (Returned retry, st2, evs1 ++ evs2)).
Proof.
  intros Hrun Hhm.
  destruct (MainLoop_running _ _ _ _ _ _ Hrun) as (Hr & w1 & e1 & Hb & -> & ->).
  destruct (mainLoopTicks_running _ _ _ _ Hb (loopEntry_result retry setup st Hr))
    as [Hrc Hres].
  rewrite (MainLoop_reaches _ _ (before ++ i :: rest)) by done.
  rewrite (mainLoopTicks_app _ (i :: rest) _ _ _ Hb), mainLoopTicks_cons, Hhm.
  cbn [negb]. run_simpl.
  split; [|split].
  - intros ->. run_simpl. cbn [retryCreate session with_session set_retryCreate orb result].
    rewrite app_nil_r. do 3 f_equal.
    unfold OVR_SUCCESS in Hres. apply Z.leb_le in Hres.
    apply Z.eqb_neq. unfold ovrError_DisplayLost. lia.
  - intros -> -> Hlost. rewrite Hlost.
    change (negb (OVR_SUCCESS ovrError_DisplayLost)) with true. cbv iota. run_simpl.
    destruct (afterTick_session i w1) as [_ Hre]. rewrite Hre, Hlost.
    rewrite Z.eqb_refl, orb_true_r, ?app_assoc. eauto.
  - intros -> -> Hfail Hne. rewrite Hfail. cbn [negb]. run_simpl.
    destruct (afterTick_session i w1) as [Hrc' Hre]. rewrite Hre, Hrc', Hrc.
    apply Z.eqb_neq in Hne. rewrite Hne, orb_false_r, ?app_assoc.
    unfold loopEntry. cbn [session retryCreate set_result newSession]. eauto.
Qed.

(** ** Re-entry *)

(** C10.  [MainLoop] never resets its statics: with no iteration it returns
    them as it got them, whatever the setup did; when the setup succeeds the
    main loop starts from them; and the next invocation made by
    [Platform.Run] after a retry result starts from the statics the previous
    one left ([pause], [started], [fade], [Yaw], [Pos2], [depressedKeys],
    [startTime]). *)
Theorem statics_persist_across_reentry :
  (∀ retry setup st, snd (fst (MainLoop retry setup [] st)) = st) ∧
  (∀ retry setup ticks st,
     reachesLoop setup = true →
     statics (loopEntry retry setup st) = st ∧
     snd (fst (MainLoop retry setup ticks st)) =
       statics (worldOf (mainLoopTicks ticks (loopEntry retry setup st)))) ∧
  (∀ setup1 ticks1 setup2 ticks2 st st1 evs1,
     MainLoop true setup1 ticks1 st = (Returned true, st1, evs1) →
     snd (fst (Run [(setup1, ticks1); (setup2, ticks2)] st)) =
       snd (fst (MainLoop true setup2 ticks2 st1)) ∧
     snd (Run [(setup1, ticks1); (setup2, ticks2)] st) =
       evs1 ++ snd (MainLoop true setup2 ticks2 st1)).
Proof.
  split; [|split].
  - intros retry setup st. destruct (reachesLoop setup) eqn:Hr.
    + by rewrite MainLoop_reaches.
    + by destruct (MainLoop_fails retry setup [] st Hr) as (out & -> & _).
  - intros retry setup ticks st Hr. split; [done|]. by rewrite MainLoop_reaches.
  - intros setup1 ticks1 setup2 ticks2 st st1 evs1 H1. cbn [Run]. rewrite H1.
    destruct (MainLoop true setup2 ticks2 st1) as [[out st2] evs2].
    destruct out as [[]| |]; cbn [fst snd]; by rewrite ?app_nil_r.
Qed.

(** ** Readahead window *)

Lemma inFlight_app a b : inFlight (a ++ b) = inFlight a + inFlight b.
Proof.
  induction a as [|e a IH]; [done|].
  cbn [app inFlight]. destruct e as [[] ?|[]| | | | | | | | | | | |]; lia.
Qed.

Lemma prefix_app_split {A} (a b p : list A) :
  p `prefix_of` a ++ b → p `prefix_of` a ∨ ∃ q, p = a ++ q ∧ q `prefix_of` b.
Proof.
  revert p. induction a as [|x a IH]; intros p Hp.
  - right. by exists p.
  - destruct p as [|y p]; [left; apply prefix_nil|].
    cbn [app] in Hp. apply prefix_cons_inv_1 in Hp as Hxy. subst y.
    apply prefix_cons_inv_2 in Hp.
    destruct (IH p Hp) as [Hl | (q & -> & Hq)].
    + left. by apply prefix_cons.
    + right. by exists q.
Qed.

Lemma windowWithin_app d a b :
  windowWithin d a → windowWithin (d - inFlight a) b → windowWithin d (a ++ b).
Proof.
  intros Ha Hb p Hp. destruct (prefix_app_split a b p Hp) as [Hl | (q & -> & Hq)].
  - by apply Ha.
  - rewrite inFlight_app. specialize (Hb q Hq). lia.
Qed.

Lemma windowWithin_mono d d' evs : d ≤ d' → windowWithin d evs → windowWithin d' evs.
Proof. intros Hd H p Hp. specialize (H p Hp). lia. Qed.

Lemma inFlight_neutral evs :
  Forall (λ e, isVideoLoad e = false) evs → inFlight evs = 0.
Proof.
  induction 1 as [|e evs He _ IH]; [done|].
  cbn [inFlight]. destruct e as [[] ?|[]| | | | | | | | | | | |]; done.
Qed.

Lemma windowWithin_neutral evs :
  Forall (λ e, isVideoLoad e = false) evs → windowWithin 0 evs.
Proof.
  intros H p [k ->]. apply Forall_app in H as [H _]. by rewrite inFlight_neutral.
Qed.

Lemma balanced_app a b : balanced a → balanced b → balanced (a ++ b).
Proof.
  intros [Ha Ha0] [Hb Hb0]. split.
  - apply windowWithin_app; [done|]. by rewrite Ha0.
  - rewrite inFlight_app. lia.
Qed.

Lemma balanced_neutral evs : Forall (λ e, isVideoLoad e = false) evs → balanced evs.
Proof. intros H. split; [by apply windowWithin_neutral | by apply inFlight_neutral]. Qed.

Lemma balanced_advance : balanced advanceEvents.
Proof.
  split; [|done]. intros p Hp. unfold advanceEvents in Hp.
  destruct p as [|e1 [|e2 [|e3 [|e4 p]]]].
  - done.
  - apply prefix_cons_inv_1 in Hp as ->. done.
  - apply prefix_cons_inv_1 in Hp as He1. apply prefix_cons_inv_2 in Hp.
    apply prefix_cons_inv_1 in Hp as He2. subst. done.
  - apply prefix_cons_inv_1 in Hp as He1. apply prefix_cons_inv_2 in Hp.
    apply prefix_cons_inv_1 in Hp as He2. apply prefix_cons_inv_2 in Hp.
    apply prefix_cons_inv_1 in Hp as He3. subst. done.
  - do 3 apply prefix_cons_inv_2 in Hp. by apply prefix_nil_not in Hp.
Qed.

Lemma tick_balanced i w : balanced (tickEvents i w).
Proof.
  rewrite (proj1 (tick_run i w)).
  repeat apply balanced_app.
  - apply balanced_neutral.
    eapply Forall_impl; [apply processKeys_events|]. by intros [].
  - apply balanced_neutral. destruct (HmdMounted i); repeat constructor.
  - apply balanced_neutral. destruct (menuExits i w); repeat constructor.
  - apply balanced_neutral. repeat constructor.
  - apply balanced_neutral.
    destruct (syncAudioVideo_events i (stateBeforeSync i w)) as [-> | ->];
      repeat constructor.
  - destruct (negb (delayNextFrame i w) && _ && _);
      [apply balanced_advance | by apply balanced_neutral].
  - apply balanced_neutral.
    destruct (isHidden (menu (session (stateBeforeSync i w)))); repeat constructor.
  - apply balanced_neutral. repeat constructor.
Qed.

Lemma loop_balanced ticks : ∀ w, balanced (eventsOf (mainLoopTicks ticks w)).
Proof.
  induction ticks as [|i ticks IH]; intros w.
  - by apply balanced_neutral.
  - rewrite mainLoopTicks_cons.
    destruct (negb (HandleMessages i)); [by apply balanced_neutral|].
    destruct (ShouldQuit i); [by apply balanced_neutral|].
    destruct (IsVisible i); [|apply IH].
    destruct (negb (OVR_SUCCESS (submitResult i))); rewrite eventsOf_mk.
    + apply tick_balanced.
    + apply balanced_app; [apply tick_balanced | apply IH].
Qed.

Lemma loop_frameEvents_single ticks : ∀ w,
  numFrames cfg = 1 → frameEvents (eventsOf (mainLoopTicks ticks w)) = [].
Proof.
  induction ticks as [|i ticks IH]; intros w Hn; [done|].
  assert (Ht : ∀ w', frameEvents (tickEvents i w') = []).
  { intros w'. rewrite tick_frameEvents, Hn. by rewrite andb_false_r. }
  rewrite mainLoopTicks_cons.
  destruct (negb (HandleMessages i)); [done|].
  destruct (ShouldQuit i); [done|].
  destruct (IsVisible i); [|by apply IH].
  destruct (negb (OVR_SUCCESS (submitResult i))); rewrite eventsOf_mk; [apply Ht|].
  unfold frameEvents in *. by rewrite List.filter_app, Ht, IH.
Qed.

Lemma setup_window :
  windowWithin readaheadDepth setupEvents ∧ inFlight setupEvents ≤ readaheadDepth.
Proof.
  unfold setupEvents, readaheadDepth.
  assert (Hbg : balanced (match FLAGS_background cfg with
                          | Some _ => [ReadBegin Background false; ReadEnd Background]
                          | None => []
                          end)).
  { apply balanced_neutral. destruct (FLAGS_background cfg); repeat constructor. }
  assert (Hau : balanced (if FLAGS_audio cfg then [SoundtrackLoad] else [])).
  { apply balanced_neutral. destruct (FLAGS_audio cfg); repeat constructor. }
  destruct Hbg as [Hbg Hbg0], Hau as [Hau Hau0].
  rewrite !inFlight_app, Hbg0, Hau0.
  split.
  - apply windowWithin_app.
    { eapply windowWithin_mono; [|exact Hbg]. by destruct (numFrames cfg =? 1). }
    rewrite Hbg0, Z.sub_0_r. apply windowWithin_app.
    + destruct (numFrames cfg =? 1); intros p Hp.
      * destruct p as [|e1 [|e2 [|e3 p]]].
        -- done.
        -- apply prefix_cons_inv_1 in Hp as ->. done.
        -- apply prefix_cons_inv_1 in Hp as He1. apply prefix_cons_inv_2 in Hp.
           apply prefix_cons_inv_1 in Hp as He2. subst. done.
        -- do 2 apply prefix_cons_inv_2 in Hp. by apply prefix_nil_not in Hp.
      * destruct p as [|e1 [|e2 [|e3 [|e4 p]]]].
        -- done.
        -- apply prefix_cons_inv_1 in Hp as ->. done.
        -- apply prefix_cons_inv_1 in Hp as He1. apply prefix_cons_inv_2 in Hp.
           apply prefix_cons_inv_1 in Hp as He2. subst. done.
        -- apply prefix_cons_inv_1 in Hp as He1. apply prefix_cons_inv_2 in Hp.
           apply prefix_cons_inv_1 in Hp as He2. apply prefix_cons_inv_2 in Hp.
           apply prefix_cons_inv_1 in Hp as He3. subst. done.
        -- do 3 apply prefix_cons_inv_2 in Hp. by apply prefix_nil_not in Hp.
    + eapply windowWithin_mono; [|exact Hau]. by destruct (numFrames cfg =? 1).
  - by destruct (numFrames cfg =? 1).
Qed.

(** C3.  At every point of a session at most 3 loads of the video are in
    flight, and at most 1 for a single-frame video; a single-frame video is
    loaded by one [readBegin]/[readEnd] pair in the setup and the main loop
    loads nothing; an iteration that advances retires the current frame,
    completes the oldest load and issues one new load, in this order, and an
    iteration that does not advance touches none of them. *)
Theorem readahead_window retry setup ticks st :
  (∀ p, p `prefix_of` snd (MainLoop retry setup ticks st) →
        inFlight p ≤ (if numFrames cfg =? 1 then 1 else 3)) ∧
  (numFrames cfg = 1 →
   frameEvents (snd (MainLoop retry setup ticks st)) =
     (if reachesLoop setup then [ReadBegin Video false; ReadEnd Video] else []) ∧
   ∀ ticks' w, frameEvents (eventsOf (mainLoopTicks ticks' w)) = []) ∧
  (∀ i w,
     frameEvents (tickEvents i w) =
       if negb (delayNextFrame i w) && negb (pause (statics (stateBeforeSync i w))) &&
          (1 <? numFrames cfg)
       then [DestroyFrame; ReadEnd Video; ReadBegin Video true] else []).
Proof.
  split; [|split].
  - destruct (reachesLoop setup) eqn:Hr.
    + rewrite MainLoop_reaches by done. cbn [snd].
      apply (windowWithin_app readaheadDepth); [apply setup_window|].
      eapply windowWithin_mono; [|apply loop_balanced].
      pose proof (proj2 setup_window). lia.
    + destruct (MainLoop_fails retry setup ticks st Hr) as (out & -> & _).
      intros p Hp. apply prefix_nil_inv in Hp as ->. by destruct (numFrames cfg =? 1).
  - intros Hn. split; [|intros; by apply loop_frameEvents_single].
    destruct (reachesLoop setup) eqn:Hr.
    + rewrite MainLoop_reaches by done. cbn [snd]. unfold frameEvents.
      rewrite List.filter_app.
      fold (frameEvents (eventsOf (mainLoopTicks ticks (loopEntry retry setup st)))).
      rewrite loop_frameEvents_single, app_nil_r by done.
      unfold setupEvents. rewrite Hn.
      by destruct (FLAGS_background cfg), (FLAGS_audio cfg).
    + by destruct (MainLoop_fails retry setup ticks st Hr) as (out & -> & _).
  - intros i w. apply tick_frameEvents.
Qed.

(** ** Headbox fade *)

(** The fade mode after the keys, and what the scene renderer is given. *)
Lemma tick_displacement i w :
  fade (statics (stateBeforeSync i w)) =
    (if keyActive i w (chr "H")
     then (if fade (statics w) =? 0 then kHeadboxFade else 0)
     else fade (statics w)) ∧
  List.filter isSceneRender (tickEvents i w) =
    (if isHidden (menu (session (stateBeforeSync i w))) then
       [SceneRender 0 (fmul (of_int (fade (statics (stateBeforeSync i w))))
                         (Length (eyePosition i 0)));
        SceneRender 1 (fmul (of_int (fade (statics (stateBeforeSync i w))))
                         (Length (eyePosition i 0)))]
     else []).
Proof. split; [apply stateBeforeSync_run | apply tick_sceneRenders]. Qed.

(** ** More on the key poller *)

Lemma StronglySorted_filter_lt (p : Z → bool) l :
  StronglySorted Z.lt l → StronglySorted Z.lt (List.filter p l).
Proof.
  induction 1 as [|a l Hs IH Ha]; cbn; [constructor|].
  destruct (p a); [|done]. constructor; [done|].
  apply List.Forall_forall. intros x [Hx _]%List.filter_In.
  by eapply List.Forall_forall in Ha.
Qed.

Lemma elem_of_List_filter {A} (p : A → bool) l x :
  x ∈ List.filter p l ↔ x ∈ l ∧ p x = true.
Proof. rewrite !list_elem_of_In. apply List.filter_In. Qed.

(** X1.  The keys a poll reports are in ascending order of their codes,
    whatever the order in which they went down; each is a key of interest
    that is down. *)
Theorem activeKeys_ascending Key d :
  StronglySorted Z.lt (snd (getAndUpdateActiveKeys Key d)) ∧
  Forall (λ c, c ∈ keysOfInterest ∧ Key c = true) (snd (getAndUpdateActiveKeys Key d)).
Proof.
  split.
  - rewrite (proj1 (getAndUpdateActiveKeys_spec Key d)).
    apply StronglySorted_filter_lt, keysOfInterest_sorted.
  - apply Forall_forall. intros c [Hc Hf]%activeKeys_iff. split; [done|].
    unfold fires in Hf. by apply andb_true_iff in Hf as [? _].
Qed.

Lemma stateBeforeSync_depressedKeys i w :
  depressedKeys (statics (stateBeforeSync i w)) =
    fst (getAndUpdateActiveKeys (Key i) (depressedKeys (statics w))).
Proof.
  unfold stateBeforeSync. run_simpl.
  rewrite (updateMenu_run i), (checkMounted_run i). run_simpl.
  assert (Hk : depressedKeys (statics (worldOf (processKeys i w))) =
               fst (getAndUpdateActiveKeys (Key i) (depressedKeys (statics w)))).
  { rewrite processKeys_run.
    rewrite (forEach_preserves _ (λ w, depressedKeys (statics w))); [done|].
    intros. apply handleKey_session. }
  rewrite <- Hk.
  by destruct (snd (menuUpdate _ _)), (HmdMounted i).
Qed.

Lemma afterTick_depressedKeys i w :
  depressedKeys (statics (afterTick i w)) =
    fst (getAndUpdateActiveKeys (Key i) (depressedKeys (statics w))).
Proof.
  rewrite (proj1 (proj2 (tick_run i w))), <- stateBeforeSync_depressedKeys.
  destruct (syncAudioVideo_frame i (stateBeforeSync i w)) as (_ & _ & _ & <- & _).
  by destruct (negb (OVR_SUCCESS (submitResult i))).
Qed.

Lemma afterTick_depressedKeys_iff i w c :
  c ∈ depressedKeys (statics (afterTick i w)) ↔
  (c ∈ keysOfInterest ∧ Key i c = true) ∨
  (c ∉ keysOfInterest ∧ c ∈ depressedKeys (statics w)).
Proof.
  rewrite afterTick_depressedKeys.
  apply (proj2 (getAndUpdateActiveKeys_spec (Key i) (depressedKeys (statics w)))).
Qed.

(** X2.  After an iteration of a visible session, [depressedKeys] holds, of
    the keys of interest, exactly those that are down; a key that is not of
    interest is neither added nor removed.  So once [depressedKeys] is within
    the keys of interest, as it is at the start, it is the set of keys of
    interest that were down at the last poll. *)
Theorem depressedKeys_after_tick i w :
  (∀ c, c ∈ depressedKeys (statics (afterTick i w)) ↔
        (c ∈ keysOfInterest ∧ Key i c = true) ∨
        (c ∉ keysOfInterest ∧ c ∈ depressedKeys (statics w))) ∧
  (depressedKeys (statics w) ⊆ list_to_set keysOfInterest →
   depressedKeys (statics (afterTick i w)) =
     list_to_set (List.filter (Key i) keysOfInterest)).
Proof.
  split; [apply afterTick_depressedKeys_iff|].
  intros Hsub. apply set_eq. intros c.
  rewrite afterTick_depressedKeys_iff, elem_of_list_to_set, elem_of_List_filter.
  split; [intros [?|[Hn Hc]]; [done|]|by left].
  apply Hsub in Hc. by rewrite elem_of_list_to_set in Hc.
Qed.

(** ** Navigation *)

Lemma forEach_fold {A X} (body : A → M unit) (π : World → X) (g : A → X → X) :
  (∀ x w, π (worldOf (body x w)) = g x (π w)) →
  ∀ l w, π (worldOf (forEach body l w)) = foldl (λ x k, g k x) (π w) l.
Proof.
  intros Hb. induction l as [|k l IH]; intros w; [done|].
  by rewrite worldOf_forEach_cons, IH, Hb.
Qed.

Lemma foldl_List_filter {A X} (g : A → X → X) (p : A → bool) l : ∀ x,
  foldl (λ x k, g k x) x (List.filter p l) = foldl (λ x k, applyIf (p k) (g k) x) x l.
Proof.
  induction l as [|k l IH]; intros x; [done|]. cbn. unfold applyIf at 2.
  by destruct (p k); cbn.
Qed.

Lemma applyIf_id {X} (b : bool) (f : X → X) x : (∀ x, f x = x) → applyIf b f x = x.
Proof. intros Hf. unfold applyIf. by destruct b. Qed.

Lemma handleKey_pose i key w : pose (worldOf (handleKey i key w)) = navigate key (pose w).
Proof.
  destruct (Z.eqb_spec key (chr " ")) as [->|Hne].
  - rewrite handleKey_space. unfold togglePause, bind, read, write, pose.
    destruct w as [[t d p s f y ps] ses]; cbn. destruct p; [destruct s|]; cbn; done.
  - unfold navigate, pose. handleKey_cases; done.
Qed.

Lemma fires_level Key d c : c ∉ keysActiveOnlyOnKeyPress → fires Key d c = Key c.
Proof.
  intros Hc. unfold fires. rewrite (bool_decide_eq_true_2 (c ∉ keysActiveOnlyOnKeyPress)) by done.
  by rewrite orb_true_r, andb_true_r.
Qed.

Lemma processKeys_pose i w :
  pose (worldOf (processKeys i w)) =
    foldl (λ x k, applyIf (fires (Key i) (depressedKeys (statics w)) k) (navigate k) x)
      (pose w) keysOfInterest.
Proof.
  rewrite processKeys_run, (forEach_fold _ pose navigate) by (intros; apply handleKey_pose).
  rewrite (proj1 (getAndUpdateActiveKeys_spec _ _)).
  by rewrite (foldl_List_filter navigate).
Qed.

Lemma afterTick_pose i w : pose (afterTick i w) = pose (worldOf (processKeys i w)).
Proof.
  rewrite (proj1 (proj2 (tick_run i w))). unfold stateBeforeSync. run_simpl.
  rewrite syncAudioVideo_run, (updateMenu_run i), (checkMounted_run i). run_simpl.
  set (w1 := worldOf (processKeys i w)).
  destruct (negb (OVR_SUCCESS (submitResult i))), (snd (menuUpdate _ _)), (HmdMounted i);
    cbn [id]; repeat case_match; reflexivity.
Qed.

Lemma navigate_edge k x : k ∈ keysActiveOnlyOnKeyPress → navigate k x = x.
Proof.
  unfold keysActiveOnlyOnKeyPress. rewrite elem_of_list_to_set, !elem_of_cons, elem_of_nil.
  destruct x as [yaw pos]. intros [->|[->|[->|[->|[->|[]]]]]]; reflexivity.
Qed.

(** X3.  What an iteration of a visible session does to [Yaw] and [Pos2]:
    LEFT adds 0.02 to [Yaw] and RIGHT then subtracts 0.02; each movement key
    that is down adds one step of 0.05 to [Pos2], in the order UP, DOWN, A,
    D, S, W.  The step of UP is taken along the heading before RIGHT is
    applied, the others along the final heading; W and UP held together
    move twice.  Nothing else in the iteration (recentering included)
    touches the two. *)
Theorem navigation_per_tick i w :
  let yawL :=
    if Key i VK_LEFT then fadd (Yaw (statics w)) (of_decimal 2 2) else Yaw (statics w) in
  let yaw' := if Key i VK_RIGHT then fsub yawL (of_decimal 2 2) else yawL in
  Yaw (statics (afterTick i w)) = yaw' ∧
  Pos2 (statics (afterTick i w)) =
    moved (Key i (chr "W")) yaw' (of_int 0) (of_decimal (-5) 2)
   (moved (Key i (chr "S")) yaw' (of_int 0) (of_decimal 5 2)
   (moved (Key i (chr "D")) yaw' (of_decimal 5 2) (of_int 0)
   (moved (Key i (chr "A")) yaw' (of_decimal (-5) 2) (of_int 0)
   (moved (Key i VK_DOWN) yaw' (of_int 0) (of_decimal 5 2)
   (moved (Key i VK_UP) yawL (of_int 0) (of_decimal (-5) 2) (Pos2 (statics w))))))).
Proof.
  intros yawL yaw'.
  pose proof (afterTick_pose i w) as H. rewrite processKeys_pose in H.
  unfold keysOfInterest in H. cbn [foldl] in H.
  rewrite (applyIf_id _ (navigate (chr " "))), (applyIf_id _ (navigate (chr "B"))),
    (applyIf_id _ (navigate (chr "C"))), (applyIf_id _ (navigate (chr "H"))),
    (applyIf_id _ (navigate (chr "M"))) in H
    by (intros; apply navigate_edge; vm_compute; set_solver).
  rewrite (fires_level _ _ VK_LEFT), (fires_level _ _ VK_UP), (fires_level _ _ VK_RIGHT),
    (fires_level _ _ VK_DOWN), (fires_level _ _ (chr "A")), (fires_level _ _ (chr "D")),
    (fires_level _ _ (chr "S")), (fires_level _ _ (chr "W")) in H
    by (vm_compute; set_solver).
  pose proof (f_equal fst H) as Hy. pose proof (f_equal snd H) as Hp.
  unfold pose at 1 in Hy. unfold pose at 1 in Hp. cbn [fst snd] in Hy, Hp.
  rewrite Hy, Hp. subst yaw' yawL. unfold moved, pose, applyIf. clear H Hy Hp.
  destruct (Key i VK_LEFT), (Key i VK_UP), (Key i VK_RIGHT); cbn;
    destruct (Key i VK_DOWN), (Key i (chr "A")), (Key i (chr "D"));
    destruct (Key i (chr "S")), (Key i (chr "W")); split; reflexivity.
Qed.

(** ** Invariants of the main loop *)

(** What every iteration preserves, the loop preserves. *)
Lemma mainLoopTicks_preserves (P : World → Prop) :
  (∀ i w, P w → P (afterTick i w)) →
  (∀ w, P w → P (with_session (set_retryCreate false) w)) →
  ∀ ticks w, P w → P (worldOf (mainLoopTicks ticks w)).
Proof.
  intros Htick Hquit. induction ticks as [|i ticks IH]; intros w Hw; [done|].
  rewrite mainLoopTicks_cons.
  destruct (negb (HandleMessages i)); [done|].
  destruct (ShouldQuit i); [by apply Hquit|].
  destruct (IsVisible i); [|by apply IH].
  destruct (negb (OVR_SUCCESS (submitResult i))); [by apply Htick|].
  rewrite worldOf_mk. by apply IH, Htick.
Qed.

Lemma MainLoop_preserves (P : Statics → Prop) :
  (∀ i w, P (statics w) → P (statics (afterTick i w))) →
  ∀ retry setup ticks st, P st → P (snd (fst (MainLoop retry setup ticks st))).
Proof.
  intros Htick retry setup ticks st Hst. destruct (reachesLoop setup) eqn:Hr.
  - rewrite MainLoop_reaches by done. cbn [fst snd].
    by apply (mainLoopTicks_preserves (λ w, P (statics w))).
  - by destruct (MainLoop_fails retry setup ticks st Hr) as (out & -> & _).
Qed.

Lemma Run_preserves (P : Statics → Prop) :
  (∀ i w, P (statics w) → P (statics (afterTick i w))) →
  ∀ sessions st, P st → P (snd (fst (Run sessions st))).
Proof.
  intros Htick. induction sessions as [|[setup ticks] sessions IH]; intros st Hst; [done|].
  cbn [Run]. pose proof (MainLoop_preserves P Htick true setup ticks st Hst) as H.
  destruct (MainLoop true setup ticks st) as [[out st'] evs]. cbn [fst snd] in H.
  destruct out as [[]| |]; [|done..].
  specialize (IH st' H). by destruct (Run sessions st') as [[out' st''] evs'].
Qed.

Lemma afterTick_fade i w :
  fade (statics (afterTick i w)) =
    if keyActive i w (chr "H")
    then (if fade (statics w) =? 0 then kHeadboxFade else 0)
    else fade (statics w).
Proof.
  rewrite (proj1 (proj2 (tick_run i w))).
  destruct (stateBeforeSync_run i w) as (_ & _ & <- & _).
  destruct (syncAudioVideo_frame i (stateBeforeSync i w)) as (_ & _ & <- & _).
  by destruct (negb (OVR_SUCCESS (submitResult i))).
Qed.

Lemma afterTick_staticsInvariant i w :
  staticsInvariant (statics w) → staticsInvariant (statics (afterTick i w)).
Proof.
  intros [Hf Hd]. split.
  - rewrite afterTick_fade. destruct (keyActive i w (chr "H")); [|done].
    destruct Hf as [-> | ->]; [by right | by left].
  - intros c. rewrite afterTick_depressedKeys_iff, elem_of_list_to_set.
    intros [[? _]|[Hn Hc]]; [done|]. apply Hd in Hc. by rewrite elem_of_list_to_set in Hc.
Qed.

(** X4.  The fade mode is [kHeadboxFade] or 0, and [depressedKeys] holds keys
    of interest only: this is so for the initial values of the statics, and
    an invocation of [MainLoop], whatever its inputs and however it ends,
    leaves it so; hence it is so across the re-entries made by
    [Platform.Run]. *)
Theorem statics_invariant :
  staticsInvariant initialStatics ∧
  (∀ retry setup ticks st,
     staticsInvariant st → staticsInvariant (snd (fst (MainLoop retry setup ticks st)))) ∧
  (∀ sessions, staticsInvariant (snd (fst (Run sessions initialStatics)))).
Proof.
  assert (H0 : staticsInvariant initialStatics) by (split; [by left | set_solver]).
  split; [exact H0|]. split.
  - apply MainLoop_preserves, afterTick_staticsInvariant.
  - intros sessions. by apply Run_preserves; [apply afterTick_staticsInvariant|].
Qed.

(** ** The menu is asked to fade out once *)

Lemma filter_filter_implied {A} (p q : A → bool) l :
  (∀ e, p e = true → q e = true) → List.filter p (List.filter q l) = List.filter p l.
Proof.
  intros Hpq. induction l as [|e l IH]; [done|]. cbn.
  destruct (q e) eqn:Hq; cbn; [by rewrite IH|].
  destruct (p e) eqn:Hp; [|done]. apply Hpq in Hp. congruence.
Qed.

Lemma afterTick_started i w :
  started (statics (afterTick i w)) =
    started (statics w) || (keyActive i w (chr " ") && pause (statics w)).
Proof.
  rewrite (proj1 (proj2 (tick_run i w))).
  destruct (syncAudioVideo_frame i (stateBeforeSync i w)) as (_ & Hs & _).
  destruct (stateBeforeSync_run i w) as (_ & Hpb & _). cbn zeta in Hpb.
  unfold playback at 1 in Hpb. injection Hpb as _ Hst _ _.
  assert (started (statics (afterTick i w)) = started (statics (stateBeforeSync i w))) as Ha.
  { rewrite (proj1 (proj2 (tick_run i w))), <- Hs.
    by destruct (negb (OVR_SUCCESS (submitResult i))). }
  rewrite (proj1 (proj2 (tick_run i w))) in Ha. rewrite Ha, Hst.
  unfold playback, togglePlayback.
  by destruct (keyActive i w (chr " ")), (pause (statics w)), (started (statics w)).
Qed.

Lemma tick_startFadeOut i w :
  List.filter isStartFadeOut (tickEvents i w) =
    if keyActive i w (chr " ") && pause (statics w) && negb (started (statics w))
    then [MenuStartFadeOut] else [].
Proof.
  rewrite (proj1 (tick_run i w)), !List.filter_app.
  rewrite <- (filter_filter_implied isStartFadeOut isPlaybackEvent (eventsOf (processKeys i w)))
    by (by intros []).
  rewrite processKeys_playback_events.
  assert (List.filter isStartFadeOut (eventsOf (syncAudioVideo i (stateBeforeSync i w))) = [])
    as ->.
  { by destruct (syncAudioVideo_events i (stateBeforeSync i w)) as [-> | ->]. }
  unfold toggleEvents, playback.
  destruct (keyActive i w (chr " ")), (pause (statics w)), (started (statics w)),
    (HmdMounted i), (menuExits i w), (isHidden (menu (session (stateBeforeSync i w))));
    cbn [List.filter isStartFadeOut app andb negb];
    (destruct (negb (delayNextFrame i w) && negb (pause (statics (stateBeforeSync i w))) &&
               (1 <? numFrames cfg)); reflexivity).
Qed.

Lemma tick_startFadeOut_count i w :
  Z.of_nat (length (List.filter isStartFadeOut (tickEvents i w))) =
    Z.b2z (started (statics (afterTick i w))) - Z.b2z (started (statics w)).
Proof.
  rewrite tick_startFadeOut, afterTick_started.
  by destruct (keyActive i w (chr " ")), (pause (statics w)), (started (statics w)).
Qed.

Lemma loop_startFadeOut_count ticks : ∀ w,
  Z.of_nat (length (List.filter isStartFadeOut (eventsOf (mainLoopTicks ticks w)))) =
    Z.b2z (started (statics (worldOf (mainLoopTicks ticks w)))) - Z.b2z (started (statics w)).
Proof.
  induction ticks as [|i ticks IH]; intros w; [cbn; lia|].
  rewrite mainLoopTicks_cons.
  destruct (negb (HandleMessages i)); [cbn; lia|].
  destruct (ShouldQuit i); [cbn; lia|].
  destruct (IsVisible i); [|apply IH].
  pose proof (tick_startFadeOut_count i w) as Ht.
  destruct (negb (OVR_SUCCESS (submitResult i))); [by rewrite worldOf_mk, eventsOf_mk|].
  rewrite worldOf_mk, eventsOf_mk, List.filter_app, length_app, Nat2Z.inj_add, IH. lia.
Qed.

Lemma setupEvents_startFadeOut : List.filter isStartFadeOut setupEvents = [].
Proof.
  unfold setupEvents.
  by destruct (FLAGS_background cfg), (numFrames cfg =? 1), (FLAGS_audio cfg).
Qed.

Lemma MainLoop_startFadeOut_count retry setup ticks st :
  Z.of_nat (length (List.filter isStartFadeOut (snd (MainLoop retry setup ticks st)))) =
    Z.b2z (started (snd (fst (MainLoop retry setup ticks st)))) - Z.b2z (started st).
Proof.
  destruct (reachesLoop setup) eqn:Hr.
  - rewrite MainLoop_reaches by done. cbn [fst snd].
    rewrite List.filter_app, setupEvents_startFadeOut. cbn [app].
    apply loop_startFadeOut_count.
  - destruct (MainLoop_fails retry setup ticks st Hr) as (out & -> & _). cbn. lia.
Qed.

(** X5.  [menu.startFadeOut()] is called as often as [started] goes from
    false to true, in one invocation of [MainLoop] and over the invocations
    made by [Platform.Run]: at most once since the program started, and never
    in an invocation entered with [started] set, such as a re-entry after
    the display was lost once playback had started.  [started] is never
    cleared. *)
Theorem startFadeOut_once :
  (∀ retry setup ticks st,
     Z.of_nat (length (List.filter isStartFadeOut (snd (MainLoop retry setup ticks st)))) =
       Z.b2z (started (snd (fst (MainLoop retry setup ticks st)))) - Z.b2z (started st)) ∧
  (∀ sessions st,
     Z.of_nat (length (List.filter isStartFadeOut (snd (Run sessions st)))) =
       Z.b2z (started (snd (fst (Run sessions st)))) - Z.b2z (started st)) ∧
  (∀ retry setup ticks st,
     started st = true →
     started (snd (fst (MainLoop retry setup ticks st))) = true ∧
     MenuStartFadeOut ∉ snd (MainLoop retry setup ticks st)).
Proof.
  split; [apply MainLoop_startFadeOut_count|]. split.
  - induction sessions as [|[setup ticks] sessions IH]; intros st; [cbn; lia|].
    cbn [Run]. pose proof (MainLoop_startFadeOut_count true setup ticks st) as H.
    destruct (MainLoop true setup ticks st) as [[out st'] evs]. cbn [fst snd] in H.
    destruct out as [[]| |]; [|done..].
    specialize (IH st'). destruct (Run sessions st') as [[out' st''] evs'].
    cbn [fst snd] in *. rewrite List.filter_app, length_app, Nat2Z.inj_add. lia.
  - intros retry setup ticks st Hs.
    pose proof (MainLoop_startFadeOut_count retry setup ticks st) as H. rewrite Hs in H.
    destruct (started (snd (fst (MainLoop retry setup ticks st)))); cbn in H; [|lia].
    split; [done|]. intros Hin.
    assert (MenuStartFadeOut ∈
              List.filter isStartFadeOut (snd (MainLoop retry setup ticks st))) as Hf
      by (by apply elem_of_List_filter).
    destruct (List.filter isStartFadeOut _); [by apply elem_of_nil in Hf|cbn in H; lia].
Qed.

(** ** Frame indices *)

Lemma tick_submits i w :
  List.filter isSubmit (tickEvents i w) = [SubmitFrame (frameIndex (session w))] ∧
  frameIndex (session (afterTick i w)) =
    frameIndex (session w) + (if OVR_SUCCESS (submitResult i) then 1 else 0).
Proof.
  destruct (stateBeforeSync_run i w) as (_ & _ & _ & Hfi & _).
  destruct (syncAudioVideo_frame i (stateBeforeSync i w)) as (_ & _ & _ & _ & Hs).
  split.
  - rewrite (proj1 (tick_run i w)), !List.filter_app, Hfi.
    rewrite (filter_none isSubmit isKeyEvent _ (processKeys_events i w)) by (by intros []).
    assert (List.filter isSubmit (eventsOf (syncAudioVideo i (stateBeforeSync i w))) = [])
      as ->.
    { by destruct (syncAudioVideo_events i (stateBeforeSync i w)) as [-> | ->]. }
    destruct (HmdMounted i), (menuExits i w), (isHidden (menu (session (stateBeforeSync i w))));
      cbn [List.filter isSubmit app];
      (destruct (negb (delayNextFrame i w) && negb (pause (statics (stateBeforeSync i w))) &&
                 (1 <? numFrames cfg)); reflexivity).
  - rewrite (proj1 (proj2 (tick_run i w))), <- Hfi, <- Hs.
    destruct (OVR_SUCCESS (submitResult i)); cbn; lia.
Qed.

Lemma loop_submits ticks : ∀ w,
  ∃ k : nat,
    List.filter isSubmit (eventsOf (mainLoopTicks ticks w)) =
      SubmitFrame <$> seqZ (frameIndex (session w)) (Z.of_nat k) ∧
    frameIndex (session w) + Z.of_nat k - 1 ≤
      frameIndex (session (worldOf (mainLoopTicks ticks w))) ≤
      frameIndex (session w) + Z.of_nat k.
Proof.
  induction ticks as [|i ticks IH]; intros w; [exists 0%nat; cbn; split; [done|lia]|].
  rewrite mainLoopTicks_cons.
  destruct (negb (HandleMessages i)); [exists 0%nat; cbn; split; [done|lia]|].
  destruct (ShouldQuit i); [exists 0%nat; cbn; split; [done|lia]|].
  destruct (IsVisible i); [|apply IH].
  destruct (tick_submits i w) as [He Hf].
  destruct (negb (OVR_SUCCESS (submitResult i))) eqn:Hsub.
  - exists 1%nat. rewrite worldOf_mk, eventsOf_mk, He, Hf. split; [done|].
    destruct (OVR_SUCCESS (submitResult i)); lia.
  - destruct (IH (afterTick i w)) as (k & Hk & Hb). exists (S k).
    rewrite worldOf_mk, eventsOf_mk, List.filter_app, He, Hk.
    apply negb_false_iff in Hsub. rewrite Hsub in Hf. rewrite Hf in Hb |- *.
    split; [|lia].
    rewrite (seqZ_cons _ (Z.of_nat (S k))) by lia. cbn [fmap list_fmap app].
    do 3 f_equal; lia.
Qed.

(** X6.  The frame index given to [ovr_SubmitFrame] counts the frames
    submitted before in the invocation: an iteration of a visible session
    submits exactly once, with the current [frameIndex], and the submissions
    of an invocation carry the indices 0, 1, 2, ... in this order. *)
Theorem frame_indices_count_submissions :
  (∀ i w, List.filter isSubmit (tickEvents i w) = [SubmitFrame (frameIndex (session w))]) ∧
  (∀ retry setup ticks st,
     ∃ k : nat,
       List.filter isSubmit (snd (MainLoop retry setup ticks st)) =
         SubmitFrame <$> seqZ 0 (Z.of_nat k)).
Proof.
  split; [intros; apply tick_submits|].
  intros retry setup ticks st. destruct (reachesLoop setup) eqn:Hr.
  - rewrite MainLoop_reaches by done. cbn [snd].
    destruct (loop_submits ticks (loopEntry retry setup st)) as (k & Hk & _).
    exists k. rewrite List.filter_app, Hk.
    assert (List.filter isSubmit setupEvents = []) as ->; [|done].
    unfold setupEvents.
    by destruct (FLAGS_background cfg), (numFrames cfg =? 1), (FLAGS_audio cfg).
  - destruct (MainLoop_fails retry setup ticks st Hr) as (out & -> & _). by exists 0%nat.
Qed.

(** ** How the loop is left *)

(** The iteration at which the loop is left, and what it leaves in
    [retryCreate] and [result]. *)
Lemma loop_exit ticks : ∀ w w1 e1,
  mainLoopTicks ticks w = (Some tt, w1, e1) →
  OVR_SUCCESS (result (session w)) = true →
  ∃ before i rest,
    ticks = before ++ i :: rest ∧
    valueOf (mainLoopTicks before w) = None ∧
    ((HandleMessages i = false ∧
      retryCreate (session w1) = retryCreate (session w) ∧
      OVR_SUCCESS (result (session w1)) = true) ∨
     (HandleMessages i = true ∧ ShouldQuit i = true ∧
      retryCreate (session w1) = false ∧
      OVR_SUCCESS (result (session w1)) = true) ∨
     (HandleMessages i = true ∧ ShouldQuit i = false ∧ IsVisible i = true ∧
      OVR_SUCCESS (submitResult i) = false ∧
      retryCreate (session w1) = retryCreate (session w) ∧
      result (session w1) = submitResult i)).
Proof.
  induction ticks as [|i ticks IH]; intros w w1 e1 Hrun Hres; [done|].
  rewrite mainLoopTicks_cons in Hrun.
  destruct (HandleMessages i) eqn:Hhm; cbn [negb] in Hrun.
  2: { injection Hrun as <- _. exists [], i, ticks. split; [done|]. split; [done|]. by left. }
  destruct (ShouldQuit i) eqn:Hq.
  { injection Hrun as <- _. exists [], i, ticks. split; [done|]. split; [done|].
    right; left. done. }
  destruct (IsVisible i) eqn:Hv.
  - destruct (afterTick_session i w) as [Hrc Hre].
    destruct (OVR_SUCCESS (submitResult i)) eqn:Hsub; cbn [negb] in Hrun.
    + destruct (mainLoopTicks ticks (afterTick i w)) as [[o w'] e'] eqn:Hb.
      rewrite valueOf_mk, worldOf_mk, eventsOf_mk in Hrun. injection Hrun as -> -> <-.
      destruct (IH _ _ _ Hb) as (before & j & rest & -> & Hbefore & Hcases).
      { by rewrite Hre. }
      exists (i :: before), j, rest. split; [done|]. split.
      * rewrite mainLoopTicks_cons, Hhm, Hq, Hv, Hsub. cbn [negb]. by rewrite valueOf_mk.
      * rewrite Hrc in Hcases. exact Hcases.
    + injection Hrun as <- _. exists [], i, ticks. split; [done|]. split; [done|].
      right; right. done.
  - destruct (IH _ _ _ Hrun Hres) as (before & j & rest & -> & Hbefore & Hcases).
    exists (i :: before), j, rest. split; [done|]. split; [|exact Hcases].
    by rewrite mainLoopTicks_cons, Hhm, Hq, Hv.
Qed.

Lemma MainLoop_prefix_running retry setup before st :
  reachesLoop setup = true →
  valueOf (mainLoopTicks before (loopEntry retry setup st)) = None →
  fst (fst (MainLoop retry setup before st)) = Running.
Proof.
  intros Hr Hb. rewrite MainLoop_reaches by done. by rewrite Hb.
Qed.

(** When the setup fails, [MainLoop] returns the [retryCreate] it was given
    or the program is aborted; with [retryCreate] set, only the check of the
    background video aborts it. *)
Lemma MainLoop_fails_outcome retry setup ticks st :
  reachesLoop setup = false →
  fst (fst (MainLoop retry setup ticks st)) = Returned retry ∨
  (fst (fst (MainLoop retry setup ticks st)) = Aborted ∧
   (retry = false ∨ ∃ n, FLAGS_background cfg = Some n ∧ n ≠ 1)).
Proof.
  unfold reachesLoop, MainLoop, mainLoopBody. intros H.
  destruct (OVR_SUCCESS (createResult setup)) eqn:Hc; [|by left]. cbn [negb andb] in *.
  assert (Hne : (createResult setup =? ovrError_DisplayLost) = false).
  { apply Z.eqb_neq. apply Z.leb_le in Hc. unfold ovrError_DisplayLost. lia. }
  unfold bind at 1. rewrite readSession_run. cbn [session newSession retryCreate].
  destruct (initDeviceOk setup); cbn [negb andb] in *.
  2: { left. unfold done, bind, readSession, ret. cbn. by rewrite Hne, orb_false_r. }
  destruct (eyeChainsOk setup 0); cbn [negb andb] in *.
  2: { destruct retry; [left|right; split; [done|by left]].
       unfold done, bind, readSession, ret. by cbn. }
  destruct (eyeChainsOk setup 1); cbn [negb andb] in *.
  2: { destruct retry; [left|right; split; [done|by left]].
       unfold done, bind, readSession, ret. by cbn. }
  unfold bind at 1. rewrite writeSession_run.
  destruct (OVR_SUCCESS (mirrorResult setup)); cbn [negb andb] in *.
  2: { destruct retry; [left|right; split; [done|by left]].
       unfold done, bind, readSession, ret. by cbn. }
  unfold loadBackground. destruct (FLAGS_background cfg) as [n|]; [|done].
  rewrite H. right. split; [done|]. right. exists n. split; [done|].
  by apply Z.eqb_neq.
Qed.

(** X7.  [MainLoop] returns a value other than the [retryCreate] it was
    given in two cases only.  Given true, it returns false only when an
    iteration observed [ShouldQuit]; no failure of the setup or of a frame
    submission, and no closing of the window, makes it return false.  Given
    false, it returns true only when a frame submission failed with
    [ovrError_DisplayLost]. *)
Theorem result_differs_from_retryCreate retry setup ticks st :
  fst (fst (MainLoop retry setup ticks st)) = Returned (negb retry) →
  ∃ before i rest,
    ticks = before ++ i :: rest ∧
    fst (fst (MainLoop retry setup before st)) = Running ∧
    HandleMessages i = true ∧
    if retry then ShouldQuit i = true
    else ShouldQuit i = false ∧ IsVisible i = true ∧ submitResult i = ovrError_DisplayLost.
Proof.
  intros Hrun. destruct (reachesLoop setup) eqn:Hr.
  2: { destruct (MainLoop_fails_outcome retry setup ticks st Hr) as [H|[H _]];
         rewrite Hrun in H; [by destruct retry | done]. }
  rewrite MainLoop_reaches in Hrun by done. cbn [fst] in Hrun.
  destruct (mainLoopTicks ticks (loopEntry retry setup st)) as [[[[]|] w1] e1] eqn:Hloop;
    rewrite valueOf_mk, ?worldOf_mk in Hrun; [|done].
  injection Hrun as Hret.
  destruct (loop_exit _ _ _ _ Hloop (loopEntry_result retry setup st Hr))
    as (before & i & rest & -> & Hbefore & Hcases).
  exists before, i, rest. split; [done|].
  split; [by apply MainLoop_prefix_running|].
  assert (Hrc0 : retryCreate (session (loopEntry retry setup st)) = retry) by done.
  rewrite Hrc0 in Hcases.
  destruct Hcases as [(Hhm & Hrc & Hres)|[(Hhm & Hq & Hrc & Hres)|(Hhm & Hq & Hv & Hsub & Hrc & Hres)]].
  - exfalso. rewrite Hrc in Hret.
    replace (result (session w1) =? ovrError_DisplayLost) with false in Hret.
    + by destruct retry.
    + symmetry. apply Z.eqb_neq. apply Z.leb_le in Hres. unfold ovrError_DisplayLost. lia.
  - split; [done|]. rewrite Hrc in Hret.
    replace (result (session w1) =? ovrError_DisplayLost) with false in Hret.
    + by destruct retry.
    + symmetry. apply Z.eqb_neq. apply Z.leb_le in Hres. unfold ovrError_DisplayLost. lia.
  - split; [done|]. rewrite Hrc, Hres in Hret. destruct retry; [done|].
    cbn [orb negb] in Hret. by apply Z.eqb_eq in Hret.
Qed.


(** ** Loads in flight, from below *)

Lemma neverBelow_app d a b :
  neverBelow d a → neverBelow (d - inFlight a) b → neverBelow d (a ++ b).
Proof.
  intros Ha Hb p Hp. destruct (prefix_app_split a b p Hp) as [Hl | (q & -> & Hq)].
  - by apply Ha.
  - rewrite inFlight_app. specialize (Hb q Hq). lia.
Qed.

Lemma neverBelow_mono d d' evs : d' ≤ d → neverBelow d evs → neverBelow d' evs.
Proof. intros Hd H p Hp. specialize (H p Hp). lia. Qed.

Lemma neverBelow_neutral evs :
  Forall (λ e, isVideoLoad e = false) evs → neverBelow 0 evs.
Proof.
  intros H p [k ->]. apply Forall_app in H as [H _]. by rewrite inFlight_neutral.
Qed.

Lemma neverBelow_advance : neverBelow (-1) advanceEvents.
Proof.
  intros p Hp. unfold advanceEvents in Hp.
  destruct p as [|e1 [|e2 [|e3 [|e4 p]]]].
  - done.
  - apply prefix_cons_inv_1 in Hp as ->. done.
  - apply prefix_cons_inv_1 in Hp as He1. apply prefix_cons_inv_2 in Hp.
    apply prefix_cons_inv_1 in Hp as He2. subst. done.
  - apply prefix_cons_inv_1 in Hp as He1. apply prefix_cons_inv_2 in Hp.
    apply prefix_cons_inv_1 in Hp as He2. apply prefix_cons_inv_2 in Hp.
    apply prefix_cons_inv_1 in Hp as He3. subst. done.
  - do 3 apply prefix_cons_inv_2 in Hp. by apply prefix_nil_not in Hp.
Qed.

(** A stretch that dips by at most [d] loads and leaves the number in
    flight as it found it. *)
Lemma dip_app d a b :
  neverBelow d a ∧ inFlight a = 0 → neverBelow d b ∧ inFlight b = 0 →
  neverBelow d (a ++ b) ∧ inFlight (a ++ b) = 0.
Proof.
  intros [Ha Ha0] [Hb Hb0]. split.
  - apply neverBelow_app; [done|]. by rewrite Ha0, Z.sub_0_r.
  - rewrite inFlight_app. lia.
Qed.

Lemma dip_neutral d evs :
  d ≤ 0 → Forall (λ e, isVideoLoad e = false) evs → neverBelow d evs ∧ inFlight evs = 0.
Proof.
  intros Hd H. split; [|by apply inFlight_neutral].
  eapply neverBelow_mono; [|by apply neverBelow_neutral]. done.
Qed.

Lemma tick_dip i w : neverBelow loopDip (tickEvents i w) ∧ inFlight (tickEvents i w) = 0.
Proof.
  assert (Hd : loopDip ≤ 0) by (unfold loopDip; by destruct (1 <? numFrames cfg)).
  rewrite (proj1 (tick_run i w)).
  repeat apply dip_app.
  - apply dip_neutral; [done|].
    eapply Forall_impl; [apply processKeys_events|]. by intros [].
  - apply dip_neutral; [done|]. destruct (HmdMounted i); repeat constructor.
  - apply dip_neutral; [done|]. destruct (menuExits i w); repeat constructor.
  - apply dip_neutral; [done|]. repeat constructor.
  - apply dip_neutral; [done|].
    destruct (syncAudioVideo_events i (stateBeforeSync i w)) as [-> | ->];
      repeat constructor.
  - unfold loopDip. destruct (1 <? numFrames cfg).
    + rewrite andb_true_r. destruct (negb (delayNextFrame i w) && _).
      * split; [apply neverBelow_advance | done].
      * by apply dip_neutral.
    + rewrite andb_false_r. by apply dip_neutral.
  - apply dip_neutral; [done|].
    destruct (isHidden (menu (session (stateBeforeSync i w)))); repeat constructor.
  - apply dip_neutral; [done|]. repeat constructor.
Qed.

Lemma loop_dip ticks : ∀ w,
  neverBelow loopDip (eventsOf (mainLoopTicks ticks w)) ∧
  inFlight (eventsOf (mainLoopTicks ticks w)) = 0.
Proof.
  assert (Hd : loopDip ≤ 0) by (unfold loopDip; by destruct (1 <? numFrames cfg)).
  induction ticks as [|i ticks IH]; intros w.
  - by apply dip_neutral.
  - rewrite mainLoopTicks_cons.
    destruct (negb (HandleMessages i)); [by apply dip_neutral|].
    destruct (ShouldQuit i); [by apply dip_neutral|].
    destruct (IsVisible i); [|apply IH].
    destruct (negb (OVR_SUCCESS (submitResult i))); rewrite eventsOf_mk.
    + apply tick_dip.
    + apply dip_app; [apply tick_dip | apply IH].
Qed.

Lemma setup_loads :
  neverBelow 0 setupEvents ∧
  inFlight setupEvents = if numFrames cfg =? 1 then 0 else 3.
Proof.
  unfold setupEvents.
  assert (Hbg : Forall (λ e, isVideoLoad e = false)
                  (match FLAGS_background cfg with
                   | Some _ => [ReadBegin Background false; ReadEnd Background]
                   | None => []
                   end)).
  { destruct (FLAGS_background cfg); repeat constructor. }
  assert (Hau : Forall (λ e, isVideoLoad e = false)
                  (if FLAGS_audio cfg then [SoundtrackLoad] else [])).
  { destruct (FLAGS_audio cfg); repeat constructor. }
  rewrite !inFlight_app, (inFlight_neutral _ Hbg), (inFlight_neutral _ Hau).
  split.
  - apply neverBelow_app; [by apply neverBelow_neutral|].
    rewrite (inFlight_neutral _ Hbg), Z.sub_0_r.
    apply neverBelow_app.
    + intros p Hp. destruct (numFrames cfg =? 1).
      * destruct p as [|e1 [|e2 [|e3 p]]].
        -- done.
        -- apply prefix_cons_inv_1 in Hp as ->. done.
        -- apply prefix_cons_inv_1 in Hp as He1. apply prefix_cons_inv_2 in Hp.
           apply prefix_cons_inv_1 in Hp as He2. subst. done.
        -- do 2 apply prefix_cons_inv_2 in Hp. by apply prefix_nil_not in Hp.
      * destruct p as [|e1 [|e2 [|e3 [|e4 p]]]].
        -- done.
        -- apply prefix_cons_inv_1 in Hp as ->. done.
        -- apply prefix_cons_inv_1 in Hp as He1. apply prefix_cons_inv_2 in Hp.
           apply prefix_cons_inv_1 in Hp as He2. subst. done.
        -- apply prefix_cons_inv_1 in Hp as He1. apply prefix_cons_inv_2 in Hp.
           apply prefix_cons_inv_1 in Hp as He2. apply prefix_cons_inv_2 in Hp.
           apply prefix_cons_inv_1 in Hp as He3. subst. done.
        -- do 3 apply prefix_cons_inv_2 in Hp. by apply prefix_nil_not in Hp.
    + eapply neverBelow_mono; [|by apply neverBelow_neutral].
      destruct (numFrames cfg =? 1); cbn; lia.
  - destruct (numFrames cfg =? 1); cbn; lia.
Qed.

(** X9.  [readEnd] is never called on the video without a load in flight;
    in a session of a video with several frames the loads in flight, from
    the end of the setup on, are 3 or, within an advance, 2; and whenever
    [MainLoop] is left, or between two iterations, the 3 loads begun last
    are still in flight: [MainLoop] never completes them.  A single-frame
    video has none in flight after the setup. *)
Theorem loads_in_flight retry setup ticks st :
  neverBelow 0 (snd (MainLoop retry setup ticks st)) ∧
  (reachesLoop setup = true →
   inFlight (snd (MainLoop retry setup ticks st)) = (if numFrames cfg =? 1 then 0 else 3) ∧
   ∀ p, p `prefix_of` eventsOf (mainLoopTicks ticks (loopEntry retry setup st)) →
        inFlight (setupEvents ++ p) =
          (if numFrames cfg =? 1 then 0 else 3) + inFlight p ∧
        (if 1 <? numFrames cfg then -1 else 0) ≤ inFlight p ≤ 0).
Proof.
  destruct setup_loads as [Hs Hs0].
  assert (Hd : loopDip ≤ 0) by (unfold loopDip; by destruct (1 <? numFrames cfg)).
  split.
  - destruct (reachesLoop setup) eqn:Hr.
    + rewrite MainLoop_reaches by done. cbn [snd].
      apply neverBelow_app; [done|].
      eapply neverBelow_mono; [|apply loop_dip]. rewrite Hs0. unfold loopDip.
      destruct (Z.eqb_spec (numFrames cfg) 1) as [->|]; [done|].
      destruct (1 <? numFrames cfg); lia.
    + destruct (MainLoop_fails retry setup ticks st Hr) as (out & -> & _).
      intros p Hp. by apply prefix_nil_inv in Hp as ->.
  - intros Hr. rewrite MainLoop_reaches by done. cbn [snd].
    destruct (loop_dip ticks (loopEntry retry setup st)) as [Hl Hl0].
    split; [rewrite inFlight_app, Hs0, Hl0; lia|].
    intros p Hp. split; [by rewrite inFlight_app, Hs0|].
    split; [by apply Hl|].
    destruct (loop_balanced ticks (loopEntry retry setup st)) as [Hw _]. by apply Hw.
Qed.

(** ** Keys without a handler *)

Lemma agree_ret {A} (a : A) : agree (ret a) (ret a).
Proof. by intros w w' H. Qed.

Lemma agree_emit e : agree (emit e) (emit e).
Proof. by intros w w' H. Qed.

Lemma agree_bind {A B} (m m' : M A) (k k' : A → M B) :
  agree m m' → (∀ a, agree (k a) (k' a)) → agree (bind m k) (bind m' k').
Proof.
  intros Hm Hk w w' H. destruct (Hm w w' H) as (Hv & He & Hw).
  rewrite !valueOf_bind, !eventsOf_bind, !worldOf_bind, <- Hv, <- He.
  destruct (Hk (valueOf (m w)) _ _ Hw) as (Hv' & He' & Hw').
  by rewrite Hv', He'.
Qed.

Lemma agree_read {A} (f : Statics → A) :
  (∀ st, f (set_depressedKeys ∅ st) = f st) → agree (read f) (read f).
Proof.
  intros Hf w w' H. split; [|done]. rewrite !read_run, !valueOf_mk.
  destruct H as (_ & Hs & _). by rewrite <- (Hf (statics w)), Hs, Hf.
Qed.

Lemma agree_readSession {A} (f : Session → A) : agree (readSession f) (readSession f).
Proof. intros w w' H. split; [|done]. destruct H as [Hs _]. by rewrite !readSession_run, !valueOf_mk, Hs. Qed.

Lemma agree_write (g : Statics → Statics) :
  (∀ st, set_depressedKeys ∅ (g st) = g (set_depressedKeys ∅ st)) →
  (∀ st, depressedKeys (g st) = depressedKeys st) →
  agree (write g) (write g).
Proof.
  intros Hc Hd w w' (Hs & Hst & Hk). split; [done|]. split; [done|].
  rewrite !write_run, !worldOf_mk. split; [done|]. split.
  - cbn. by rewrite !Hc, Hst.
  - intros c Hc'. cbn. rewrite !Hd. by apply Hk.
Qed.

Lemma agree_writeSession (g : Session → Session) : agree (writeSession g) (writeSession g).
Proof.
  intros w w' (Hs & Hst). split; [done|]. split; [done|].
  rewrite !writeSession_run, !worldOf_mk. split; [|done]. cbn. by rewrite Hs.
Qed.

Lemma agree_forEach {A} (body : A → M unit) l :
  (∀ x, agree (body x) (body x)) → agree (forEach body l) (forEach body l).
Proof.
  intros Hb. induction l as [|x l IH]; [apply agree_ret|].
  cbn [forEach]. apply agree_bind; [apply Hb | intros _; apply IH].
Qed.

Ltac agree_step :=
  first
    [ apply agree_ret | apply agree_emit | apply agree_readSession | apply agree_writeSession
    | apply agree_read; reflexivity
    | apply agree_write; reflexivity
    | apply agree_bind; [|intros ?]
    | match goal with
      | |- agree (if ?b then _ else _) _ => destruct b
      | |- agree (let '(_, _) := ?x in _) _ => destruct x
      end ].

Lemma handleKey_agree i key : agree (handleKey i key) (handleKey i key).
Proof. unfold handleKey, move, togglePause. repeat agree_step. Qed.

Lemma tail_agree i :
  agree (checkMounted i ;;; updateMenu i ;;; emit SoundtrackUpdatePositionalTracking ;;;
         delayNextFrame <- syncAudioVideo i ;;
         advanceFrame delayNextFrame ;;;
         forEach (renderEye i) [0; 1] ;;;
         n <- readSession frameIndex ;;
         emit (SubmitFrame n) ;;;
         writeSession (set_result (submitResult i)) ;;;
         if negb (OVR_SUCCESS (submitResult i)) then ret true
         else writeSession (set_frameIndex (n + 1)) ;;; ret false)
        (checkMounted i ;;; updateMenu i ;;; emit SoundtrackUpdatePositionalTracking ;;;
         delayNextFrame <- syncAudioVideo i ;;
         advanceFrame delayNextFrame ;;;
         forEach (renderEye i) [0; 1] ;;;
         n <- readSession frameIndex ;;
         emit (SubmitFrame n) ;;;
         writeSession (set_result (submitResult i)) ;;;
         if negb (OVR_SUCCESS (submitResult i)) then ret true
         else writeSession (set_frameIndex (n + 1)) ;;; ret false).
Proof.
  unfold checkMounted, updateMenu, exitMenuCallback, syncAudioVideo, advanceFrame, renderEye.
  cbn [forEach]. repeat agree_step.
Qed.

Lemma forEach_without (body : Z → M unit) (k : Z) l :
  (∀ w, body k w = (tt, w, [])) →
  ∀ w, forEach body l w = forEach body (List.filter (λ x, negb (x =? k)) l) w.
Proof.
  intros Hk. induction l as [|x l IH]; intros w; [done|].
  cbn [forEach List.filter]. destruct (Z.eqb_spec x k) as [->|Hne]; cbn [negb forEach].
  - unfold bind. rewrite Hk, IH. by destruct (forEach _ _ _) as [[[] ?] ?].
  - unfold bind. destruct (body x w) as [[[] w1] e1]. by rewrite IH.
Qed.

Lemma handled_of_interest c : c ∈ keysOfInterest → c ≠ chr "M" → c ∈ handledKeys.
Proof.
  unfold keysOfInterest, handledKeys. rewrite !elem_of_cons, !elem_of_nil.
  intros H Hne. repeat (destruct H as [->|H]; [tauto|]). done.
Qed.

Lemma interest_of_handled c : c ∈ handledKeys → c ∈ keysOfInterest.
Proof.
  unfold keysOfInterest, handledKeys. rewrite !elem_of_cons, !elem_of_nil.
  intros H. repeat (destruct H as [->|H]; [tauto|]). done.
Qed.

Lemma filter_filter_ext {A} (p f f' : A → bool) l :
  (∀ x, x ∈ l → p x = true → f x = f' x) →
  List.filter p (List.filter f l) = List.filter p (List.filter f' l).
Proof.
  induction l as [|x l IH]; intros H; [done|]. cbn [List.filter].
  assert (IH' : List.filter p (List.filter f l) = List.filter p (List.filter f' l)).
  { apply IH. intros y Hy. apply H. by right. }
  destruct (p x) eqn:Hp.
  - rewrite <- (H x) by (done || left).
    destruct (f x); cbn [List.filter]; by rewrite ?Hp, IH'.
  - destruct (f x), (f' x); cbn [List.filter]; by rewrite ?Hp.
Qed.

Lemma activeKeys_sameHandled K K' d d' :
  sameHandled K K' →
  (∀ c, c ∈ handledKeys → c ∈ d ↔ c ∈ d') →
  List.filter (λ x, negb (x =? chr "M")) (snd (getAndUpdateActiveKeys K d)) =
  List.filter (λ x, negb (x =? chr "M")) (snd (getAndUpdateActiveKeys K' d')).
Proof.
  intros HK Hd. rewrite !(proj1 (getAndUpdateActiveKeys_spec _ _)).
  apply filter_filter_ext. intros c Hc Hne.
  assert (c ∈ handledKeys) as Hh.
  { apply handled_of_interest; [done|]. intros ->. done. }
  unfold fires. rewrite (HK c Hh). f_equal. f_equal. apply bool_decide_ext.
  specialize (Hd c Hh). tauto.
Qed.

Lemma processKeys_agree K i :
  sameHandled K (Key i) → agree (processKeys (withKeys K i)) (processKeys i).
Proof.
  intros HK w w' (Hs & Hst & Hd).
  rewrite !processKeys_run. cbn [Key withKeys].
  change (handleKey (withKeys K i)) with (handleKey i).
  rewrite (forEach_without (handleKey i) (chr "M")) by done.
  rewrite (forEach_without (handleKey i) (chr "M") (snd (getAndUpdateActiveKeys (Key i) _)))
    by done.
  rewrite (activeKeys_sameHandled K (Key i) _ (depressedKeys (statics w'))) by done.
  apply agree_forEach; [apply handleKey_agree|].
  split; [done|]. split; [exact Hst|].
  intros c Hc. cbn [statics with_statics depressedKeys set_depressedKeys].
  rewrite !depressed_iff by (by apply interest_of_handled). by rewrite (HK c Hc).
Qed.

Lemma visibleTick_agree K i :
  sameHandled K (Key i) → agree (visibleTick (withKeys K i)) (visibleTick i).
Proof.
  intros HK. unfold visibleTick.
  apply agree_bind; [by apply processKeys_agree|]. intros _. apply (tail_agree i).
Qed.

Lemma loop_agree Ks ticks :
  Forall2 (λ K i, sameHandled K (Key i)) Ks ticks →
  agree (mainLoopTicks (zip_with withKeys Ks ticks)) (mainLoopTicks ticks).
Proof.
  induction 1 as [|K i Ks ticks HK _ IH]; [apply agree_ret|].
  cbn [zip_with mainLoopTicks HandleMessages ShouldQuit IsVisible withKeys].
  destruct (negb (HandleMessages i)); [apply agree_ret|].
  destruct (ShouldQuit i); [repeat agree_step|].
  destruct (IsVisible i); [|exact IH].
  apply agree_bind; [by apply visibleTick_agree|].
  intros []; [apply agree_ret | exact IH].
Qed.

Lemma mainLoopBody_agree setup Ks ticks :
  Forall2 (λ K i, sameHandled K (Key i)) Ks ticks →
  agree (mainLoopBody setup (zip_with withKeys Ks ticks)) (mainLoopBody setup ticks).
Proof.
  intros H. unfold mainLoopBody, done, loadBackground, beginVideo, loadSoundtrack.
  cbn [forEach].
  repeat first
    [ by apply loop_agree
    | agree_step
    | match goal with |- agree (match ?x with _ => _ end) _ => destruct x end ].
Qed.

(** X10.  The keys without a handler are ignored: M, which is polled as
    a key of interest but has no [case] in the switch, and every key that is
    not of interest.  Two runs of [MainLoop] whose inputs differ only in the
    raw states of such keys return the same value and make the same calls,
    in the same order; their statics end up the same but for
    [depressedKeys], which differ at most in M and in keys that are not of
    interest. *)
Theorem unhandled_keys_ignored retry setup Ks ticks st st' :
  Forall2 (λ K i, sameHandled K (Key i)) Ks ticks →
  sameButKeys st' st →
  fst (fst (MainLoop retry setup (zip_with withKeys Ks ticks) st')) =
    fst (fst (MainLoop retry setup ticks st)) ∧
  snd (MainLoop retry setup (zip_with withKeys Ks ticks) st') =
    snd (MainLoop retry setup ticks st) ∧
  sameButKeys (snd (fst (MainLoop retry setup (zip_with withKeys Ks ticks) st')))
    (snd (fst (MainLoop retry setup ticks st))).
Proof.
  intros HK Hst. unfold MainLoop.
  destruct (negb (OVR_SUCCESS (createResult setup))); [done|].
  destruct (mainLoopBody_agree setup Ks ticks HK
              {| statics := st'; session := newSession cfg retry (createResult setup) |}
              {| statics := st; session := newSession cfg retry (createResult setup) |})
    as (Hv & He & _ & Hw); [done|].
  unfold valueOf, eventsOf, worldOf in *.
  destruct (mainLoopBody setup (zip_with withKeys Ks ticks) _) as [[out' w1'] e1'].
  destruct (mainLoopBody setup ticks _) as [[out w1] e1].
  cbn [fst snd] in *. done.
Qed.

(** ** Render targets: what is created is released *)

Lemma acquisitions_app a b : acquisitions (a ++ b) = acquisitions a ++ acquisitions b.
Proof. apply flat_map_app. Qed.

Lemma releases_app a b : releases (a ++ b) = releases a ++ releases b.
Proof. apply flat_map_app. Qed.

Lemma holds_nothing calls :
  Forall (λ c, acquired c = [] ∧ released c = []) calls →
  acquisitions calls = [] ∧ releases calls = [].
Proof.
  induction 1 as [|c calls [Ha Hr] _ [IHa IHr]]; [done|].
  unfold acquisitions, releases in *. cbn [flat_map]. by rewrite Ha, Hr, IHa, IHr.
Qed.

Lemma createChain_holds format size r :
  acquisitions (createChain format size r) =
    (if chainHandle r =? 0 then [] else [SwapChain (chainHandle r)]) ∧
  releases (createChain format size r) = [].
Proof.
  unfold createChain. rewrite acquisitions_app, releases_app.
  assert (H : Forall (λ c, acquired c = [] ∧ released c = [])
                (if OVR_SUCCESS (chainResult r) then
                   flat_map
                     (λ i, [ovr_GetTextureSwapChainBufferGL (chainHandle r) i;
                            glBindTexture (chainTexture r i);
                            glTexParameteri MinFilterLinear; glTexParameteri MagFilterLinear;
                            glTexParameteri WrapSClampToEdge; glTexParameteri WrapTClampToEdge])
                     (seqZ 0 (chainLength r))
                 else [])).
  { destruct (OVR_SUCCESS (chainResult r)); [|constructor].
    induction (seqZ 0 (chainLength r)) as [|i l IH]; [constructor|].
    cbn [flat_map]. apply Forall_app. split; [repeat constructor | exact IH]. }
  destruct (holds_nothing _ H) as [-> ->]. cbn.
  by destruct (chainHandle r =? 0).
Qed.

Lemma newOculusTextureBuffer_holds session size sampleCount r b calls :
  newOculusTextureBuffer session size sampleCount r = Some (b, calls) →
  releases calls = [] ∧
  acquisitions (deleteOculusTextureBuffer b) = [] ∧
  releases (deleteOculusTextureBuffer b) = acquisitions calls.
Proof.
  unfold newOculusTextureBuffer.
  destruct ((1 <? sampleCount) || (session =? 0)); [done|]. intros Heq.
  assert (b = {| ColorTextureChain := chainHandle (colorChain r);
                 DepthTextureChain := chainHandle (depthChain r);
                 fboId := framebuffer r; texSize := size |} ∧
          calls = createChain OVR_FORMAT_R8G8B8A8_UNORM_SRGB size (colorChain r) ++
                  createChain OVR_FORMAT_D32_FLOAT size (depthChain r) ++
                  [glGenFramebuffers (framebuffer r)]) as [-> ->]
    by (by injection Heq).
  clear Heq.
  destruct (createChain_holds OVR_FORMAT_R8G8B8A8_UNORM_SRGB size (colorChain r)) as [Hc Hc'].
  destruct (createChain_holds OVR_FORMAT_D32_FLOAT size (depthChain r)) as [Hd Hd'].
  rewrite !acquisitions_app, !releases_app, Hc, Hc', Hd, Hd'.
  unfold deleteOculusTextureBuffer. cbn [ColorTextureChain DepthTextureChain fboId].
  rewrite !acquisitions_app, !releases_app.
  destruct (chainHandle (colorChain r) =? 0), (chainHandle (depthChain r) =? 0),
    (framebuffer r =? 0) eqn:Hf; cbn; by rewrite Hf.
Qed.

(** X11.  What the constructor of [OculusTextureBuffer] creates, its
    destructor releases: the destructor destroys the swap chains the
    constructor was left with (those that are not null), in the order of
    their creation, and deletes the framebuffer if GL gave one; the
    constructor releases nothing and the destructor creates nothing. *)
Theorem buffer_released session size sampleCount r b calls :
  newOculusTextureBuffer session size sampleCount r = Some (b, calls) →
  releases calls = [] ∧
  acquisitions (deleteOculusTextureBuffer b) = [] ∧
  releases (deleteOculusTextureBuffer b) = acquisitions calls.
Proof. apply newOculusTextureBuffer_holds. Qed.

Lemma doneCalls_holds fbo texture eye0 eye1 :
  acquisitions (doneCalls fbo texture eye0 eye1) =
    acquisitions (deleteBuffer eye0) ++ acquisitions (deleteBuffer eye1) ∧
  releases (doneCalls fbo texture eye0 eye1) =
    (if fbo =? 0 then [] else [Framebuffer fbo]) ++
    (if texture =? 0 then [] else [MirrorTexture texture]) ++
    releases (deleteBuffer eye0) ++ releases (deleteBuffer eye1) ++
    [TheDevice; TheSession].
Proof.
  unfold doneCalls. rewrite !acquisitions_app, !releases_app.
  destruct (fbo =? 0), (texture =? 0); cbn; by rewrite ?app_nil_r.
Qed.

Lemma device_released retryCreate r sceneAborts :
  fst (MainLoopDevice retryCreate r sceneAborts) = DeviceReturned →
  ∃ pre post,
    snd (MainLoopDevice retryCreate r sceneAborts) = pre ++ post ∧
    releases pre = [] ∧
    acquisitions post = [] ∧
    releases post ≡ₚ acquisitions pre.
Proof.
  unfold MainLoopDevice.
  destruct (OVR_SUCCESS (sessionResult r)) eqn:Hs; cbn [negb].
  2: { intros _. exists [ovr_Create (sessionResult r)], []. cbn. by rewrite Hs. }
  set (w := Z.quot (fst (Resolution r)) 2). set (h := Z.quot (snd (Resolution r)) 2).
  set (start := [ovr_Create (sessionResult r); ovr_GetHmdDesc; Platform_InitDevice w h]).
  assert (Hstart : acquisitions start = [TheSession; TheDevice] ∧ releases start = []).
  { cbn. by rewrite Hs. }
  destruct Hstart as [Hsa Hsr].
  destruct (deviceOk r); cbn [negb].
  2: { intros _. eexists _, _. split; [done|].
       destruct (doneCalls_holds 0 0 None None) as [-> ->].
       rewrite Hsa, Hsr. cbn. split; [done|]. split; [done|]. solve_Permutation. }
  destruct (newOculusTextureBuffer _ _ 1 (eyeBuffer r 0)) as [[eye0 calls0]|] eqn:H0; [|done].
  destruct (newOculusTextureBuffer_holds _ _ _ _ _ _ H0) as (Hr0 & Ha0 & Hd0).
  destruct ((ColorTextureChain eye0 =? 0) || (DepthTextureChain eye0 =? 0)).
  { destruct retryCreate; [|done]. intros _. eexists _, _. split; [done|].
    destruct (doneCalls_holds 0 0 (Some eye0) None) as [-> ->].
    rewrite !acquisitions_app, !releases_app, Hsa, Hsr, Hr0.
    cbn [deleteBuffer]. rewrite Ha0, Hd0. cbn. split; [done|]. split; [done|].
    rewrite ?app_nil_r. solve_Permutation. }
  destruct (newOculusTextureBuffer _ _ 1 (eyeBuffer r 1)) as [[eye1 calls1]|] eqn:H1; [|done].
  destruct (newOculusTextureBuffer_holds _ _ _ _ _ _ H1) as (Hr1 & Ha1 & Hd1).
  destruct ((ColorTextureChain eye1 =? 0) || (DepthTextureChain eye1 =? 0)).
  { destruct retryCreate; [|done]. intros _. eexists _, _. split; [done|].
    destruct (doneCalls_holds 0 0 (Some eye0) (Some eye1)) as [-> ->].
    rewrite !acquisitions_app, !releases_app, Hsa, Hsr, Hr0, Hr1.
    cbn [deleteBuffer]. rewrite Ha0, Ha1, Hd0, Hd1. cbn. split; [done|]. split; [done|].
    rewrite ?app_nil_r. solve_Permutation. }
  destruct (OVR_SUCCESS (mirrorTextureResult r)); cbn [negb].
  2: { destruct retryCreate; [|done]. intros _. eexists _, _. split; [done|].
       destruct (doneCalls_holds 0 (mirrorTexture r) (Some eye0) (Some eye1)) as [-> ->].
       rewrite !acquisitions_app, !releases_app, Hsa, Hsr, Hr0, Hr1.
       cbn [deleteBuffer]. rewrite Ha0, Ha1, Hd0, Hd1. cbn. split; [done|]. split; [done|].
       destruct (mirrorTexture r =? 0); cbn; rewrite ?app_nil_r; solve_Permutation. }
  destruct sceneAborts; [done|]. intros _. eexists _, _. split; [done|].
  destruct (doneCalls_holds (mirrorFBO r) (mirrorTexture r) (Some eye0) (Some eye1))
    as [-> ->].
  rewrite !acquisitions_app, !releases_app, Hsa, Hsr, Hr0, Hr1.
  cbn [deleteBuffer]. rewrite Ha0, Ha1, Hd0, Hd1. cbn. split; [done|]. split; [done|].
  destruct (mirrorTexture r =? 0), (mirrorFBO r =? 0); cbn; rewrite ?app_nil_r;
    solve_Permutation.
Qed.

Lemma MainLoop_aborts retry setup ticks st :
  fst (fst (MainLoop retry setup ticks st)) = Aborted ↔ aborts retry setup = true.
Proof.
  destruct (reachesLoop setup) eqn:Hr.
  - rewrite MainLoop_reaches by done. cbn [fst].
    unfold reachesLoop in Hr. repeat (apply andb_true_iff in Hr as [Hr ?]).
    unfold aborts, sceneChecksFail. rewrite Hr.
    repeat match goal with H : _ = true |- _ => rewrite H; clear H end.
    cbn [negb andb].
    destruct (FLAGS_background cfg) as [n|];
      [match goal with H : (n =? 1) = true |- _ => rewrite H end|];
      by destruct (valueOf (mainLoopTicks ticks (loopEntry retry setup st))).
  - revert Hr. unfold reachesLoop, MainLoop, mainLoopBody, aborts, sceneChecksFail.
    destruct (OVR_SUCCESS (createResult setup)); cbn [negb andb]; [|done].
    unfold bind at 1. rewrite readSession_run. cbn [session newSession retryCreate].
    destruct (initDeviceOk setup); cbn [negb andb].
    2: { unfold done, bind, readSession, ret. by cbn. }
    destruct (eyeChainsOk setup 0); cbn [negb andb].
    2: { destruct retry; [|done]. unfold done, bind, readSession, ret. by cbn. }
    destruct (eyeChainsOk setup 1); cbn [negb andb].
    2: { destruct retry; [|done]. unfold done, bind, readSession, ret. by cbn. }
    unfold bind at 1. rewrite writeSession_run.
    destruct (OVR_SUCCESS (mirrorResult setup)); cbn [negb andb].
    2: { destruct retry; [|done]. unfold done, bind, readSession, ret. by cbn. }
    unfold loadBackground. destruct (FLAGS_background cfg) as [n|]; [|done].
    intros ->. by cbn.
Qed.

Lemma newOculusTextureBuffer_one session size r :
  session ≠ 0 →
  newOculusTextureBuffer session size 1 r =
    Some ({| ColorTextureChain := chainHandle (colorChain r);
             DepthTextureChain := chainHandle (depthChain r);
             fboId := framebuffer r;
             texSize := size |},
          createChain OVR_FORMAT_R8G8B8A8_UNORM_SRGB size (colorChain r) ++
          createChain OVR_FORMAT_D32_FLOAT size (depthChain r) ++
          [glGenFramebuffers (framebuffer r)]).
Proof. intros Hs%Z.eqb_neq. unfold newOculusTextureBuffer. by rewrite Hs. Qed.

Lemma MainLoopDevice_aborts retry r :
  sessionHandle r ≠ 0 →
  fst (MainLoopDevice retry r sceneChecksFail) = DeviceAborted ↔
  aborts retry (setupOf r) = true.
Proof.
  intros Hs. unfold MainLoopDevice, aborts.
  rewrite !newOculusTextureBuffer_one by done.
  cbn [setupOf createResult initDeviceOk eyeChainsOk mirrorResult
       ColorTextureChain DepthTextureChain].
  rewrite !negb_involutive.
  destruct (OVR_SUCCESS (sessionResult r)); cbn [negb andb fst]; [|done].
  destruct (deviceOk r); cbn [negb andb fst]; [|done].
  destruct ((chainHandle (colorChain (eyeBuffer r 0)) =? 0) ||
            (chainHandle (depthChain (eyeBuffer r 0)) =? 0)); [by destruct retry|].
  destruct ((chainHandle (colorChain (eyeBuffer r 1)) =? 0) ||
            (chainHandle (depthChain (eyeBuffer r 1)) =? 0)); [by destruct retry|].
  destruct (OVR_SUCCESS (mirrorTextureResult r)); cbn [negb]; [|by destruct retry].
  by destruct sceneChecksFail.
Qed.

(** X12.  Whenever [MainLoop] returns, all it created is released: its
    calls to the SDK, GL and the platform outside the scene block are those
    up to [Done], none of which releases anything, followed by those of
    [Done], none of which creates anything, and [Done] releases exactly the
    session, the device, the swap chains, the framebuffers and the mirror
    texture created before, each once.  When [ovr_Create] fails nothing was
    created and nothing is released. *)
Theorem returning_releases_all retry r ticks st b :
  sessionHandle r ≠ 0 →
  fst (fst (MainLoop retry (setupOf r) ticks st)) = Returned b →
  fst (MainLoopDevice retry r sceneChecksFail) = DeviceReturned ∧
  ∃ pre post,
    snd (MainLoopDevice retry r sceneChecksFail) = pre ++ post ∧
    releases pre = [] ∧
    acquisitions post = [] ∧
    releases post ≡ₚ acquisitions pre.
Proof.
  intros Hs Hrun.
  assert (Hd : fst (MainLoopDevice retry r sceneChecksFail) = DeviceReturned).
  { destruct (fst (MainLoopDevice retry r sceneChecksFail)) eqn:Ho; [done|].
    apply (MainLoopDevice_aborts retry r Hs) in Ho.
    apply (MainLoop_aborts retry (setupOf r) ticks st) in Ho. by rewrite Hrun in Ho. }
  split; [exact Hd|]. by apply device_released.
Qed.

(** ** Starting playback *)

(** X13.  The first press of SPACE does not start playback: with [pause]
    set and [started] clear, the pause toggle sets [started] and asks the
    menu to fade out, and that is all; [pause] stays set, the clock origin
    is not touched and the soundtrack is not played. *)
Theorem first_press_fades_menu i w :
  keyActive i w (chr " ") = true →
  pause (statics w) = true →
  started (statics w) = false →
  started (statics (worldOf (processKeys i w))) = true ∧
  pause (statics (worldOf (processKeys i w))) = true ∧
  startTime (statics (worldOf (processKeys i w))) = startTime (statics w) ∧
  menu (session (worldOf (processKeys i w))) = startFadeOut (menu (session w)) ∧
  List.filter isPlaybackEvent (eventsOf (processKeys i w)) = [MenuStartFadeOut].
Proof.
  intros Hk Hp Hs.
  pose proof (processKeys_playback i w) as Hpb.
  pose proof (processKeys_playback_events i w) as Hev.
  rewrite Hk in Hpb, Hev. unfold playback, togglePlayback, toggleEvents in Hpb, Hev.
  rewrite Hp, Hs in Hpb, Hev. cbv beta iota delta [negb] in Hpb, Hev.
  injection Hpb as Hp' Hs' Ht' Hm'. by rewrite Hp', Hs', Ht', Hm', Hev.
Qed.

Lemma afterTick_statics i w :
  pause (statics (afterTick i w)) = pause (statics (stateBeforeSync i w)) ∧
  startTime (statics (afterTick i w)) =
    startTime (statics (worldOf (syncAudioVideo i (stateBeforeSync i w)))) ∧
  renderBackground (session (afterTick i w)) =
    renderBackground (session (stateBeforeSync i w)).
Proof.
  rewrite (proj1 (proj2 (tick_run i w))).
  destruct (syncAudioVideo_frame i (stateBeforeSync i w)) as (Hp & _ & _ & _ & Hs).
  rewrite <- Hp, <- Hs.
  by destruct (negb (OVR_SUCCESS (submitResult i))).
Qed.

(** X14.  In the iteration in which [menu.update()] invokes the exit
    callback, [pause] is cleared after the keys and after the check of the
    headset, so the iteration ends with [pause] clear even if the pause
    toggle set it or the headset is not mounted, and the tracking origin is
    recentered.  If the menu is hidden by then and the video is at frame 0,
    the drift decision of the same iteration sets the clock origin to now and
    restarts the soundtrack, and a video with several frames advances. *)
Theorem menu_exit_starts_playback i w :
  menuExits i w = true →
  pause (statics (afterTick i w)) = false ∧
  RecenterTrackingOrigin ∈ tickEvents i w ∧
  (isHidden (menu (session (stateBeforeSync i w))) = true → getFront i = 0 →
   startTime (statics (afterTick i w)) = nowSync i ∧
   SoundtrackRestart ∈ tickEvents i w ∧
   delayNextFrame i w = false ∧
   (1 < numFrames cfg → frameEvents (tickEvents i w) = advanceEvents)).
Proof.
  intros Hex.
  destruct (stateBeforeSync_run i w) as (Hex' & Hpb & _). cbn zeta in Hex', Hpb.
  rewrite Hex in Hex'. rewrite <- Hex' in Hpb. unfold playback at 1 in Hpb.
  injection Hpb as Hp3 _ _ _.
  destruct (afterTick_statics i w) as (Hp & Hst & _).
  split; [by rewrite Hp|]. split.
  - rewrite (proj1 (tick_run i w)), Hex, !elem_of_app.
    right; right; left. apply list_elem_of_further, list_elem_of_here.
  - intros Hh Hf.
    assert (Hsync : syncAudioVideo i (stateBeforeSync i w) =
                    (false, with_statics (set_startTime (nowSync i)) (stateBeforeSync i w),
                     [SoundtrackRestart])).
    { by rewrite syncAudioVideo_run, Hh, Hp3, Hf. }
    assert (Hd : delayNextFrame i w = false) by (unfold delayNextFrame; by rewrite Hsync).
    split; [by rewrite Hst, Hsync|]. split; [|split; [exact Hd|]].
    + rewrite (proj1 (tick_run i w)), Hsync, !elem_of_app.
      do 4 right; left. apply list_elem_of_here.
    + intros Hn. rewrite tick_frameEvents, Hd, Hp3. apply Z.ltb_lt in Hn. by rewrite Hn.
Qed.

(** ** The clock origin and the background *)


Lemma handleKey_renderBackground i key w :
  renderBackground (session (worldOf (handleKey i key w))) =
    if key =? chr "B" then negb (renderBackground (session w))
    else renderBackground (session w).
Proof.
  destruct (Z.eqb_spec key (chr "B")) as [->|Hne]; [reflexivity|].
  destruct (Z.eqb_spec key (chr " ")) as [->|Hne'].
  - rewrite handleKey_space. unfold togglePause, bind, read, write, writeSession, emit.
    destruct w as [[t d p s f y ps] ses]; cbn. destruct p; [destruct s|]; cbn; done.
  - handleKey_cases; done.
Qed.

(** X16.  B switches the rendering of the background once per press: an
    iteration negates [scene.renderBackground] exactly when B is down and
    was up at the previous poll, and nothing else in the iteration changes
    it. *)
Theorem background_toggle i w :
  renderBackground (session (afterTick i w)) =
    if keyActive i w (chr "B") then negb (renderBackground (session w))
    else renderBackground (session w).
Proof.
  destruct (afterTick_statics i w) as (_ & _ & ->).
  unfold stateBeforeSync. run_simpl.
  rewrite (updateMenu_run i), (checkMounted_run i). run_simpl.
  assert (Hk : renderBackground (session (worldOf (processKeys i w))) =
               if keyActive i w (chr "B") then negb (renderBackground (session w))
               else renderBackground (session w)).
  { apply (processKeys_proj (λ w, renderBackground (session w)) (chr "B") negb).
    - set_solver.
    - reflexivity.
    - intros key w' Hne. rewrite handleKey_renderBackground.
      by destruct (Z.eqb_spec key (chr "B")).
    - intros w'. by rewrite handleKey_renderBackground. }
  rewrite <- Hk.
  by destruct (snd (menuUpdate _ _)), (HmdMounted i).
Qed.

End Viewer.

(** * Instances and sample runs *)

(** ** Exact arithmetic satisfies the order laws *)

Lemma exact_gt_lt a b : Exact.gt a b = true ↔ (b < a)%Qc.
Proof.
  unfold Exact.gt. rewrite Qclt_alt. destruct (b ?= a)%Qc; split; congruence.
Qed.

Lemma exact_of_Z_nonneg n : 0 ≤ n → (0 <= Exact.of_Z n)%Qc.
Proof.
  intros Hn. unfold Exact.of_Z, Qcle. cbn [this Q2Qc].
  rewrite !Qred_correct. unfold Qle. cbn. lia.
Qed.

Lemma exact_order : FloatOrder exact.
Proof.
  split; [done..| | |].
  - intros a. cbn. destruct (Exact.gt a a) eqn:H; [|done].
    apply exact_gt_lt in H. by apply Qclt_not_eq in H.
  - intros a b c Hab Hbc. cbn in *. apply exact_gt_lt in Hab, Hbc. apply exact_gt_lt.
    by eapply Qclt_trans.
  - intros v r lag _ Hlag H. cbn in *. apply exact_gt_lt in H. apply exact_gt_lt.
    eapply Qcle_lt_trans; [|exact H].
    pose proof (exact_of_Z_nonneg lag Hlag) as H0.
    rewrite <- (Qcplus_0_r r) at 1. apply Qcplus_le_compat; [apply Qcle_refl | done].
Qed.

(** ** binary32 satisfies the laws *)

(** *** The comparison orders signs, then exponents, then mantissas *)

Lemma SFltb_irrefl x : SFltb x x = false.
Proof.
  destruct x as [s|s| |s m e]; unfold SFltb; cbn; try done; destruct s; try done.
  all: rewrite Z.compare_refl; change (Pos.compare_cont Eq m m) with (m ?= m)%positive;
    by rewrite Pos.compare_refl.
Qed.

Ltac compare_cases :=
  repeat match goal with
  | H : context [Pos.compare_cont Eq ?a ?b] |- _ =>
      change (Pos.compare_cont Eq a b) with (a ?= b)%positive in H
  | |- context [Pos.compare_cont Eq ?a ?b] =>
      change (Pos.compare_cont Eq a b) with (a ?= b)%positive
  end;
  repeat match goal with
  | H : context [(?a ?= ?b)%positive] |- _ => destruct (Pos.compare_spec a b); cbn in H
  | H : context [?a ?= ?b] |- _ => destruct (Z.compare_spec a b); cbn in H
  | |- context [(?a ?= ?b)%positive] => destruct (Pos.compare_spec a b); cbn
  | |- context [?a ?= ?b] => destruct (Z.compare_spec a b); cbn
  end; try done; try lia.

Lemma SFleb_ltb_trans x y z : SFleb x y = true → SFltb y z = true → SFltb x z = true.
Proof.
  unfold SFleb, SFltb.
  destruct x as [[]|[]| |[] m1 e1], y as [[]|[]| |[] m2 e2], z as [[]|[]| |[] m3 e3];
    cbn; try done; intros H1 H2; compare_cases.
Qed.

Lemma SFltb_leb x y : SFltb x y = true → SFleb x y = true.
Proof. unfold SFleb, SFltb. by destruct (SFcompare x y) as [[]|]. Qed.

Lemma SFltb_trans x y z : SFltb x y = true → SFltb y z = true → SFltb x z = true.
Proof. intros H. apply SFleb_ltb_trans. by apply SFltb_leb. Qed.

(** *** Digits, shifts and powers of two *)

Lemma digits_log2 m : digits m = Z.log2 (Z.pos m) + 1.
Proof.
  unfold digits. induction m as [m IH|m IH|]; cbn [digits2_pos]; [| |done].
  - rewrite Pos2Z.inj_succ, IH. change (Z.log2 (Z.pos m~1)) with (Z.pos (Pos.size m)).
    assert (Z.log2 (Z.pos m) + 1 = Z.pos (Pos.size m)); [|lia].
    destruct m; cbn; lia.
  - rewrite Pos2Z.inj_succ, IH. change (Z.log2 (Z.pos m~0)) with (Z.pos (Pos.size m)).
    assert (Z.log2 (Z.pos m) + 1 = Z.pos (Pos.size m)); [|lia].
    destruct m; cbn; lia.
Qed.

Lemma digits_pos m : 0 < digits m.
Proof. done. Qed.

Lemma digits_bounds m : 2 ^ (digits m - 1) ≤ Z.pos m < 2 ^ digits m.
Proof.
  rewrite digits_log2. replace (Z.log2 (Z.pos m) + 1 - 1) with (Z.log2 (Z.pos m)) by lia.
  apply Z.log2_spec. lia.
Qed.

Lemma digits_unique m d : 2 ^ (d - 1) ≤ Z.pos m < 2 ^ d → digits m = d.
Proof.
  intros H. rewrite digits_log2.
  assert (0 ≤ d - 1).
  { destruct (Z.le_gt_cases 0 (d - 1)); [done|].
    assert (d ≤ 0) by lia. destruct H as [_ H]. 
    destruct (Z.eq_dec d 0) as [->|]; [cbn in H; lia|].
    rewrite Z.pow_neg_r in H; lia. }
  rewrite (Z.log2_unique (Z.pos m) (d - 1)); [lia|done|].
  by replace (Z.succ (d - 1)) with d by lia.
Qed.

Lemma digits_lt_pow m d : 0 ≤ d → Z.pos m < 2 ^ d → digits m ≤ d.
Proof.
  intros Hd H. rewrite digits_log2.
  destruct (Z.eq_dec d 0) as [->|]; [cbn in H; lia|].
  apply Z.log2_lt_pow2 in H; lia.
Qed.

Lemma digits_ge_pow m d : 2 ^ d ≤ Z.pos m → d < digits m.
Proof.
  intros H. rewrite digits_log2.
  destruct (Z.le_gt_cases 0 d) as [Hd|Hd].
  - apply Z.log2_le_pow2 in H; lia.
  - pose proof (Z.log2_nonneg (Z.pos m)). lia.
Qed.

Lemma iter_xO m d : Z.pos (Pos.iter xO m d) = Z.pos m * 2 ^ Z.pos d.
Proof.
  revert m. induction d as [|d IH] using Pos.peano_ind; intros m.
  - cbn. lia.
  - rewrite Pos.iter_succ, Pos2Z.inj_xO, IH, Pos2Z.inj_succ, Z.pow_succ_r; lia.
Qed.

(** [shr_1] halves the mantissa. *)
Lemma shr_1_m mrs : 0 ≤ shr_m mrs → shr_m (shr_1 mrs) = shr_m mrs / 2.
Proof.
  destruct mrs as [[|[p|p|]|p] r s]; cbn [shr_m shr_1]; intros H; try lia; try done.
  - rewrite Pos2Z.inj_xI. apply (Z.div_unique _ _ _ 1); lia.
  - rewrite Pos2Z.inj_xO. apply (Z.div_unique _ _ _ 0); lia.
Qed.

Lemma iter_shr_1_m p mrs :
  0 ≤ shr_m mrs → shr_m (SpecFloat.iter_pos shr_1 p mrs) = shr_m mrs / 2 ^ Z.pos p.
Proof.
  revert mrs. induction p as [p IH|p IH|]; intros mrs H; cbn [SpecFloat.iter_pos].
  - assert (H1 : 0 ≤ shr_m (shr_1 mrs)) by (rewrite shr_1_m; [apply Z.div_pos; lia|done]).
    assert (H2 : 0 ≤ shr_m (SpecFloat.iter_pos shr_1 p (shr_1 mrs)))
      by (rewrite IH; [apply Z.div_pos; lia|done]).
    rewrite IH, IH, shr_1_m by done.
    rewrite !Z.div_div by lia. f_equal.
    rewrite Pos2Z.inj_xI, Z.pow_add_r, Z.pow_1_r by lia.
    replace (2 * Z.pos p) with (Z.pos p + Z.pos p) by lia.
    rewrite Z.pow_add_r by lia. lia.
  - assert (H2 : 0 ≤ shr_m (SpecFloat.iter_pos shr_1 p mrs))
      by (rewrite IH; [apply Z.div_pos; lia|done]).
    rewrite IH, IH by done. rewrite Z.div_div by lia. f_equal.
    rewrite <- Z.pow_add_r by lia. f_equal. lia.
  - rewrite shr_1_m by done. done.
Qed.

(** *** What rounding computes *)

Lemma round_nearest_even_cases m l :
  round_nearest_even m l = m ∨ (round_nearest_even m l = m + 1 ∧ l ≠ loc_Exact).
Proof. destruct l as [|[]]; cbn; try (by left); try (by right); destruct (Z.even m); auto. Qed.

Lemma fexp_binary32 e : fexp 24 128 e = Z.max (e - 24) (-149).
Proof. reflexivity. Qed.

Lemma Zdigits2_pos p : Zdigits2 (Z.pos p) = digits p.
Proof. reflexivity. Qed.

Lemma Zdigits2_nonneg m : 0 ≤ Zdigits2 m.
Proof. by destruct m. Qed.

Lemma loc_of_shr_record_of_loc m l : loc_of_shr_record (shr_record_of_loc m l) = l.
Proof. by destruct l as [|[]]. Qed.

Lemma shr_m_of_loc m l : shr_m (shr_record_of_loc m l) = m.
Proof. by destruct l as [|[]]. Qed.

Lemma shr_fexp_spec m e l :
  0 ≤ m →
  let n := fexp 24 128 (Zdigits2 m + e) - e in
  ∃ mrs, shr_fexp 24 128 m e l = (mrs, shifted_e e n) ∧
         shr_m mrs = shifted_m m n ∧
         (n ≤ 0 → loc_of_shr_record mrs = l).
Proof.
  intros Hm n. unfold shr_fexp, shr, shifted_m, shifted_e. fold n.
  destruct n as [|p|p] eqn:Hn; cbn [Z.ltb Z.compare].
  - eexists; split; [done|]. split; [apply shr_m_of_loc|]. intros _.
    apply loc_of_shr_record_of_loc.
  - eexists; split; [done|]. split; [|lia].
    rewrite iter_shr_1_m; rewrite shr_m_of_loc; done.
  - eexists; split; [done|]. split; [apply shr_m_of_loc|]. intros _.
    apply loc_of_shr_record_of_loc.
Qed.

Lemma binary_round_aux_spec sx m e l :
  0 ≤ m →
  let n1 := fexp 24 128 (Zdigits2 m + e) - e in
  let m1 := shifted_m m n1 in
  let e1 := shifted_e e n1 in
  ∃ mr, (mr = m1 ∨ (mr = m1 + 1 ∧ (0 < n1 ∨ l ≠ loc_Exact))) ∧
    let n2 := fexp 24 128 (Zdigits2 mr + e1) - e1 in
    binary_round_aux 24 128 sx m e l = rounded sx (shifted_m mr n2) (shifted_e e1 n2).
Proof.
  intros Hm n1 m1 e1. unfold binary_round_aux.
  destruct (shr_fexp_spec m e l Hm) as (mrs & -> & Hmrs & Hloc). fold n1 in Hmrs, Hloc |- *.
  fold m1 in Hmrs. fold e1.
  set (mr := round_nearest_even (shr_m mrs) (loc_of_shr_record mrs)).
  assert (Hmr : mr = m1 ∨ (mr = m1 + 1 ∧ (0 < n1 ∨ l ≠ loc_Exact))).
  { subst mr. rewrite Hmrs.
    destruct (round_nearest_even_cases m1 (loc_of_shr_record mrs)) as [->|[-> Hl]]; [by left|].
    right. split; [done|]. destruct (Z.lt_ge_cases 0 n1); [by left|right].
    rewrite Hloc in Hl by lia. done. }
  assert (Hm1 : 0 ≤ m1).
  { subst m1. unfold shifted_m. destruct (Z.ltb_spec 0 n1); [|done].
    apply Z.div_pos; [done|]. apply Z.pow_pos_nonneg; lia. }
  exists mr. split; [done|]. set (n2 := fexp 24 128 (Zdigits2 mr + e1) - e1).
  destruct (shr_fexp_spec mr e1 loc_Exact) as (mrs' & -> & Hmrs' & _); [lia|].
  fold n2 in Hmrs' |- *. rewrite Hmrs'. done.
Qed.

Lemma shl_align_spec M ez e' :
  ∃ mz, shl_align M ez e' = (mz, Z.min ez e') ∧ Z.pos mz = Z.pos M * 2 ^ (ez - Z.min ez e').
Proof.
  unfold shl_align. destruct (e' - ez) as [|p|p] eqn:H.
  - exists M. replace (Z.min ez e') with ez by lia. rewrite Z.sub_diag. split; [done|]. lia.
  - exists M. replace (Z.min ez e') with ez by lia. rewrite Z.sub_diag. split; [done|]. lia.
  - exists (Pos.iter xO M p). replace (Z.min ez e') with e' by lia. split; [done|].
    rewrite iter_xO. f_equal. f_equal. lia.
Qed.

Lemma binary_round_spec sx M ez :
  let E := fexp 24 128 (digits M + ez) in
  ∃ mz, Z.pos mz = Z.pos M * 2 ^ (ez - Z.min ez E) ∧
        binary_round 24 128 sx M ez = binary_round_aux 24 128 sx (Z.pos mz) (Z.min ez E) loc_Exact.
Proof.
  intros E. unfold binary_round. fold (digits M). fold E.
  destruct (shl_align_spec M ez E) as (mz & -> & Hmz). by exists mz.
Qed.

(** *** Bounds on quotients and digits *)

Lemma div_pow_ge m M k : 0 ≤ k → m * 2 ^ k ≤ M → m ≤ M / 2 ^ k.
Proof.
  intros Hk H. apply Z.div_le_lower_bound; [apply Z.pow_pos_nonneg; lia | lia].
Qed.

Lemma div_pow_lt m M k : 0 ≤ k → M < m * 2 ^ k → M / 2 ^ k < m.
Proof.
  intros Hk H. apply Z.div_lt_upper_bound; [apply Z.pow_pos_nonneg; lia | lia].
Qed.

Lemma pow2_le a b : a ≤ b → 2 ^ a ≤ 2 ^ b.
Proof. intros H. apply Z.pow_le_mono_r; lia. Qed.

Lemma pow2_pos a : 0 ≤ a → 0 < 2 ^ a.
Proof. intros H. apply Z.pow_pos_nonneg; lia. Qed.

Lemma Zdigits2_bounds z : 0 < z → 0 < Zdigits2 z ∧ 2 ^ (Zdigits2 z - 1) ≤ z < 2 ^ Zdigits2 z.
Proof. destruct z as [|p|p]; try lia. intros _. split; [done|]. apply digits_bounds. Qed.

Lemma Zdigits2_lt_pow z d : 0 ≤ d → 0 < z < 2 ^ d → Zdigits2 z ≤ d.
Proof. destruct z as [|p|p]; try lia. intros Hd [_ H]. by apply digits_lt_pow. Qed.

Lemma Zdigits2_ge_pow z d : 0 < z → 2 ^ d ≤ z → d < Zdigits2 z.
Proof. destruct z as [|p|p]; try lia. intros _ H. by apply digits_ge_pow. Qed.

Lemma digits_mul_pow_le m M k :
  0 ≤ k → Z.pos m * 2 ^ k ≤ Z.pos M → digits m + k ≤ digits M.
Proof.
  intros Hk H. pose proof (digits_bounds m) as [Hm _]. pose proof (digits_pos m).
  assert (2 ^ (digits m - 1 + k) ≤ Z.pos M).
  { rewrite Z.pow_add_r by lia. pose proof (pow2_pos k Hk). nia. }
  apply digits_ge_pow in H1. lia.
Qed.

Lemma digits_lt_mul_pow m M k :
  0 ≤ k → Z.pos M < Z.pos m * 2 ^ k → digits M ≤ digits m + k.
Proof.
  intros Hk H. pose proof (digits_bounds m) as [_ Hm]. pose proof (digits_pos m).
  apply digits_lt_pow; [lia|]. rewrite Z.pow_add_r by lia.
  pose proof (pow2_pos k Hk). nia.
Qed.

Lemma digits_mul_pow m M k :
  0 ≤ k → Z.pos M = Z.pos m * 2 ^ k → digits M = digits m + k.
Proof.
  intros Hk H. pose proof (digits_mul_pow_le m M k Hk).
  pose proof (digits_bounds m) as [_ Hm]. pose proof (digits_pos m).
  assert (digits M ≤ digits m + k); [|lia].
  apply digits_lt_pow; [lia|]. rewrite Z.pow_add_r by lia.
  pose proof (pow2_pos k Hk). nia.
Qed.

(** *** Rounding against a representable value *)

Lemma SFleb_rounded_up m e m2 e2 :
  0 < m2 → e < e2 ∨ (e2 = e ∧ Z.pos m ≤ m2) →
  SFleb (S754_finite false m e) (rounded false m2 e2) = true.
Proof.
  intros Hm H. destruct m2 as [|p|p]; try lia. unfold rounded, SFleb.
  destruct (e2 <=? 104); cbn; [|done]. compare_cases.
Qed.

Lemma SFleb_rounded_down m e m2 e2 :
  0 ≤ m2 → e2 ≤ 104 → e2 < e ∨ (e2 = e ∧ m2 ≤ Z.pos m) →
  SFleb (S754_finite true m e) (rounded true m2 e2) = true.
Proof.
  intros Hm He H. destruct m2 as [|p|p]; try lia; unfold rounded, SFleb; [done|].
  destruct (Z.leb_spec e2 104); [|lia]. cbn. compare_cases.
Qed.

Lemma shifted_m_gt m n : 0 < n → shifted_m m n = m / 2 ^ n.
Proof. unfold shifted_m. by destruct (Z.ltb_spec 0 n); [|lia]. Qed.

Lemma shifted_m_le m n : n ≤ 0 → shifted_m m n = m.
Proof. unfold shifted_m. by destruct (Z.ltb_spec 0 n); [lia|]. Qed.

Lemma shifted_e_gt e n : 0 < n → shifted_e e n = e + n.
Proof. unfold shifted_e. by destruct (Z.ltb_spec 0 n); [|lia]. Qed.

Lemma shifted_e_le e n : n ≤ 0 → shifted_e e n = e.
Proof. unfold shifted_e. by destruct (Z.ltb_spec 0 n); [lia|]. Qed.

(** Rounding a magnitude that is at least a representable one does not go
    below it. *)
Lemma binary_round_up m e M ez :
  fexp 24 128 (digits m + e) = e → ez ≤ e → Z.pos m * 2 ^ (e - ez) ≤ Z.pos M →
  SFleb (S754_finite false m e) (binary_round 24 128 false M ez) = true.
Proof.
  intros Hc Hez HM.
  pose proof (digits_mul_pow_le m M (e - ez) ltac:(lia) HM) as Hd.
  pose proof (digits_pos m) as Hdm. pose proof (digits_bounds M) as HdM.
  destruct (binary_round_spec false M ez) as (mz & Hmz & ->).
  rewrite fexp_binary32 in Hc, Hmz |- *.
  replace (Z.min ez (Z.max (digits M + ez - 24) (-149))) with ez in * by lia.
  rewrite Z.sub_diag in Hmz. assert (mz = M) as -> by lia. clear Hmz.
  destruct (binary_round_aux_spec false (Z.pos M) ez loc_Exact) as (mr & Hmr & ->); [done|].
  rewrite Zdigits2_pos, !fexp_binary32 in *.
  set (E := Z.max (digits M + ez - 24) (-149)) in *.
  set (n1 := E - ez) in *.
  destruct (Z.lt_ge_cases 0 n1) as [Hn1|Hn1];
    [rewrite (shifted_m_gt _ n1), (shifted_e_gt _ n1) in * by done
    |rewrite (shifted_m_le _ n1), (shifted_e_le _ n1) in * by lia].
  - (* the sum is shifted right by [n1] *)
    assert (H2n : 2 ^ n1 ≤ Z.pos M).
    { etrans; [|apply HdM]. apply pow2_le. lia. }
    assert (Hm1 : 1 ≤ Z.pos M / 2 ^ n1) by (apply div_pow_ge; lia).
    assert (HmE : E = e → Z.pos m ≤ Z.pos M / 2 ^ n1).
    { intros HE. apply div_pow_ge; [lia|]. by replace n1 with (e - ez) by lia. }
    replace (ez + n1) with E in * by lia.
    assert (Hmr1 : Z.pos M / 2 ^ n1 ≤ mr) by lia.
    destruct (Zdigits2_bounds mr) as (Hdr & Hlo & Hhi); [lia|].
    set (n2 := Z.max (Zdigits2 mr + E - 24) (-149) - E).
    apply SFleb_rounded_up; unfold shifted_m, shifted_e; destruct (Z.ltb_spec 0 n2).
    + apply Z.lt_le_trans with 1; [lia|]. apply div_pow_ge; [lia|].
      etrans; [|apply Hlo]. rewrite Z.mul_1_l. apply pow2_le. lia.
    + lia.
    + left. lia.
    + lia.
  - (* no shift: the sum is representable *)
    assert (mr = Z.pos M) as -> by (destruct Hmr as [|[_ [|]]]; [done|lia|done]).
    rewrite Zdigits2_pos. fold E.
    fold n1. rewrite shifted_m_le, shifted_e_le by lia.
    apply SFleb_rounded_up; [lia|].
    right. split; [lia|]. replace (e - ez) with 0 in HM by lia. lia.
Qed.

(** Rounding a magnitude below a representable one does not go above it. *)
Lemma binary_round_down m e M ez :
  fexp 24 128 (digits m + e) = e → e ≤ 104 → ez ≤ e → Z.pos M < Z.pos m * 2 ^ (e - ez) →
  SFleb (S754_finite true m e) (binary_round 24 128 true M ez) = true.
Proof.
  intros Hc Hb Hez HM.
  pose proof (digits_lt_mul_pow m M (e - ez) ltac:(lia) HM) as Hd.
  pose proof (digits_pos m) as Hdm. pose proof (digits_bounds M) as HdM.
  pose proof (digits_bounds m) as Hbm. pose proof (digits_pos M) as HdM0.
  destruct (binary_round_spec true M ez) as (mz & Hmz & ->).
  rewrite fexp_binary32 in Hc, Hmz |- *.
  set (E := Z.max (digits M + ez - 24) (-149)) in *.
  assert (HE : E ≤ e) by lia.
  destruct (binary_round_aux_spec true (Z.pos mz) (Z.min ez E) loc_Exact)
    as (mr & Hmr & ->); [done|].
  rewrite Zdigits2_pos, !fexp_binary32 in *.
  destruct (Z.lt_ge_cases E ez) as [HEz|HEz].
  - (* aligned to the left: the magnitude is representable *)
    replace (Z.min ez E) with E in * by lia.
    apply digits_mul_pow in Hmz; [|lia].
    replace (Z.max (digits mz + E - 24) (-149) - E) with 0 in * by lia.
    rewrite shifted_m_le, shifted_e_le in * by lia.
    assert (mr = Z.pos mz) as -> by (destruct Hmr as [|[_ [|]]]; [done|lia|done]).
    rewrite Zdigits2_pos.
    replace (Z.max (digits mz + E - 24) (-149) - E) with 0 in * by lia.
    rewrite shifted_m_le, shifted_e_le in * by lia.
    apply SFleb_rounded_down; lia.
  - replace (Z.min ez E) with ez in * by lia.
    rewrite Z.sub_diag in Hmz. assert (mz = M) as -> by lia. clear Hmz.
    fold E in Hmr |- *. set (n1 := E - ez) in *.
    destruct (Z.lt_ge_cases 0 n1) as [Hn1|Hn1];
      [rewrite (shifted_m_gt _ n1), (shifted_e_gt _ n1) in * by done
      |rewrite (shifted_m_le _ n1), (shifted_e_le _ n1) in * by lia].
    + replace (ez + n1) with E in * by lia.
      assert (H0 : 0 ≤ Z.pos M / 2 ^ n1) by (apply Z.div_pos; [lia|apply pow2_pos; lia]).
      assert (H24 : Z.pos M / 2 ^ n1 < 2 ^ 24).
      { apply div_pow_lt; [lia|]. rewrite <- Z.pow_add_r by lia.
        eapply Z.lt_le_trans; [apply HdM|]. apply pow2_le. lia. }
      assert (HmE : E = e → Z.pos M / 2 ^ n1 < Z.pos m).
      { intros HE'. apply div_pow_lt; [lia|]. by replace n1 with (e - ez) by lia. }
      assert (Hm24 : Z.pos m < 2 ^ 24).
      { eapply Z.lt_le_trans; [apply Hbm|]. apply pow2_le. lia. }
      assert (Hmr1 : 0 ≤ mr ≤ 2 ^ 24 ∧ (E = e → mr ≤ Z.pos m)) by lia.
      clear Hmr. set (n2 := Z.max (Zdigits2 mr + E - 24) (-149) - E).
      destruct (Z.lt_ge_cases 0 n2) as [Hn2|Hn2];
        [rewrite (shifted_m_gt _ n2), (shifted_e_gt _ n2) by done
        |rewrite (shifted_m_le _ n2), (shifted_e_le _ n2) by lia].
      * assert (Hr : mr = 2 ^ 24).
        { destruct (Z.eq_dec mr 0) as [->|]; [cbn in n2; lia|].
          destruct (Zdigits2_bounds mr) as (_ & Hlo & _); [lia|].
          assert (2 ^ 24 ≤ mr); [|lia].
          etrans; [|apply Hlo]. apply pow2_le. lia. }
        subst mr. change (Zdigits2 (2 ^ 24)) with 25 in *.
        assert (n2 = 1) as -> by lia. change (2 ^ 24 / 2 ^ 1) with (2 ^ 23).
        assert (E < e) by lia.
        apply SFleb_rounded_down; [done|lia|].
        destruct (Z.eq_dec (E + 1) e) as [He|He]; [right|left; lia].
        split; [done|]. etrans; [|apply Hbm]. apply pow2_le. lia.
      * apply SFleb_rounded_down; lia.
    + assert (mr = Z.pos M) as -> by (destruct Hmr as [|[_ [|]]]; [done|lia|done]).
      rewrite Zdigits2_pos. fold E. fold n1. rewrite shifted_m_le, shifted_e_le by lia.
      apply SFleb_rounded_down; [lia|lia|].
      destruct (Z.eq_dec ez e) as [He|He]; [right|left; lia].
      split; [done|]. replace (e - ez) with 0 in HM by lia. lia.
Qed.

Lemma rounded_shape sx m e :
  0 ≤ m →
  rounded sx m e = S754_zero sx ∨ rounded sx m e = S754_infinity sx ∨
  ∃ p e', rounded sx m e = S754_finite sx p e'.
Proof.
  intros H. destruct m as [|p|p]; [by left| |lia]. unfold rounded.
  destruct (e <=? 104); [right; right; eauto|right; by left].
Qed.

Lemma shifted_m_nonneg m n : 0 ≤ m → 0 ≤ shifted_m m n.
Proof.
  intros H. unfold shifted_m. destruct (Z.ltb_spec 0 n); [|done].
  apply Z.div_pos; [done|apply pow2_pos; lia].
Qed.

Lemma binary_round_aux_shape sx m e l :
  0 ≤ m →
  let r := binary_round_aux 24 128 sx m e l in
  r = S754_zero sx ∨ r = S754_infinity sx ∨ ∃ p e', r = S754_finite sx p e'.
Proof.
  intros Hm r. subst r.
  destruct (binary_round_aux_spec sx m e l Hm) as (mr & Hmr & ->).
  apply rounded_shape, shifted_m_nonneg.
  pose proof (shifted_m_nonneg m (fexp 24 128 (Zdigits2 m + e) - e) Hm). lia.
Qed.

Lemma binary_round_shape sx M ez :
  let r := binary_round 24 128 sx M ez in
  r = S754_zero sx ∨ r = S754_infinity sx ∨ ∃ p e', r = S754_finite sx p e'.
Proof.
  intros r. subst r. destruct (binary_round_spec sx M ez) as (mz & _ & ->).
  by apply binary_round_aux_shape.
Qed.

(** Adding a value that is not negative does not go below the first
    operand. *)
Lemma SFadd_nonneg_le r c :
  valid_binary 24 128 r = true →
  SFleb (S754_zero false) c = true →
  r = S754_nan ∨ SFadd 24 128 r c = S754_nan ∨ SFleb r (SFadd 24 128 r c) = true.
Proof.
  intros Hr Hc.
  destruct r as [sr|sr| |sr m e]; [| |by left|].
  - destruct c as [[]|[]| |[] mc ec]; try done; destruct sr; auto.
  - destruct c as [[]|[]| |[] mc ec]; try done; destruct sr; auto.
  - right. right. destruct c as [sc|[]| |[] mc ec]; try done.
    + cbn. destruct sr; unfold SFleb; cbn; rewrite Z.compare_refl;
        change (Pos.compare_cont Eq m m) with (m ?= m)%positive;
        by rewrite Pos.compare_refl.
    + cbn in Hr. unfold bounded, canonical_mantissa in Hr.
      apply andb_prop in Hr as [Hcan Hb]. apply Z.eqb_eq in Hcan. apply Z.leb_le in Hb.
      fold (digits m) in Hcan. change (128 - 24) with 104 in Hb.
      unfold SFadd. set (ez := Z.min e ec).
      destruct (shl_align_spec m e ez) as (am & -> & Ham).
      destruct (shl_align_spec mc ec ez) as (ac & -> & Hac).
      cbn [fst]. replace (Z.min e ez) with ez in Ham by lia.
      destruct sr; cbn [cond_Zopp].
      * destruct (- Z.pos am + Z.pos ac) as [|p|p] eqn:Hs; cbn [binary_normalize].
        -- done.
        -- destruct (binary_round_shape false p ez) as [->|[->|(q & e' & ->)]]; done.
        -- apply binary_round_down; [done|done|lia|lia].
      * change (Z.pos am + Z.pos ac) with (Z.pos (am + ac)). cbn [binary_normalize].
        apply binary_round_up; [done|lia|lia].
Qed.

(** *** The operations yield well-formed values *)

Lemma Zdigits2_unique z d : 2 ^ (d - 1) ≤ z < 2 ^ d → 0 < z → Zdigits2 z = d.
Proof. destruct z as [|p|p]; try lia. intros H _. by apply digits_unique. Qed.

Lemma rounded_valid sx m e :
  0 ≤ m → (0 < m → fexp 24 128 (Zdigits2 m + e) = e) → valid_binary 24 128 (rounded sx m e) = true.
Proof.
  intros Hm H. destruct m as [|p|p]; [done| |lia]. unfold rounded.
  destruct (Z.leb_spec e 104) as [He|He]; [|done]. cbn.
  unfold bounded, canonical_mantissa. apply andb_true_intro. split.
  - apply Z.eqb_eq. apply H. lia.
  - apply Z.leb_le. done.
Qed.

(** Rounding yields a well-formed value whenever the exponent given is not
    above the one of the format for the magnitude given. *)
Lemma binary_round_aux_valid sx m e l :
  0 ≤ m → e ≤ fexp 24 128 (Zdigits2 m + e) →
  valid_binary 24 128 (binary_round_aux 24 128 sx m e l) = true.
Proof.
  intros Hm Hn.
  destruct (binary_round_aux_spec sx m e l Hm) as (mr & Hmr & ->).
  set (d := Zdigits2 m) in *. set (E1 := fexp 24 128 (d + e)) in *. set (n1 := E1 - e) in *.
  assert (HE1 : E1 = Z.max (d + e - 24) (-149)) by apply fexp_binary32.
  assert (Hd0 : 0 ≤ d) by apply Zdigits2_nonneg.
  assert (He1 : shifted_e e n1 = E1).
  { destruct (Z.lt_ge_cases 0 n1); [rewrite shifted_e_gt|rewrite shifted_e_le]; lia. }
  assert (Hm1 : shifted_m m n1 = m / 2 ^ n1).
  { destruct (Z.lt_ge_cases 0 n1); [by rewrite shifted_m_gt|rewrite shifted_m_le by lia].
    replace n1 with 0 by lia. by rewrite Z.div_1_r. }
  rewrite He1, Hm1 in *. clear He1 Hm1. set (m1 := m / 2 ^ n1) in *.
  assert (Hp : 0 < 2 ^ n1) by (apply pow2_pos; lia).
  assert (F1 : 0 ≤ m1) by (apply Z.div_pos; lia).
  assert (F2 : m1 = 0 → E1 = -149).
  { intros H0. apply Z.div_small_iff in H0 as [H0|H0]; [|lia|lia].
    destruct (Z.eq_dec m 0) as [Hz|Hz]; [subst m; cbn in d; lia|].
    assert (d ≤ n1) by (apply Zdigits2_lt_pow; lia). lia. }
  assert (F3 : 0 < m1 → Zdigits2 m1 = d - n1 ∧ 1 ≤ d - n1).
  { intros H1. assert (H2 : 2 ^ n1 ≤ m).
    { destruct (Z.le_gt_cases (2 ^ n1) m); [done|]. 
      assert (m1 = 0); [|lia]. apply Z.div_small. lia. }
    assert (n1 < d) by (apply Zdigits2_ge_pow; lia).
    destruct (Zdigits2_bounds m) as (_ & Hlo & Hhi); [lia|]. fold d in Hlo, Hhi.
    split; [|lia]. apply Zdigits2_unique; [|done]. split.
    - apply div_pow_ge; [lia|]. rewrite <- Z.pow_add_r by lia.
      by replace (d - n1 - 1 + n1) with (d - 1) by lia.
    - apply div_pow_lt; [lia|]. rewrite <- Z.pow_add_r by lia.
      by replace (d - n1 + n1) with d by lia. }
  set (n2 := fexp 24 128 (Zdigits2 mr + E1) - E1).
  assert (Hn2 : n2 = Z.max (Zdigits2 mr + E1 - 24) (-149) - E1) by (unfold n2; by rewrite fexp_binary32).
  destruct (Z.eq_dec m1 0) as [Hz|Hz].
  - (* everything was shifted out *)
    specialize (F2 Hz). destruct Hmr as [->|[-> _]].
    + rewrite Hz. apply rounded_valid; [by apply shifted_m_nonneg|].
      intros H. unfold shifted_m in H. destruct (0 <? n2); [|lia].
      rewrite Z.div_0_l in H; [lia|]. apply Z.pow_nonzero; lia.
    + rewrite Hz in *. change (Zdigits2 (0 + 1)) with 1 in Hn2.
      rewrite shifted_m_le, shifted_e_le by lia. apply rounded_valid; [done|].
      intros _. rewrite fexp_binary32. change (Zdigits2 (0 + 1)) with 1. lia.
  - destruct F3 as [Hd1 Hd1']; [lia|]. set (d1 := d - n1) in *.
    destruct (Zdigits2_bounds m1) as (_ & Hlo & Hhi); [lia|]. rewrite Hd1 in Hlo, Hhi.
    destruct Hmr as [->|[-> _]].
    + rewrite Hd1 in Hn2. rewrite shifted_m_le, shifted_e_le by lia.
      apply rounded_valid; [lia|]. intros _. rewrite fexp_binary32, Hd1. lia.
    + destruct (Z.eq_dec (m1 + 1) (2 ^ d1)) as [Hc|Hc].
      * assert (Hdr : Zdigits2 (m1 + 1) = d1 + 1).
        { apply Zdigits2_unique; [|lia]. rewrite Hc.
          replace (d1 + 1 - 1) with d1 by lia. split; [lia|].
          apply Z.pow_lt_mono_r; lia. }
        rewrite Hdr in Hn2. destruct (Z.eq_dec d1 24) as [H24|H24].
        -- rewrite shifted_m_gt, shifted_e_gt by lia.
           assert (n2 = 1) as -> by lia. rewrite Hc, H24.
           change (2 ^ 24 / 2 ^ 1) with (2 ^ 23).
           apply rounded_valid; [done|]. intros _. rewrite fexp_binary32.
           change (Zdigits2 (2 ^ 23)) with 24. lia.
        -- rewrite shifted_m_le, shifted_e_le by lia.
           apply rounded_valid; [lia|]. intros _. rewrite fexp_binary32, Hdr. lia.
      * assert (Hdr : Zdigits2 (m1 + 1) = d1).
        { apply Zdigits2_unique; lia. }
        rewrite Hdr in Hn2. rewrite shifted_m_le, shifted_e_le by lia.
        apply rounded_valid; [lia|]. intros _. rewrite fexp_binary32, Hdr. lia.
Qed.

Lemma binary_round_valid sx M ez : valid_binary 24 128 (binary_round 24 128 sx M ez) = true.
Proof.
  destruct (binary_round_spec sx M ez) as (mz & Hmz & ->).
  apply binary_round_aux_valid; [done|]. rewrite Zdigits2_pos.
  set (E := fexp 24 128 (digits M + ez)) in *.
  apply digits_mul_pow in Hmz; [|lia]. rewrite Hmz.
  replace (digits M + (ez - Z.min ez E) + Z.min ez E) with (digits M + ez) by lia.
  fold E. lia.
Qed.

Lemma binary_normalize_valid n e s :
  valid_binary 24 128 (binary_normalize 24 128 n e s) = true.
Proof. destruct n; [done|apply binary_round_valid..]. Qed.

Lemma SFmul_valid x y :
  valid_binary 24 128 x = true → valid_binary 24 128 y = true →
  valid_binary 24 128 (SFmul 24 128 x y) = true.
Proof.
  destruct x as [sx|sx| |sx mx ex], y as [sy|sy| |sy my ey]; try done.
  cbn [valid_binary]. unfold bounded, canonical_mantissa. fold (digits mx) (digits my).
  intros [Hx _]%andb_prop [Hy _]%andb_prop. apply Z.eqb_eq in Hx, Hy.
  rewrite fexp_binary32 in Hx, Hy. unfold SFmul.
  apply binary_round_aux_valid; [done|]. rewrite Zdigits2_pos, fexp_binary32.
  pose proof (digits_bounds mx) as [Hbx _]. pose proof (digits_bounds my) as [Hby _].
  pose proof (digits_pos mx). pose proof (digits_pos my).
  assert (digits mx + digits my - 2 < digits (mx * my)); [|lia].
  apply digits_ge_pow. rewrite Pos2Z.inj_mul.
  replace (digits mx + digits my - 2) with ((digits mx - 1) + (digits my - 1)) by lia.
  rewrite Z.pow_add_r by lia. apply Z.mul_le_mono_nonneg; try done; apply Z.pow_nonneg; lia.
Qed.

Lemma SFdiv_core_binary_spec m1 e1 m2 e2 :
  ∃ q e' l, SFdiv_core_binary 24 128 (Z.pos m1) e1 (Z.pos m2) e2 = (q, e', l) ∧
            0 ≤ q ∧ e' ≤ fexp 24 128 (Zdigits2 q + e').
Proof.
  unfold SFdiv_core_binary. rewrite !Zdigits2_pos.
  set (e' := Z.min (fexp 24 128 (digits m1 + e1 - (digits m2 + e2))) (e1 - e2)).
  set (s := e1 - e2 - e').
  assert (Hs : 0 ≤ s) by lia.
  set (m' := match s with Z.pos _ => Z.shiftl (Z.pos m1) s | 0 => Z.pos m1 | Z.neg _ => 0 end).
  assert (Hm' : m' = Z.pos m1 * 2 ^ s).
  { subst m'. destruct s as [|p|p] eqn:E; [lia| |lia]. by rewrite Z.shiftl_mul_pow2. }
  pose proof (Z_div_mod m' (Z.pos m2) ltac:(lia)) as Hdiv.
  destruct (Z.div_eucl m' (Z.pos m2)) as [q r]. destruct Hdiv as [Hq Hr].
  exists q, e', (new_location (Z.pos m2) r). split; [done|].
  pose proof (digits_bounds m1) as [Hlo1 Hhi1]. pose proof (digits_bounds m2) as [Hlo2 Hhi2].
  pose proof (digits_pos m1). pose proof (digits_pos m2).
  pose proof (pow2_pos s Hs) as Hps.
  assert (Hlo' : 2 ^ (digits m1 - 1 + s) ≤ m').
  { rewrite Z.pow_add_r, Hm' by lia. apply Z.mul_le_mono_nonneg_r; lia. }
  assert (Hq0 : 0 ≤ q) by nia.
  split; [done|]. rewrite fexp_binary32. unfold e' at 1. rewrite fexp_binary32.
  destruct (Z.eq_dec q 0) as [->|Hqz].
  - (* the quotient is zero *)
    assert (2 ^ (digits m1 - 1 + s) < 2 ^ digits m2) by lia.
    apply Z.pow_lt_mono_r_iff in H1; [|lia|lia].
    change (Zdigits2 0) with 0. lia.
  - set (k := digits m1 - 1 + s - digits m2).
    assert (k < Zdigits2 q); [|lia].
    destruct (Z.lt_ge_cases k 0) as [Hk|Hk].
    { destruct (Zdigits2_bounds q); lia. }
    apply Zdigits2_ge_pow; [lia|].
    assert (2 ^ k * 2 ^ digits m2 < (q + 1) * 2 ^ digits m2).
    { rewrite <- Z.pow_add_r by lia. replace (k + digits m2) with (digits m1 - 1 + s) by lia.
      eapply Z.le_lt_trans; [apply Hlo'|]. rewrite Hq. nia. }
    apply Z.mul_lt_mono_pos_r in H1; [lia|]. apply pow2_pos; lia.
Qed.

Lemma SFdiv_valid x y : valid_binary 24 128 (SFdiv 24 128 x y) = true.
Proof.
  destruct x as [sx|sx| |sx mx ex], y as [sy|sy| |sy my ey]; try done.
  unfold SFdiv. destruct (SFdiv_core_binary_spec mx ex my ey) as (q & e' & l & -> & Hq & He).
  by apply binary_round_aux_valid.
Qed.

(** *** The lag law *)

Lemma of_Z_nonneg n : 0 ≤ n → SFleb (S754_zero false) (binary_normalize 24 128 n 0 false) = true.
Proof.
  intros Hn. destruct n as [|p|p]; [done| |lia]. cbn [binary_normalize].
  by destruct (binary_round_shape false p 0) as [->|[->|(q & e' & ->)]].
Qed.

Lemma SFadd_lag v r lag :
  valid_binary 24 128 r = true → 0 ≤ lag →
  SFltb (SFadd 24 128 r (binary_normalize 24 128 lag 0 false)) v = true → SFltb r v = true.
Proof.
  intros Hr Hlag H.
  destruct (SFadd_nonneg_le r _ Hr (of_Z_nonneg lag Hlag)) as [->|[Hn|Hle]].
  - done.
  - by rewrite Hn in H.
  - by eapply SFleb_ltb_trans.
Qed.

Lemma binary32_order : FloatOrder binary32.
Proof.
  split.
  - intros n. apply binary_normalize_valid.
  - intros a b. apply SFmul_valid.
  - intros a b _ _. apply SFdiv_valid.
  - intros a. apply SFltb_irrefl.
  - intros a b c Hab Hbc. cbn in *. by eapply SFltb_trans.
  - intros v r lag Hr Hlag H. by eapply SFadd_lag.
Qed.

(** ** Headbox fade in binary32 *)

Lemma zero_times_finite (x : spec_float) :
  Binary32.is_finite x = true →
  fneq (fmul (of_int 0) x) (of_int 0) = false ∧
  (Binary32.sign_bit x = false → fmul (of_int 0) x = of_int 0).
Proof. destruct x as [[]|[]| |[] m e]; cbn; intros; split; done. Qed.



(** ** Drift decision on sample inputs *)

(** The claim C1 as the specification words it fails here: the video is at
    frame 6 of a 30 fps video (200 ms), the wall clock is at 100 ms, the
    soundtrack is not playing and reports 0 ms.  The drift decision runs,
    the video is ahead by more than 5 ms, and the frame advance IS delayed,
    although the audio is inactive and its elapsed time is exactly zero. *)
Lemma audio_inactive_still_delays :
  let i := sampleTick (F:=binary32) [] 100000000 6 false (of_int 0) origin in
  let w := stateBeforeSync sampleConfig noRotation i playingWorld in
  isHidden (menu (session w)) = true ∧
  pause (statics w) = false ∧
  (getFront i =? 0) = false ∧
  getVideoTimeMs sampleConfig (getFront i) = of_int 200 ∧
  referenceTimeMs sampleConfig i w = of_int 100 ∧
  fgt (getVideoTimeMs sampleConfig (getFront i))
      (fadd (referenceTimeMs sampleConfig i w) kMaxAudioLag) = true ∧
  audioIsPlaying i = false ∧
  fneq (audioElapsedMs i) (of_int 0) = false ∧
  delayNextFrame sampleConfig noRotation i playingWorld = true ∧
  frameEvents (tickEvents sampleConfig noRotation Length32 i playingWorld) = [].
Proof.
  intros i w.
  assert (Hd : delayNextFrame sampleConfig noRotation i playingWorld = true)
    by (vm_compute; reflexivity).
  repeat (split; [vm_compute; reflexivity|]).
  rewrite tick_frameEvents, Hd. reflexivity.
Qed.

Lemma ahead_delays_witness :
  let i := sampleTick (F:=binary32) [] 100000000 6 false (of_int 0) origin in
  let w := stateBeforeSync sampleConfig noRotation i playingWorld in
  isHidden (menu (session w)) = true ∧
  pause (statics w) = false ∧
  getFront i ≠ 0 ∧
  fgt (getVideoTimeMs sampleConfig (getFront i))
      (fadd (referenceTimeMs sampleConfig i w) kMaxAudioLag) = true ∧
  delayNextFrame sampleConfig noRotation i playingWorld = true.
Proof.
  intros i w.
  assert (H1 : isHidden (menu (session w)) = true) by (vm_compute; reflexivity).
  assert (H2 : pause (statics w) = false) by (vm_compute; reflexivity).
  assert (H3 : getFront i ≠ 0) by (vm_compute; discriminate).
  assert (H4 : fgt (getVideoTimeMs sampleConfig (getFront i))
                   (fadd (referenceTimeMs sampleConfig i w) kMaxAudioLag) = true)
    by (vm_compute; reflexivity).
  repeat (split; [assumption|]).
  exact (proj1 (proj2 (ahead_delays_unless_audio_at_zero sampleConfig noRotation Length32
                         i playingWorld H1 H2 H3 H4)) eq_refl).
Defined.

(** The examples of the specification in binary32, at 20 frames per second
    (a frame lasts 50 ms) with the soundtrack playing: video at 200 ms
    against 100 ms is delayed; 50 ms against 145 ms and 100 ms against
    103 ms are not. *)
Example drift_examples_binary32 :
  valueOf (syncAudioVideo sampleConfig20
             (sampleTick (F:=binary32) [] 0 4 true (of_int 100) origin) playingWorld) = true ∧
  valueOf (syncAudioVideo sampleConfig20
             (sampleTick (F:=binary32) [] 0 1 true (of_int 145) origin) playingWorld) = false ∧
  valueOf (syncAudioVideo sampleConfig20
             (sampleTick (F:=binary32) [] 0 2 true (of_int 103) origin) playingWorld) = false.
Proof. repeat split; vm_compute; reflexivity. Qed.

(** In binary32, at 20 frames per second with the soundtrack playing: at
    frame 0 the clock is reset and the soundtrack restarted; at frame 1
    (50 ms) against 145 ms, and at frame 2 (100 ms) against 103 ms, nothing
    is done. *)
Lemma drift_decision_witness :
  let w := playingWorld (F:=binary32) in
  let atStart := sampleTick (F:=binary32) [] 7000000 0 true (of_int 3) origin in
  let behind := sampleTick (F:=binary32) [] 0 1 true (of_int 145) origin in
  let inBand := sampleTick (F:=binary32) [] 0 2 true (of_int 103) origin in
  isHidden (menu (session w)) = true ∧
  pause (statics w) = false ∧
  fvalid (audioElapsedMs atStart) = true ∧
  fvalid (audioElapsedMs behind) = true ∧
  fvalid (audioElapsedMs inBand) = true ∧
  fgt (referenceTimeMs sampleConfig20 behind w)
      (fadd (getVideoTimeMs sampleConfig20 (getFront behind)) (of_int 90)) = true ∧
  fgt (getVideoTimeMs sampleConfig20 (getFront inBand))
      (fadd (referenceTimeMs sampleConfig20 inBand w) (of_int 5)) = false ∧
  fgt (referenceTimeMs sampleConfig20 inBand w)
      (fadd (getVideoTimeMs sampleConfig20 (getFront inBand)) (of_int 90)) = false ∧
  syncAudioVideo sampleConfig20 atStart w =
    (false, with_statics (set_startTime 7000000) w, [SoundtrackRestart]) ∧
  syncAudioVideo sampleConfig20 behind w = (false, w, []) ∧
  syncAudioVideo sampleConfig20 inBand w = (false, w, []).
Proof.
  intros w atStart behind inBand.
  assert (H1 : isHidden (menu (session w)) = true) by reflexivity.
  assert (H2 : pause (statics w) = false) by reflexivity.
  assert (Ha : fvalid (audioElapsedMs atStart) = true) by (vm_compute; reflexivity).
  assert (Hb : fvalid (audioElapsedMs behind) = true) by (vm_compute; reflexivity).
  assert (Hc : fvalid (audioElapsedMs inBand) = true) by (vm_compute; reflexivity).
  assert (H3 : fgt (referenceTimeMs sampleConfig20 behind w)
                 (fadd (getVideoTimeMs sampleConfig20 (getFront behind)) (of_int 90)) = true)
    by (vm_compute; reflexivity).
  assert (H4 : fgt (getVideoTimeMs sampleConfig20 (getFront inBand))
                 (fadd (referenceTimeMs sampleConfig20 inBand w) (of_int 5)) = false)
    by (vm_compute; reflexivity).
  assert (H5 : fgt (referenceTimeMs sampleConfig20 inBand w)
                 (fadd (getVideoTimeMs sampleConfig20 (getFront inBand)) (of_int 90)) = false)
    by (vm_compute; reflexivity).
  split; [exact H1|]. split; [exact H2|]. split; [exact Ha|]. split; [exact Hb|].
  split; [exact Hc|]. split; [exact H3|]. split; [exact H4|]. split; [exact H5|].
  split; [|split].
  - exact (proj1 (proj2 (drift_decision (FloatOrder0:=binary32_order) sampleConfig20
                           atStart w H1 H2 Ha)) eq_refl).
  - refine (proj1 (proj2 (proj2 (drift_decision (FloatOrder0:=binary32_order) sampleConfig20
                                   behind w H1 H2 Hb))) _ H3).
    vm_compute; discriminate.
  - refine (proj2 (proj2 (proj2 (drift_decision (FloatOrder0:=binary32_order) sampleConfig20
                                   inBand w H1 H2 Hc))) _ H4 H5).
    vm_compute; discriminate.
Defined.

(** ** Pause toggle on sample inputs *)



(** ** The key poller on a sample history *)

(** SPACE held for two polls, released, pressed again: it fires at the
    first and at the last poll.  The left arrow fires at every poll it is
    held. *)
Example space_fires_once_per_press :
  pollKeys [keysDown [chr " "; VK_LEFT]; keysDown [chr " "; VK_LEFT]; keysDown [];
            keysDown [chr " "]] ∅
  = [[chr " "; VK_LEFT]; [VK_LEFT]; []; [chr " "]].
Proof. vm_compute. reflexivity. Qed.

(** ** Playback state on sample inputs *)


(** ** The readahead window on sample sessions *)

(** A single-frame video: one load in the setup, none in three iterations
    of which the second dismisses the menu; never more than one in flight. *)
Lemma readahead_window_witness :
  let ticks := [sampleTick (F:=binary32) [chr " "] 0 0 false (of_int 0) origin;
                fadeDoneTick; idleTick] in
  numFrames singleFrameConfig = 1 ∧
  reachesLoop singleFrameConfig sampleSetup = true ∧
  frameEvents (snd (MainLoop singleFrameConfig noRotation Length32 true sampleSetup ticks
                      initialStatics))
    = [ReadBegin Video false; ReadEnd Video] ∧
  inFlight (snd (MainLoop singleFrameConfig noRotation Length32 true sampleSetup ticks
                   initialStatics)) ≤ 1.
Proof.
  intros ticks.
  assert (H1 : numFrames singleFrameConfig = 1) by reflexivity.
  assert (H2 : reachesLoop singleFrameConfig sampleSetup = true) by reflexivity.
  repeat (split; [assumption|]).
  destruct (readahead_window singleFrameConfig (noRotation (F:=binary32)) Length32 true
              sampleSetup ticks initialStatics) as (Hw & Hs & _).
  split.
  - rewrite (proj1 (Hs H1)), H2. reflexivity.
  - exact (Hw _ (reflexivity _)).
Defined.

(** ** Leaving the loop on sample sessions *)

(** One idle iteration, then [ShouldQuit]: [MainLoop] returns false and the
    trace is that of the idle iteration; with a failing submission instead,
    it returns true for [ovrError_DisplayLost]. *)
Lemma quit_and_display_lost_witness :
  let run := MainLoop (F:=binary32) sampleConfig noRotation Length32 true sampleSetup in
  fst (fst (run [idleTick] initialStatics)) = Running ∧
  HandleMessages (quitTick (F:=binary32)) = true ∧
  ShouldQuit (quitTick (F:=binary32)) = true ∧
  run ([idleTick] ++ quitTick :: [idleTick]) initialStatics =
    (Returned false, snd (fst (run [idleTick] initialStatics)),
     snd (run [idleTick] initialStatics)) ∧
  fst (fst (run ([idleTick] ++ failingTick ovrError_DisplayLost :: [idleTick])
              initialStatics)) = Returned true.
Proof.
  intros run.
  assert (H1 : fst (fst (run [idleTick] initialStatics)) = Running)
    by (vm_compute; reflexivity).
  split; [exact H1|]. split; [reflexivity|]. split; [reflexivity|].
  destruct (run [idleTick] initialStatics) as [[out st1] evs1] eqn:E.
  cbn [fst snd] in H1 |- *. subst out.
  split.
  - exact (proj1 (quit_and_display_lost sampleConfig noRotation Length32 true sampleSetup
                    [idleTick] quitTick [idleTick] initialStatics st1 evs1 E eq_refl)
             eq_refl).
  - destruct (proj1 (proj2 (quit_and_display_lost sampleConfig noRotation Length32 true
                              sampleSetup [idleTick] (failingTick ovrError_DisplayLost)
                              [idleTick] initialStatics st1 evs1 E eq_refl))
                eq_refl eq_refl eq_refl) as (st2 & evs2 & Hlost).
    unfold run. rewrite Hlost. reflexivity.
Defined.

(** ** Advancing behind the menu *)

(** From the first invocation: SPACE starts the menu fade, is released, and
    is pressed again before the fade completes.  The menu is still drawn,
    [pause] is false, the drift decision is skipped and the video
    advances. *)
Lemma advance_behind_menu_witness :
  let press := sampleTick (F:=binary32) [chr " "] 0 0 false (of_int 0) origin in
  let w2 := afterTick sampleConfig noRotation Length32 idleTick
              (afterTick sampleConfig noRotation Length32 press freshWorld) in
  isHidden (menu (session (stateBeforeSync sampleConfig noRotation press w2))) = false ∧
  pause (statics (stateBeforeSync sampleConfig noRotation press w2)) = false ∧
  1 < numFrames sampleConfig ∧
  delayNextFrame sampleConfig noRotation press w2 = false ∧
  frameEvents (tickEvents sampleConfig noRotation Length32 press w2) = advanceEvents.
Proof.
  intros press w2.
  assert (H1 : isHidden (menu (session (stateBeforeSync sampleConfig noRotation press w2)))
               = false) by (vm_compute; reflexivity).
  assert (H2 : pause (statics (stateBeforeSync sampleConfig noRotation press w2)) = false)
    by (vm_compute; reflexivity).
  assert (H3 : 1 < numFrames sampleConfig) by reflexivity.
  destruct (proj2 (advance_not_gated_on_menu sampleConfig noRotation Length32 press w2) H1)
    as (_ & Hd & Hadv).
  split; [exact H1|]. split; [exact H2|]. split; [exact H3|]. split; [exact Hd|].
  exact (Hadv H2 H3).
Defined.

(** ** Re-entry on sample sessions *)

(** A first invocation in which the menu is dismissed, then H and the left
    arrow are pressed, and which ends on a lost display; in the second
    invocation [pause] is false, [started] is true and [fade] is 0, where a
    first invocation has true, false and 2. *)
Lemma statics_persist_witness :
  let ticks1 := [sampleTick (F:=binary32) [chr " "] 0 0 false (of_int 0) origin;
                 fadeDoneTick;
                 sampleTick [chr "H"; VK_LEFT] 0 0 false (of_int 0) origin;
                 failingTick ovrError_DisplayLost] in
  let first := MainLoop sampleConfig noRotation Length32 true sampleSetup ticks1
                 initialStatics in
  fst (fst first) = Returned true ∧
  snd (fst (Run sampleConfig noRotation Length32
              [(sampleSetup, ticks1); (sampleSetup, [])] initialStatics))
    = snd (fst first) ∧
  pause (snd (fst first)) = false ∧
  started (snd (fst first)) = true ∧
  fade (snd (fst first)) = 0 ∧
  pause (initialStatics (F:=binary32)) = true ∧
  started (initialStatics (F:=binary32)) = false ∧
  fade (initialStatics (F:=binary32)) = 2.
Proof.
  intros ticks1 first.
  assert (H1 : fst (fst first) = Returned true) by (vm_compute; reflexivity).
  assert (H3 : pause (snd (fst first)) = false) by (vm_compute; reflexivity).
  assert (H4 : started (snd (fst first)) = true) by (vm_compute; reflexivity).
  assert (H5 : fade (snd (fst first)) = 0) by (vm_compute; reflexivity).
  split; [exact H1|]. split; [|by repeat split].
  destruct (statics_persist_across_reentry sampleConfig (noRotation (F:=binary32)) Length32)
    as (Hnone & _ & Hrun).
  unfold first in *. clear H3 H4 H5.
  destruct (MainLoop sampleConfig noRotation Length32 true sampleSetup ticks1 initialStatics)
    as [[out st1] evs1] eqn:E.
  cbn [fst snd] in H1 |- *. subst out.
  rewrite (proj1 (Hrun _ _ sampleSetup [] _ _ _ E)). apply Hnone.
Defined.

(** ** How the loop is left, on sample sessions *)

(** Called with [retryCreate] set, an idle iteration and then [ShouldQuit]:
    [MainLoop] returns false, and the iteration that made it do so is the
    one that observed [ShouldQuit]. *)
Lemma result_differs_witness :
  let run := MainLoop (F:=binary32) sampleConfig noRotation Length32 true sampleSetup in
  let ticks := [idleTick; quitTick; idleTick] in
  fst (fst (run ticks initialStatics)) = Returned false ∧
  ∃ before i rest,
    ticks = before ++ i :: rest ∧
    fst (fst (run before initialStatics)) = Running ∧
    HandleMessages i = true ∧ ShouldQuit i = true.
Proof.
  intros run ticks.
  assert (H : fst (fst (run ticks initialStatics)) = Returned (negb true))
    by (vm_compute; reflexivity).
  split; [exact H|].
  exact (result_differs_from_retryCreate sampleConfig (noRotation (F:=binary32)) Length32
           true sampleSetup ticks initialStatics H).
Defined.


(** ** Keys without a handler, on a sample session *)

(** SPACE pressed, against SPACE pressed together with M and ESC: the two
    runs do the same. *)
Lemma unhandled_keys_witness :
  let press := sampleTick (F:=binary32) [chr " "] 0 0 false (of_int 0) origin in
  let K := keysDown [chr " "; chr "M"; 27] in
  let run := MainLoop (F:=binary32) sampleConfig noRotation Length32 true sampleSetup in
  Forall2 (λ K i, sameHandled K (Key i)) [K] [press] ∧
  sameButKeys (initialStatics (F:=binary32)) initialStatics ∧
  fst (fst (run (zip_with withKeys [K] [press]) initialStatics)) =
    fst (fst (run [press] initialStatics)) ∧
  snd (run (zip_with withKeys [K] [press]) initialStatics) =
    snd (run [press] initialStatics) ∧
  sameButKeys (snd (fst (run (zip_with withKeys [K] [press]) initialStatics)))
    (snd (fst (run [press] initialStatics))).
Proof.
  intros press K run.
  assert (HK : Forall2 (λ K i, sameHandled K (Key i)) [K] [press]).
  { repeat constructor. intros c Hc. unfold handledKeys in Hc.
    rewrite !elem_of_cons, elem_of_nil in Hc.
    repeat (destruct Hc as [->|Hc]; [vm_compute; reflexivity|]). destruct Hc. }
  assert (Hs : sameButKeys (initialStatics (F:=binary32)) initialStatics)
    by (split; [reflexivity | tauto]).
  split; [exact HK|]. split; [exact Hs|].
  exact (unhandled_keys_ignored sampleConfig (noRotation (F:=binary32)) Length32
           true sampleSetup [K] [press] initialStatics initialStatics HK Hs).
Defined.

(** ** Render targets on a sample headset *)

(** The buffer of the left eye: two chains of two textures and a
    framebuffer are created, and the destructor releases the three. *)
Lemma buffer_released_witness :
  ∃ b calls,
    newOculusTextureBuffer 1 (1344, 1600) 1 (sampleBuffer 0) = Some (b, calls) ∧
    acquisitions calls = [SwapChain 1; SwapChain 2; Framebuffer 1] ∧
    releases calls = [] ∧
    acquisitions (deleteOculusTextureBuffer b) = [] ∧
    releases (deleteOculusTextureBuffer b) = acquisitions calls.
Proof.
  eexists _, _. split; [reflexivity|]. split; [reflexivity|].
  exact (buffer_released 1 (1344, 1600) 1 (sampleBuffer 0) _ _ eq_refl).
Defined.

(** The depth chain of the right eye cannot be created: called with
    [retryCreate] set, [MainLoop] returns true, and what was created by then
    (the two chains and the framebuffer of the left eye, the color chain and
    the framebuffer of the right eye) is released at [Done]. *)
Lemma returning_releases_witness :
  let run := MainLoop (F:=binary32) sampleConfig noRotation Length32 true
               (setupOf noDepthDevice) in
  sessionHandle noDepthDevice ≠ 0 ∧
  fst (fst (run [idleTick] initialStatics)) = Returned true ∧
  fst (MainLoopDevice true noDepthDevice (sceneChecksFail sampleConfig)) = DeviceReturned ∧
  ∃ pre post,
    snd (MainLoopDevice true noDepthDevice (sceneChecksFail sampleConfig)) = pre ++ post ∧
    releases pre = [] ∧
    acquisitions post = [] ∧
    releases post ≡ₚ acquisitions pre.
Proof.
  intros run.
  assert (H0 : sessionHandle noDepthDevice ≠ 0) by discriminate.
  assert (H : fst (fst (run [idleTick] initialStatics)) = Returned true)
    by (vm_compute; reflexivity).
  split; [exact H0|]. split; [exact H|].
  exact (returning_releases_all sampleConfig (noRotation (F:=binary32)) Length32 true
           noDepthDevice [idleTick] initialStatics true H0 H).
Defined.

(** ** Starting playback on sample inputs *)

(** The first press of SPACE in the first invocation. *)
Lemma first_press_witness :
  let press := sampleTick (F:=binary32) [chr " "] 0 0 false (of_int 0) origin in
  let w1 := worldOf (processKeys sampleConfig noRotation press freshWorld) in
  keyActive press freshWorld (chr " ") = true ∧
  pause (statics (freshWorld (F:=binary32))) = true ∧
  started (statics (freshWorld (F:=binary32))) = false ∧
  started (statics w1) = true ∧
  pause (statics w1) = true ∧
  startTime (statics w1) = startTime (statics (freshWorld (F:=binary32))) ∧
  menu (session w1) = startFadeOut (menu (session (freshWorld (F:=binary32)))) ∧
  List.filter isPlaybackEvent (eventsOf (processKeys sampleConfig noRotation press freshWorld))
    = [MenuStartFadeOut].
Proof.
  intros press w1.
  assert (H1 : keyActive press freshWorld (chr " ") = true) by (vm_compute; reflexivity).
  assert (H2 : pause (statics (freshWorld (F:=binary32))) = true) by reflexivity.
  assert (H3 : started (statics (freshWorld (F:=binary32))) = false) by reflexivity.
  split; [exact H1|]. split; [exact H2|]. split; [exact H3|].
  exact (first_press_fades_menu sampleConfig (noRotation (F:=binary32)) press freshWorld
           H1 H2 H3).
Defined.

(** The iteration in which the fade started by the first press completes,
    with the headset off: [pause] is clear afterwards, the clock origin is
    the time of the iteration, the soundtrack is restarted and the video
    advances. *)
Lemma menu_exit_witness :
  let press := sampleTick (F:=binary32) [chr " "] 0 0 false (of_int 0) origin in
  let w := afterTick sampleConfig noRotation Length32 press freshWorld in
  let i : TickInput := {|
    HandleMessages := true; ShouldQuit := false; IsVisible := true; HmdMounted := false;
    Key := keysDown []; nowResume := 5000000; nowSync := 5000000; getFront := 0;
    audioElapsedMs := of_int 0; audioIsPlaying := false; menuFadeDone := true;
    eyePosition := λ _, origin; submitResult := 0 |} in
  menuExits sampleConfig noRotation i w = true ∧
  isHidden (menu (session (stateBeforeSync sampleConfig noRotation i w))) = true ∧
  1 < numFrames sampleConfig ∧
  pause (statics (afterTick sampleConfig noRotation Length32 i w)) = false ∧
  startTime (statics (afterTick sampleConfig noRotation Length32 i w)) = 5000000 ∧
  SoundtrackRestart ∈ tickEvents sampleConfig noRotation Length32 i w ∧
  frameEvents (tickEvents sampleConfig noRotation Length32 i w) = advanceEvents.
Proof.
  intros press w i.
  assert (H1 : menuExits sampleConfig noRotation i w = true) by (vm_compute; reflexivity).
  assert (H2 : isHidden (menu (session (stateBeforeSync sampleConfig noRotation i w))) = true)
    by (vm_compute; reflexivity).
  assert (H3 : 1 < numFrames sampleConfig) by reflexivity.
  destruct (menu_exit_starts_playback sampleConfig (noRotation (F:=binary32)) Length32 i w H1)
    as (Hp & _ & Hrest).
  destruct (Hrest H2 eq_refl) as (Ht & Hr & _ & Hadv).
  split; [exact H1|]. split; [exact H2|]. split; [exact H3|]. split; [exact Hp|].
  split; [exact Ht|]. split; [exact Hr|]. exact (Hadv H3).
Defined.
